(** * bigquery_crossref: the JSONL record normaliser and its batch driver

    A shallow embedding of [jsonl-processor/src/processor.js], of the
    file-selection, validation, error-handling and progress-statistics
    code of [jsonl-processor/src/process-all.js], and of the line filter
    and the final report of [jsonl-processor/src/generate-schema.js],
    with the properties the specification states about them and further
    properties of the code.

    Modelling conventions.
    - A decoded JSON value is a term of [json].  Numbers are the integers
      [Z]; the code never computes with a number, it only prints and
      re-reads them, and a JavaScript double agrees with the integer it
      denotes while its magnitude stays below 2^53.  Fractions and larger
      magnitudes are outside the model: from 2^53 on [parseInt] rounds,
      from 10^21 on [String] prints an exponent, and a numeral of some 309
      digits is read as [Infinity], which is serialised as [null].  The
      statements that depend on the numbers of a record take
      [safe_numbers] as a hypothesis.
    - A string is a [string] of 8-bit code units.
    - An object is an association list in property-enumeration order.
      [obj_set] overwrites in place or appends, [obj_delete] removes.
      Every key the code writes is either written while enumerating another
      object in order or is not an array index, so appending agrees with
      JavaScript's enumeration order.
    - An assignment [result[key] = value] adds or overwrites a property
      for every key but [__proto__]: under that name it reaches the setter
      of [Object.prototype], which adds no property, and which makes an
      object or array value the prototype of [result], whose properties
      later loops enumerate.  [assign] is the assignment as far as own
      properties go: nothing under [__proto__], [obj_set] under every
      other key.  An object with a prototype of its own is not a term of
      [json].  The three passes that copy objects assign under computed
      keys ([flattenNestedArrays] and [cleanNullValues] under the key
      itself, [replaceKeyDashes] under the renamed key), so the general
      statements about them take as a hypothesis that no key is, or is
      renamed to, [__proto__] ([own_proto_free], [proto_free]).  The passes
      that change an object in place assign under fixed names only.
    - [undefined] is [None] in an [option json].
    - A chunk of a stream is the string its [toString()] gives; what the
      decoding does to a character cut by a chunk boundary is outside the
      model.
    - The functions that mutate their argument in place
      ([processDateFields], [fixBigQueryIssues]) work on the tree that
      [JSON.parse] and [flattenNestedArrays] built, in which no object is
      reachable twice; they are modelled as functions returning the
      mutated tree. *)

From Stdlib Require Import List String Ascii ZArith Lia Bool Arith.
From Stdlib Require Import DecimalString DecimalPos Sorted Permutation.
Import ListNotations.

Open Scope string_scope.
Open Scope list_scope.

(** ** JavaScript string primitives *)

Module JsString.

(** [s.startsWith(p)] *)
Definition startsWith (s p : string) : bool := String.prefix p s.

(** [s.endsWith(p)]: some suffix of [s] is [p]. *)
Fixpoint endsWith (s p : string) : bool :=
  String.eqb s p ||
  match s with
  | EmptyString => false
  | String _ s' => endsWith s' p
  end.

(** [s.includes(p)]: [p] is a prefix of some suffix of [s]. *)
Fixpoint includes (s p : string) : bool :=
  String.prefix p s ||
  match s with
  | EmptyString => false
  | String _ s' => includes s' p
  end.

(** [s.split(c)[0]] for a one-character separator. *)
Fixpoint split_head (c : ascii) (s : string) : string :=
  match s with
  | EmptyString => EmptyString
  | String a s' => if Ascii.eqb a c then EmptyString else String a (split_head c s')
  end.

Definition map_chars (f : ascii -> ascii) : string -> string :=
  fix go s :=
    match s with
    | EmptyString => EmptyString
    | String a s' => String (f a) (go s')
    end.

(** [key.replace(/-/g, '_')] *)
Definition replace_dashes : string -> string :=
  map_chars (fun a => if Ascii.eqb a "-"%char then "_"%char else a).

Definition is_digit (a : ascii) : bool :=
  let n := nat_of_ascii a in (48 <=? n)%nat && (n <=? 57)%nat.

Fixpoint all_chars (p : ascii -> bool) (s : string) : bool :=
  match s with
  | EmptyString => true
  | String a s' => p a && all_chars p s'
  end.

(** [/^\d+$/.test(s)] *)
Definition all_digits (s : string) : bool :=
  negb (String.eqb s "") && all_chars is_digit s.

(** White space and line terminators that fit in a code unit. *)
Definition is_space (a : ascii) : bool :=
  let n := nat_of_ascii a in
  ((9 <=? n)%nat && (n <=? 13)%nat) || (n =? 32)%nat || (n =? 160)%nat.

Fixpoint trimStart (s : string) : string :=
  match s with
  | EmptyString => EmptyString
  | String a s' => if is_space a then trimStart s' else s
  end.

Fixpoint string_rev (s : string) : string :=
  match s with
  | EmptyString => EmptyString
  | String a s' => string_rev s' ++ String a EmptyString
  end.

(** [s.trim()] *)
Definition trim (s : string) : string :=
  string_rev (trimStart (string_rev (trimStart s))).

Fixpoint repeat_char (a : ascii) (n : nat) : string :=
  match n with
  | O => EmptyString
  | S n' => String a (repeat_char a n')
  end.

(** [s.padStart(n, '0')] *)
Definition padStart (n : nat) (s : string) : string :=
  repeat_char "0"%char (n - String.length s) ++ s.

(** [String(n)] for an integer [n]. *)
Definition string_of_Z (z : Z) : string :=
  NilZero.string_of_int (Z.to_int z).

Definition digit_val (a : ascii) : Z := Z.of_nat (nat_of_ascii a - 48).

(** The digits of the longest decimal prefix of [s], read left to right
    into [acc]; the flag tells whether a digit was seen. *)
Fixpoint read_digits (s : string) (seen : bool) (acc : Z) : bool * Z :=
  match s with
  | EmptyString => (seen, acc)
  | String a s' =>
      if is_digit a then read_digits s' true (10 * acc + digit_val a)
      else (seen, acc)
  end.

(** The optional sign [parseInt] reads after the white space. *)
Definition split_sign (s : string) : bool * string :=
  match s with
  | String "-"%char r => (true, r)
  | String "+"%char r => (false, r)
  | _ => (false, s)
  end.

(** [parseInt(s, 10)] on a string: [None] is [NaN].  The number read is
    exact; [parseInt] returns the same while it is below 2^53 in
    magnitude. *)
Definition parseInt_string (s : string) : option Z :=
  let '(neg, s2) := split_sign (trimStart s) in
  match read_digits s2 false 0 with
  | (true, n) => Some (if neg then (- n)%Z else n)
  | (false, _) => None
  end.

End JsString.

Import JsString.

(** ** Decoded JSON values *)

Unset Elimination Schemes.
Inductive json : Type :=
| JNull
| JBool (b : bool)
| JNum (n : Z)
| JStr (s : string)
| JArr (items : list json)
| JObj (props : list (string * json)).
Set Elimination Schemes.

Definition obj := list (string * json).

(** Induction on a value with the hypothesis available for every element
    of an array and every property value of an object. *)
Section JsonInduction.
Variable P : json -> Prop.
Hypothesis Hnull : P JNull.
Hypothesis Hbool : forall b, P (JBool b).
Hypothesis Hnum : forall n, P (JNum n).
Hypothesis Hstr : forall s, P (JStr s).
Hypothesis Harr : forall l, Forall P l -> P (JArr l).
Hypothesis Hobj : forall o, Forall (fun kv => P (snd kv)) o -> P (JObj o).

Fixpoint json_nested_ind (v : json) : P v :=
  match v with
  | JNull => Hnull
  | JBool b => Hbool b
  | JNum n => Hnum n
  | JStr s => Hstr s
  | JArr l =>
      Harr l ((fix items (l : list json) : Forall P l :=
                 match l with
                 | [] => Forall_nil P
                 | x :: r => Forall_cons x (json_nested_ind x) (items r)
                 end) l)
  | JObj o =>
      Hobj o ((fix props (o : obj) : Forall (fun kv => P (snd kv)) o :=
                 match o with
                 | [] => Forall_nil _
                 | kv :: r => Forall_cons kv (json_nested_ind (snd kv)) (props r)
                 end) o)
  end.
End JsonInduction.

Definition is_array (v : json) : bool :=
  match v with JArr _ => true | _ => false end.

Definition is_null (v : json) : bool :=
  match v with JNull => true | _ => false end.

(** [typeof v === 'object'] with [v !== null]. *)
Definition is_object_like (v : json) : bool :=
  match v with JArr _ | JObj _ => true | _ => false end.

(** JavaScript truthiness of a decoded value. *)
Definition truthy (v : json) : bool :=
  match v with
  | JNull => false
  | JBool b => b
  | JNum n => negb (n =? 0)%Z
  | JStr s => negb (String.eqb s "")
  | JArr _ | JObj _ => true
  end.

(** *** Objects as ordered property lists *)

(** The own property [k] of an object: what [o[k]] reads for every name
    that is not a property of [Object.prototype], as are all the names
    the code reads. *)
Fixpoint obj_get (k : string) (o : obj) : option json :=
  match o with
  | [] => None
  | (k', v) :: r => if String.eqb k' k then Some v else obj_get k r
  end.

(** [o[k] = v] *)
Fixpoint obj_set (k : string) (v : json) (o : obj) : obj :=
  match o with
  | [] => [(k, v)]
  | (k', v') :: r =>
      if String.eqb k' k then (k, v) :: r else (k', v') :: obj_set k v r
  end.

(** [delete o[k]] *)
Fixpoint obj_delete (k : string) (o : obj) : obj :=
  match o with
  | [] => []
  | (k', v') :: r =>
      if String.eqb k' k then obj_delete k r else (k', v') :: obj_delete k r
  end.

Definition keys (o : obj) : list string := map fst o.

(** The own property [k] of any decoded value, which is what [v[k]] reads
    for the names the code asks for ([date-parts], [start], the date
    field names): only objects have them. *)
Definition get_prop (v : json) (k : string) : option json :=
  match v with
  | JObj o => obj_get k o
  | _ => None
  end.

Fixpoint distinct (l : list string) : bool :=
  match l with
  | [] => true
  | k :: r => negb (existsb (String.eqb k) r) && distinct r
  end.

(** Every object of the value has pairwise distinct keys, as every
    JavaScript object does. *)
Fixpoint wfb (v : json) : bool :=
  match v with
  | JArr l => forallb wfb l
  | JObj o => distinct (keys o) && forallb (fun kv => wfb (snd kv)) o
  | _ => true
  end.

Definition wf (v : json) : Prop := wfb v = true.

(** Nesting depth of a value: the recursion depth the in-place passes
    need to reach every object. *)
Fixpoint depth (v : json) : nat :=
  match v with
  | JArr l => S (fold_right (fun x m => Nat.max (depth x) m) 0 l)
  | JObj o => S (fold_right (fun kv m => Nat.max (depth (snd kv)) m) 0 o)
  | _ => 0
  end.

(** ** processor.js *)

(** The keys whose null value becomes the empty string. *)
Definition cannot_be_null (key : string) : bool :=
  includes key "colidentifier" || (startsWith key "*" && endsWith key "*").

(** [obj.filter(item => item !== null).map(f)] *)
Definition map_non_null (f : json -> json) : list json -> list json :=
  fix items (l : list json) : list json :=
    match l with
    | [] => []
    | JNull :: r => items r
    | item :: r => f item :: items r
    end.

(** [result[key] = value] on an object that [{}] made, as far as its own
    properties go: under [__proto__] the setter of [Object.prototype]
    runs and no property is added. *)
Definition assign (key : string) (value : json) (result : obj) : obj :=
  if String.eqb key "__proto__" then result else obj_set key value result.

(** Body of the [for (const key in obj)] loop of [cleanNullValues]. *)
Definition clean_property (clean : json -> json) (result : obj) (kv : string * json) : obj :=
  let (key, value) := kv in
  match value with
  | JNull => if cannot_be_null key then assign key (JStr "") result else result
  | _ => assign key (clean value) result
  end.

(** [cleanNullValues(obj)]; the [parentKey] argument is never read. *)
Fixpoint cleanNullValues (v : json) : json :=
  match v with
  | JArr l => JArr (map_non_null cleanNullValues l)
  | JObj o => JObj (fold_left (clean_property cleanNullValues) o [])
  | _ => v
  end.

(** Body of the loop of [replaceKeyDashes].  The assignment
    [result[newKey] = ...] is [obj_set] for every [newKey] but
    [__proto__], the new name of [__proto__], of [--proto--] and of the
    keys that have a hyphen for some of these underscores. *)
Definition rename_property (rename : json -> json) (result : obj) (kv : string * json) : obj :=
  let (key, value) := kv in
  obj_set (replace_dashes key) (rename value) result.

(** [replaceKeyDashes(obj)] *)
Fixpoint replaceKeyDashes (v : json) : json :=
  match v with
  | JArr l => JArr (map replaceKeyDashes l)
  | JObj o => JObj (fold_left (rename_property replaceKeyDashes) o [])
  | _ => v
  end.

Definition key_is (parentKey : option string) (k : string) : bool :=
  match parentKey with
  | Some p => String.eqb p k
  | None => false
  end.

(** The loop that builds [flattened], followed by [flattened.map(f)]:
    the elements of the arrays among the elements are spliced in, one
    level, and [f] is applied to each element of the result. *)
Definition map_spliced (f : json -> json) : list json -> list json :=
  fix items (l : list json) : list json :=
    match l with
    | [] => []
    | JArr sub :: r => map f sub ++ items r
    | item :: r => f item :: items r
    end.

(** Body of the loop of [flattenNestedArrays] over an object. *)
Definition flatten_property (flatten : option string -> json -> json)
    (result : obj) (kv : string * json) : obj :=
  let (key, value) := kv in
  assign key (flatten (Some key) value) result.

(** [flattenNestedArrays(obj, parentKey)]; [None] is the default
    [parentKey = null]. *)
Fixpoint flattenNestedArrays (parentKey : option string) (v : json) {struct v} : json :=
  match v with
  | JArr l =>
      if existsb is_array l then
        if key_is parentKey "date-parts" then
          match l with
          | [JArr first] => JArr first
          | _ => v
          end
        else JArr (map_spliced (flattenNestedArrays None) l)
      else JArr (map (flattenNestedArrays None) l)
  | JObj o => JObj (fold_left (flatten_property flattenNestedArrays) o [])
  | _ => v
  end.

(** [array.join(',')] given the conversion of one element: null elements
    print as the empty string. *)
Definition join_with (f : json -> string) : list json -> string :=
  fix join (l : list json) : string :=
    match l with
    | [] => ""
    | x :: r =>
        let sx := match x with JNull => "" | _ => f x end in
        match r with
        | [] => sx
        | _ :: _ => (sx ++ "," ++ join r)%string
        end
    end.

(** [String(v)], the conversion [parseInt] applies to its argument.  An
    integer is printed in full, as [String] does below 10^21 in
    magnitude. *)
Fixpoint js_toString (v : json) : string :=
  match v with
  | JNull => "null"
  | JBool true => "true"
  | JBool false => "false"
  | JNum n => string_of_Z n
  | JStr s => s
  | JArr l => join_with js_toString l
  | JObj _ => "[object Object]"
  end.

(** [parseInt(x, 10)]; [x = None] is [undefined], the result [None] is
    [NaN]. *)
Definition parseInt (x : option json) : option Z :=
  match x with
  | None => None
  | Some v => parseInt_string (js_toString v)
  end.

Definition or_default (d : Z) (x : option Z) : Z :=
  match x with Some n => n | None => d end.

(** The string [`${formattedYear}-${formattedMonth}-${formattedDay}`]. *)
Definition iso_date (yearNum : Z) (monthNum dayNum : option Z) : string :=
  (padStart 4 (string_of_Z yearNum) ++ "-" ++
   padStart 2 (string_of_Z (or_default 1 monthNum)) ++ "-" ++
   padStart 2 (string_of_Z (or_default 1 dayNum)))%string.

(** [convertDatePartsToISOString(dateParts)]; [None] is [null]. *)
Definition convertDatePartsToISOString (dateParts : json) : option string :=
  match dateParts with
  | JArr (d0 :: rest) =>
      let parts :=
        match d0, rest with
        | JArr inner, [] => inner
        | _, _ => d0 :: rest
        end in
      let year := nth_error parts 0 in
      let month := if (1 <? List.length parts)%nat then nth_error parts 1 else Some (JNum 1) in
      let day := if (2 <? List.length parts)%nat then nth_error parts 2 else Some (JNum 1) in
      match parseInt year with
      | None => None
      | Some yearNum => Some (iso_date yearNum (parseInt month) (parseInt day))
      end
  | _ => None
  end.

(** The unwrapping done before every call of the converter:
    [if (Array.isArray(dateParts) && dateParts.length === 1 &&
    Array.isArray(dateParts[0])) dateParts = dateParts[0]]. *)
Definition unwrap_date_parts (dateParts : json) : json :=
  match dateParts with
  | JArr [JArr inner] => JArr inner
  | _ => dateParts
  end.

(** First block of [processDateFields]: the object's own [date-parts].
    An ISO string is never empty, so [if (isoDate)] tests for [null]. *)
Definition convert_own_date_parts (o : obj) : obj :=
  match obj_get "date-parts" o with
  | Some dateParts =>
      let o' :=
        match convertDatePartsToISOString (unwrap_date_parts dateParts) with
        | Some isoDate => obj_set "date" (JStr isoDate) o
        | None => o
        end in
      obj_delete "date-parts" o'
  | None => o
  end.

Definition dateFields : list string :=
  ["published"; "created"; "deposited"; "indexed"; "issued";
   "published-online"; "published-print"].

(** Body of the loop over [dateFields]. *)
Definition convert_date_field (o : obj) (field : string) : obj :=
  match obj_get field o with
  | Some fv =>
      if truthy fv && is_object_like fv then
        match get_prop fv "date-parts" with
        | Some dateParts =>
            if truthy dateParts then
              match convertDatePartsToISOString (unwrap_date_parts dateParts) with
              | Some isoDate => obj_set field (JStr isoDate) o
              | None => obj_delete field o
              end
            else o
        | None => o
        end
      else o
  | None => o
  end.

(** Body of [obj.license.forEach]. *)
Definition convert_license_start (license : json) : json :=
  match license with
  | JObj lo =>
      match obj_get "start" lo with
      | Some start =>
          if truthy start then
            match get_prop start "date-parts" with
            | Some dateParts =>
                if truthy dateParts then
                  match convertDatePartsToISOString (unwrap_date_parts dateParts) with
                  | Some isoDate => JObj (obj_set "start" (JStr isoDate) lo)
                  | None => JObj (obj_delete "start" lo)
                  end
                else license
            | None => license
            end
          else license
      | None => license
      end
  | _ => license
  end.

Definition convert_licenses (o : obj) : obj :=
  match obj_get "license" o with
  | Some (JArr licenses) => obj_set "license" (JArr (map convert_license_start licenses)) o
  | _ => o
  end.

(** What [processDateFields] does to one object before it descends. *)
Definition date_step (o : obj) : obj :=
  convert_licenses (fold_left convert_date_field dateFields (convert_own_date_parts o)).

Definition map_values (f : json -> json) (o : obj) : obj :=
  map (fun kv => (fst kv, f (snd kv))) o.

(** [processDateFields] and [fixBigQueryIssues] traverse a value the same
    way: an array element by element ([obj.forEach]); an object by a step
    on the object itself, then by a visit of every value the step left in
    it (the [for (const key in obj)] loop, which skips nothing but
    scalars, on which a visit does nothing).  Those values are not
    subterms of the argument, so the recursion is on a counter, which
    [depth] bounds. *)
Fixpoint visit_upto (step : obj -> obj) (n : nat) (v : json) : json :=
  match n with
  | O => v
  | S n' =>
      match v with
      | JArr l => JArr (map (visit_upto step n') l)
      | JObj o => JObj (map_values (visit_upto step n') (step o))
      | _ => v
      end
  end.

Definition visit (step : obj -> obj) (v : json) : json :=
  visit_upto step (S (depth v)) v.

(** [processDateFields(obj)], as the tree it leaves behind. *)
Definition processDateFields (v : json) : json := visit date_step v.

(** The [year] block of [fixBigQueryIssues]. *)
Definition fix_year (o : obj) : obj :=
  match obj_get "year" o with
  | Some (JStr yearValue) =>
      if negb (all_digits yearValue) then
        obj_delete "year" (obj_set "year_string" (JStr yearValue) o)
      else
        match parseInt_string yearValue with
        | Some yearInt => obj_set "year" (JNum yearInt) o
        | None => obj_delete "year" (obj_set "year_string" (JStr yearValue) o)
        end
  | _ => o
  end.

(** [fixBigQueryIssues(obj)], as the tree it leaves behind. *)
Definition fixBigQueryIssues (v : json) : json := visit fix_year v.

(** *** Serialisation and the corrective pass *)

Definition dquote : ascii := ascii_of_nat 34.
Definition newline : string := String (ascii_of_nat 10) "".

Definition hex_digit (n : nat) : ascii :=
  if (n <? 10)%nat then ascii_of_nat (48 + n) else ascii_of_nat (87 + n).

(** The escape [JSON.stringify] writes for one code unit of a string. *)
Definition escape_char (a : ascii) : string :=
  let n := nat_of_ascii a in
  if (n =? 34)%nat then String "\"%char (String dquote "")
  else if (n =? 92)%nat then "\\"
  else if (n =? 8)%nat then "\b"
  else if (n =? 9)%nat then "\t"
  else if (n =? 10)%nat then "\n"
  else if (n =? 12)%nat then "\f"
  else if (n =? 13)%nat then "\r"
  else if (n <? 32)%nat then
    ("\u00" ++ String (hex_digit (n / 16)) (String (hex_digit (n mod 16)) ""))%string
  else String a "".

Fixpoint escape (s : string) : string :=
  match s with
  | EmptyString => EmptyString
  | String a s' => (escape_char a ++ escape s')%string
  end.

Definition quote (s : string) : string :=
  String dquote (escape s ++ String dquote "")%string.

Definition comma_separated {A : Type} (f : A -> string) : list A -> string :=
  fix items (l : list A) : string :=
    match l with
    | [] => ""
    | x :: r =>
        match r with
        | [] => f x
        | _ :: _ => (f x ++ "," ++ items r)%string
        end
    end.

(** [JSON.stringify(v)] *)
Fixpoint JSON_stringify (v : json) : string :=
  match v with
  | JNull => "null"
  | JBool true => "true"
  | JBool false => "false"
  | JNum n => string_of_Z n
  | JStr s => quote s
  | JArr l => ("[" ++ comma_separated JSON_stringify l ++ "]")%string
  | JObj o =>
      ("{" ++
       comma_separated (fun kv => (quote (fst kv) ++ ":" ++ JSON_stringify (snd kv))%string) o
       ++ "}")%string
  end.

(** [[].concat(...value)]: the arrays among the elements are spliced in,
    one level. *)
Definition concat_one_level (l : list json) : list json :=
  flat_map (fun x => match x with JArr sub => sub | _ => [x] end) l.

(** The value [JSON.parse(JSON.stringify(v, replacer))] of the last-ditch
    pass: the replacer sees each array before its elements are
    serialised, and the elements of what it returned are visited next.
    For an array without array elements the splice changes nothing. *)
Fixpoint lastFix (v : json) : json :=
  match v with
  | JArr l => JArr (map_spliced lastFix l)
  | JObj o => JObj (map_values lastFix o)
  | _ => v
  end.

(** The five passes of [transform], in the order of the source. *)
Definition standardize (obj : json) : json :=
  let flattenedObj := flattenNestedArrays None obj in
  let flattenedObj := processDateFields flattenedObj in
  let flattenedObj := fixBigQueryIssues flattenedObj in
  let cleanedObj := cleanNullValues flattenedObj in
  replaceKeyDashes cleanedObj.

(** The record a line is turned into: the value whose serialisation is
    written.  [JSON.parse] of a string [JSON.stringify] produced gives the
    value back, so the two inner parses are not modelled. *)
Definition transform_record (obj : json) : json :=
  let standardizedObj := standardize obj in
  let jsonStr := JSON_stringify standardizedObj in
  if includes jsonStr "[[" then lastFix standardizedObj else standardizedObj.

(** *** The per-line transform stream *)

Inductive parse_result : Type :=
| Parsed (v : json)
| SyntaxError (message : string).

Record tstate : Type := mk_tstate {
  processedCount : nat;
  errorCount : nat;
  pushed : list string;    (* chunks given to [callback], oldest first *)
  debugLog : list string   (* writes to the debug log, oldest first *)
}.

Definition initial_tstate (inputPath : string) (debugMode : bool) : tstate :=
  mk_tstate 0 0 []
    (if debugMode then [("Debug log for " ++ inputPath ++ newline)%string] else []).

Definition string_of_nat (n : nat) : string := string_of_Z (Z.of_nat n).

(** The test of [yearValue] against a quote, one or more digits and a
    quote. *)
Definition quoted_digits (s : string) : bool :=
  match s with
  | String q r =>
      Ascii.eqb q dquote &&
      match string_rev r with
      | String q' d => Ascii.eqb q' dquote && all_digits d
      | EmptyString => false
      end
  | EmptyString => false
  end.

Definition problematic_year (yearValue : string) : bool :=
  includes yearValue "-" || includes yearValue "/" ||
  (startsWith yearValue (String dquote "") && negb (quoted_digits yearValue)).

Section Transform.

(** [JSON.parse], and [lineStr.matchAll(originalYearMatch)] as the list of
    the first capture group of every match.  Both belong to the JavaScript
    engine. *)
Variable JSON_parse : string -> parse_result.
Variable year_matches : string -> list string.

Definition year_debug_lines (n : nat) (lineStr result : string) : list string :=
  if includes lineStr (String dquote ("year" ++ String dquote ":"))%string then
    flat_map
      (fun yearValue =>
         if problematic_year yearValue then
           [("Line " ++ string_of_nat n ++ ": Found problematic year value: " ++ yearValue ++ newline)%string;
            ("Original: " ++ substring 0 200 lineStr ++ "..." ++ newline)%string;
            ("Processed: " ++ substring 0 200 result ++ "..." ++ newline ++ newline)%string]
         else [])
      (year_matches lineStr)
  else [].

(** The [transform(line, encoding, callback)] method of the stream.
    [JSON_parse lineStr] stands for how the [try] block goes up to the
    serialisation: [SyntaxError message] when it throws, which
    [JSON.parse] does on a line that is not JSON and a pass does (a
    [RangeError]) when the value is nested deeper than the stack allows;
    [Parsed obj] when the line decodes to [obj] and the passes run to
    their end on it. *)
Definition transform (debugMode : bool) (st : tstate) (line : string) : tstate :=
  let lineStr := trim line in
  if String.eqb lineStr "" then
    mk_tstate (processedCount st) (errorCount st) (pushed st ++ [""]) (debugLog st)
  else
    match JSON_parse lineStr with
    | SyntaxError message =>
        mk_tstate (processedCount st) (S (errorCount st)) (pushed st ++ [""])
          (debugLog st ++
           (if debugMode then
              [("ERROR at line " ++ string_of_nat (processedCount st + 1) ++ ": " ++ message ++ newline)%string;
               ("Line content: " ++ line ++ newline ++ newline)%string]
            else []))
    | Parsed obj =>
        let standardizedObj := standardize obj in
        let jsonStr := JSON_stringify standardizedObj in
        if includes jsonStr "[[" then
          let result := (JSON_stringify (lastFix standardizedObj) ++ newline)%string in
          mk_tstate (S (processedCount st)) (errorCount st) (pushed st ++ [result])
            (debugLog st ++
             (if debugMode then
                [("WARNING: Line " ++ string_of_nat (processedCount st) ++ " may still contain nested arrays" ++ newline)%string;
                 ("JSON: " ++ substring 0 500 jsonStr ++ "..." ++ newline ++ newline)%string;
                 ("After final fix: " ++ substring 0 500 result ++ "..." ++ newline ++ newline)%string]
              else []))
        else
          let result := (jsonStr ++ newline)%string in
          mk_tstate (S (processedCount st)) (errorCount st) (pushed st ++ [result])
            (debugLog st ++
             (if debugMode then year_debug_lines (processedCount st) lineStr result else []))
    end.

(** The lines [readline] delivers, written to the stream in order. *)
Definition run_lines (debugMode : bool) (st : tstate) (lines : list string) : tstate :=
  fold_left (transform debugMode) lines st.

(** The bytes handed to the compressor. *)
Definition written (st : tstate) : string :=
  fold_right String.append "" (pushed st).

(** The three kinds of line, and what one line contributes to the
    output, whatever the state of the stream. *)
Definition is_blank (line : string) : bool := String.eqb (trim line) "".

Definition is_record (line : string) : bool :=
  negb (is_blank line) &&
  match JSON_parse (trim line) with Parsed _ => true | SyntaxError _ => false end.

Definition is_malformed (line : string) : bool :=
  negb (is_blank line) &&
  match JSON_parse (trim line) with Parsed _ => false | SyntaxError _ => true end.

Definition emitted (line : string) : string :=
  if is_blank line then ""
  else
    match JSON_parse (trim line) with
    | Parsed obj => (JSON_stringify (transform_record obj) ++ newline)%string
    | SyntaxError _ => ""
    end.

Definition count (p : string -> bool) (lines : list string) : nat :=
  List.length (filter p lines).

Definition all_emitted (lines : list string) : string :=
  fold_right String.append "" (map emitted lines).

End Transform.

(** ** process-all.js *)

(** A promise: pending, or settled once. *)
Inductive promise (A : Type) : Type :=
| Pending
| Resolved (a : A)
| Rejected (err : string).
Arguments Pending {A}.
Arguments Resolved {A} a.
Arguments Rejected {A} err.

(** [resolve] and [reject] have an effect on a pending promise only. *)
Definition settle {A : Type} (p q : promise A) : promise A :=
  match p with
  | Pending => q
  | _ => p
  end.

(** *** validateGzipFile *)

(** What the read stream and the decompressor emit while the file is
    read: decompressed chunks, the end, or an error of either stream. *)
Inductive gz_event : Type :=
| GzData
| GzEnd
| GzReadError (message : string)
| GzGunzipError (message : string).

Record vstate : Type := mk_vstate {
  dataReceived : bool;
  destroyed : bool;
  validation : promise bool
}.

(** One event of [validateGzipFile] under [DEBUG_MODE = debug].  After
    [destroy()] the streams emit nothing more.  The decompressor has two
    error listeners; the first one registered rejects, the second finds
    the promise settled. *)
Definition validate_step (debug : bool) (st : vstate) (ev : gz_event) : vstate :=
  if destroyed st then st
  else
    match ev with
    | GzReadError m =>
        mk_vstate (dataReceived st) false
          (settle (validation st) (Rejected ("Failed to read file: " ++ m)%string))
    | GzGunzipError m =>
        mk_vstate (dataReceived st) false
          (settle (settle (validation st) (Rejected ("Invalid gzip file: " ++ m)%string))
                  (Rejected ("Error during validation: " ++ m)%string))
    | GzData =>
        if negb debug
        then mk_vstate true true (settle (validation st) (Resolved true))
        else mk_vstate true false (validation st)
    | GzEnd =>
        if negb (dataReceived st)
        then mk_vstate false false (settle (validation st) (Rejected "Empty gzip file"))
        else mk_vstate true false (settle (validation st) (Resolved true))
    end.

(** [validateGzipFile(filePath)] on a file that makes the streams emit
    [evs]. *)
Definition validateGzipFile (debug : bool) (evs : list gz_event) : promise bool :=
  validation (fold_left (validate_step debug) evs (mk_vstate false false Pending)).

(** *** getFilesToProcess *)

Definition is_hex_digit (a : ascii) : bool :=
  let n := nat_of_ascii a in
  is_digit a || ((65 <=? n)%nat && (n <=? 70)%nat) || ((97 <=? n)%nat && (n <=? 102)%nat).

Definition hex_val (a : ascii) : Z :=
  let n := nat_of_ascii a in
  if is_digit a then Z.of_nat (n - 48)
  else if (n <=? 70)%nat then Z.of_nat (n - 55)
  else Z.of_nat (n - 87).

Fixpoint read_hex (s : string) (seen : bool) (acc : Z) : bool * Z :=
  match s with
  | EmptyString => (seen, acc)
  | String a s' =>
      if is_hex_digit a then read_hex s' true (16 * acc + hex_val a)
      else (seen, acc)
  end.

(** [parseInt(s)] without a radix: base 16 after a [0x] prefix, base 10
    otherwise. *)
Definition parseInt_auto (s : string) : option Z :=
  let '(neg, s2) := split_sign (trimStart s) in
  let read :=
    match s2 with
    | String "0"%char (String "x"%char r) => read_hex r false 0
    | String "0"%char (String "X"%char r) => read_hex r false 0
    | _ => read_digits s2 false 0
    end in
  match read with
  | (true, n) => Some (if neg then (- n)%Z else n)
  | (false, _) => None
  end.

(** [parseInt(file.split('.')[0])] *)
Definition ordinal (file : string) : option Z :=
  parseInt_auto (split_head "."%char file).

(** The comparator of the sort; a [NaN] difference counts as zero. *)
Definition compare_ordinals (a b : string) : Z :=
  match ordinal a, ordinal b with
  | Some numA, Some numB => (numA - numB)%Z
  | _, _ => 0%Z
  end.

Fixpoint insert_sorted (cmp : string -> string -> Z) (x : string) (l : list string) : list string :=
  match l with
  | [] => [x]
  | y :: r => if (cmp x y <=? 0)%Z then x :: y :: r else y :: insert_sorted cmp x r
  end.

(** [Array.prototype.sort(cmp)], which is stable. *)
Definition sort_by (cmp : string -> string -> Z) (l : list string) : list string :=
  fold_right (insert_sorted cmp) [] l.

(** [path.basename(p)] for [/]-separated paths: the trailing slashes are
    dropped, and what follows the last slash left is returned. *)
Fixpoint drop_slashes (s : string) : string :=
  match s with
  | String a s' => if Ascii.eqb a "/"%char then drop_slashes s' else s
  | EmptyString => EmptyString
  end.

Definition basename (p : string) : string :=
  string_rev (split_head "/"%char (drop_slashes (string_rev p))).

Definition mem (x : string) (l : list string) : bool := existsb (String.eqb x) l.

(** The set [processedFiles] built from the listing of [OUTPUT_DIR]. *)
Definition processedFiles (outputDir : list string) : list string :=
  map (fun file => (split_head "_"%char file ++ ".jsonl.gz")%string)
      (filter (fun file => endsWith file "_processed.jsonl.gz") outputDir).

(** [fs.existsSync(path.join(INPUT_DIR, file))] for a name without a
    slash, [INPUT_DIR] being a directory with the listing [inputDir]: the
    listing has the name, or the name is empty or [.] (the directory
    itself) or [..] (its parent). *)
Definition exists_in (inputDir : list string) (file : string) : bool :=
  mem file inputDir || mem file [""; "."; ".."].

(** [getFilesToProcess()], as a function of the configuration constants
    and of the listings of [INPUT_DIR] and [OUTPUT_DIR]. *)
Definition getFilesToProcess (SPECIFIC_FILE : option string) (RESUME_MODE : bool)
    (inputDir outputDir : list string) : list string :=
  match SPECIFIC_FILE with
  | Some p =>
      let file := basename p in
      if exists_in inputDir file then [file] else []
  | None =>
      let allFiles :=
        sort_by compare_ordinals (filter (fun file => endsWith file ".jsonl.gz") inputDir) in
      if RESUME_MODE
      then filter (fun file => negb (mem file (processedFiles outputDir))) allFiles
      else allFiles
  end.

(** The indices [processNext] visits from [index]: [index],
    [index + CONCURRENT_JOBS], ... below [n]; [fuel] bounds the walk. *)
Fixpoint worker_indices (fuel jobs n index : nat) : list nat :=
  match fuel with
  | O => []
  | S fuel' =>
      if (n <=? index)%nat then []
      else index :: worker_indices fuel' jobs n (index + jobs)
  end.

(** The files [processFiles] calls [processFile] on, per worker, when no
    shutdown intervenes: one sequential worker, or [CONCURRENT_JOBS]
    workers striding through the list. *)
Definition dispatched (CONCURRENT_JOBS : nat) (files : list string) : list (list string) :=
  let n := List.length files in
  if (n =? 0)%nat then []
  else if (CONCURRENT_JOBS <=? 1)%nat || (n =? 1)%nat then [files]
  else
    map (fun i =>
           flat_map (fun j => match nth_error files j with Some f => [f] | None => [] end)
                    (worker_indices n CONCURRENT_JOBS n i))
        (seq 0 (Nat.min CONCURRENT_JOBS n)).

(** *** processJsonlFile and processFile as an event-driven machine *)

(** The streams [processJsonlFile] creates. *)
Inductive stream : Type :=
| FileRead          (* fs.createReadStream(inputPath) *)
| Gunzip            (* zlib.createGunzip(), for a .gz input *)
| Readline          (* rl *)
| TransformStream
| GzipStream
| FileWrite         (* fs.createWriteStream(outputPath) *)
| DebugLogStream.   (* fs.createWriteStream(debugPath), in debug mode *)

Definition stream_eqb (a b : stream) : bool :=
  match a, b with
  | FileRead, FileRead | Gunzip, Gunzip | Readline, Readline
  | TransformStream, TransformStream | GzipStream, GzipStream
  | FileWrite, FileWrite | DebugLogStream, DebugLogStream => true
  | _, _ => false
  end.

(** The stream bound to [inputStream]: [pipe] returns its destination. *)
Definition inputStream (inputPath : string) : stream :=
  if endsWith inputPath ".gz" then Gunzip else FileRead.

Definition stream_created (inputPath : string) (debugMode : bool) (s : stream) : bool :=
  match s with
  | Gunzip => endsWith inputPath ".gz"
  | DebugLogStream => debugMode
  | _ => true
  end.

Inductive error_listener : Type :=
| PipelineCallback   (* the callback of pipeline(transformStream, gzipStream, outputStream, ...) *)
| InputStreamError   (* inputStream.on('error', ...) *)
| ReadlineError.     (* rl.on('error', ...) *)

(** The error listener the source gives each stream, if any. *)
Definition listener_of (inputPath : string) (s : stream) : option error_listener :=
  match s with
  | TransformStream | GzipStream | FileWrite => Some PipelineCallback
  | Readline => Some ReadlineError
  | _ => if stream_eqb s (inputStream inputPath) then Some InputStreamError else None
  end.

Inductive event : Type :=
| Line (line : string)                 (* rl emits 'line' *)
| Close                                (* rl emits 'close' *)
| Finish                               (* the pipeline completes without error *)
| ErrorOn (s : stream) (err : string). (* stream [s] emits 'error' *)

Record fstate : Type := mk_fstate {
  counters : tstate;
  result : promise (nat * nat);   (* the promise processJsonlFile returns *)
  isFinished : bool;
  transformEnded : bool;
  outputExists : bool;            (* a file is at outputPath *)
  uncaught : bool                 (* an 'error' event found no listener *)
}.

Section FileMachine.

Variable JSON_parse : string -> parse_result.
Variable year_matches : string -> list string.
Variable inputPath : string.
Variable debugMode : bool.

(** The state once [processJsonlFile] has set everything up; opening the
    write stream created the output file. *)
Definition start : fstate :=
  mk_fstate (initial_tstate inputPath debugMode) Pending false false true false.

(** [cleanup()] *)
Definition cleanup (st : fstate) : fstate :=
  if isFinished st then st
  else mk_fstate (counters st) (result st) true true (outputExists st) (uncaught st).

Definition reject (err : string) (st : fstate) : fstate :=
  mk_fstate (counters st) (settle (result st) (Rejected err))
    (isFinished st) (transformEnded st) (outputExists st) (uncaught st).

(** [fs.unlinkSync(outputPath)], failure ignored. *)
Definition unlink_output (st : fstate) : fstate :=
  mk_fstate (counters st) (result st) (isFinished st) (transformEnded st) false (uncaught st).

Definition run_listener (l : error_listener) (err : string) (st : fstate) : fstate :=
  match l with
  | PipelineCallback => reject err (unlink_output (cleanup st))
  | InputStreamError => reject err (cleanup st)
  | ReadlineError => reject err (cleanup st)
  end.

(** One turn of the event loop.  An 'error' event on an emitter without
    an 'error' listener is thrown, and nothing in the program catches it:
    the process ends and no later event is handled.  Once the transform
    stream has ended, [rl] is closed and delivers no line. *)
Definition handle (st : fstate) (ev : event) : fstate :=
  if uncaught st then st
  else
    match ev with
    | Line line =>
        if transformEnded st then st
        else mk_fstate (transform JSON_parse year_matches debugMode (counters st) line)
               (result st) (isFinished st) (transformEnded st) (outputExists st) (uncaught st)
    | Close =>
        mk_fstate (counters st) (result st) (isFinished st) true (outputExists st) (uncaught st)
    | Finish =>
        mk_fstate (counters st)
          (settle (result st)
             (Resolved (processedCount (counters st), errorCount (counters st))))
          (isFinished st) (transformEnded st) (outputExists st) (uncaught st)
    | ErrorOn s err =>
        if stream_created inputPath debugMode s then
          match listener_of inputPath s with
          | Some l => run_listener l err st
          | None =>
              mk_fstate (counters st) (result st) (isFinished st) (transformEnded st)
                (outputExists st) true
          end
        else st
    end.

(** [processJsonlFile(inputPath, outputPath, {debugMode})] driven by the
    events [evs]. *)
Definition processJsonlFile (evs : list event) : fstate :=
  fold_left handle evs start.

End FileMachine.

Record job_result : Type := mk_job_result {
  success : bool;
  records : nat;
  errors : nat
}.

(** The name of the file at [outputPath]:
    [`${file.split('.')[0]}_processed.jsonl.gz`]. *)
Definition outputName (file : string) : string :=
  (split_head "."%char file ++ "_processed.jsonl.gz")%string.

(** [processFile(file)]: what it returns and whether a file is left at
    [outputPath], given the events of processing and those of the
    validation read, whatever they are; [processFile_own_artifact] below
    takes for them the ones the output of this call gives.  [None]: the
    process ended on an uncaught error, or a promise never settled.  The
    [catch] block removes the output when it exists, so none exists after
    it. *)
Definition processFile (JSON_parse : string -> parse_result)
    (year_matches : string -> list string) (DEBUG_MODE : bool)
    (inputPath : string) (evs : list event) (gz : list gz_event)
    : option (job_result * bool) :=
  let st := processJsonlFile JSON_parse year_matches inputPath DEBUG_MODE evs in
  if uncaught st then None
  else
    match result st with
    | Pending => None
    | Rejected _ => Some (mk_job_result false 0 0, false)
    | Resolved (processedCount, errorCount) =>
        match validateGzipFile DEBUG_MODE gz with
        | Pending => None
        | Rejected _ => Some (mk_job_result false 0 0, false)
        | Resolved _ => Some (mk_job_result true processedCount errorCount, outputExists st)
        end
    end.



(** *** ProgressBar and the counters of processFiles *)

Module ProgressBar.

Record stats_t : Type := mk_stats {
  successful : nat;
  failed : nat;
  totalRecords : nat;
  totalErrors : nat
}.

(** The fields the statistics depend on; the others serve the display. *)
Record t : Type := mk {
  current : nat;
  stats : stats_t
}.

(** The [stats] argument of [update]: [None] is a property left out. *)
Record arg : Type := mk_arg {
  arg_successful : option nat;
  arg_failed : option nat;
  arg_records : option nat;
  arg_errors : option nat
}.

(** [new ProgressBar(total)] *)
Definition create : t := mk 0 (mk_stats 0 0 0 0).

(** [update(current, stats)], up to the display, which is drawn after the
    statistics are changed and changes none. *)
Definition update (bar : t) (cur : nat) (a : arg) : t :=
  let s := stats bar in
  mk cur
    (mk_stats
       (match arg_successful a with Some n => n | None => successful s end)
       (match arg_failed a with Some n => n | None => failed s end)
       (match arg_records a with Some n => totalRecords s + n | None => totalRecords s end)
       (match arg_errors a with Some n => totalErrors s + n | None => totalErrors s end)).

End ProgressBar.

(** How a call of [processFile] that returns went. *)
Inductive job : Type :=
| JobRejected                                    (* processJsonlFile rejected *)
| JobInvalid (processedCount errorCount : nat)   (* it resolved, validateGzipFile rejected *)
| JobValid (processedCount errorCount : nat).    (* both resolved *)

Definition job_of (processed : promise (nat * nat)) (validated : promise bool) : option job :=
  match processed with
  | Pending => None
  | Rejected _ => Some JobRejected
  | Resolved (processedCount, errorCount) =>
      match validated with
      | Pending => None
      | Rejected _ => Some (JobInvalid processedCount errorCount)
      | Resolved _ => Some (JobValid processedCount errorCount)
      end
  end.

(** What [processFile] returns. *)
Definition job_result_of (j : job) : job_result :=
  match j with
  | JobValid processedCount errorCount => mk_job_result true processedCount errorCount
  | _ => mk_job_result false 0 0
  end.

(** The call of [progressBar.update] inside [processFile]: it is made
    when [processJsonlFile] has resolved, before the output is
    validated. *)
Definition processFile_update (bar : ProgressBar.t) (j : job) : ProgressBar.t :=
  match j with
  | JobRejected => bar
  | JobInvalid processedCount errorCount | JobValid processedCount errorCount =>
      ProgressBar.update bar (ProgressBar.current bar)
        (ProgressBar.mk_arg None None (Some processedCount) (Some errorCount))
  end.

(** One turn of the sequential loop of [processFiles], for the file of
    index [i]. *)
Definition sequential_turn (bar : ProgressBar.t) (ij : nat * job) : ProgressBar.t :=
  let (i, j) := ij in
  let bar := processFile_update bar j in
  let result := job_result_of j in
  let s := ProgressBar.stats bar in
  ProgressBar.update bar (i + 1)
    (ProgressBar.mk_arg
       (Some (if success result then ProgressBar.successful s + 1
              else ProgressBar.successful s))
       (Some (if negb (success result) then ProgressBar.failed s + 1
              else ProgressBar.failed s))
       None None).

(** The progress bar after the sequential loop, no shutdown
    intervening. *)
Definition processFiles_sequential (jobs : list job) : ProgressBar.t :=
  fold_left sequential_turn (combine (seq 0 (List.length jobs)) jobs) ProgressBar.create.

(** [completionTracker] *)
Module CompletionTracker.

Record t : Type := mk {
  completed : nat;
  successful : nat;
  failed : nat;
  totalRecords : nat;
  totalErrors : nat
}.

Definition create : t := mk 0 0 0 0 0.

End CompletionTracker.

(** With concurrent workers two things happen to the shared counters for
    a job, and the jobs of different workers interleave: [processFile]
    reports the counts of [processJsonlFile], and later [processNext]
    takes what [processFile] returned. *)
Inductive job_event : Type :=
| ReportsCounts (processedCount errorCount : nat)
| Returns (result : job_result).

Definition job_events (j : job) : list job_event :=
  match j with
  | JobRejected => [Returns (job_result_of j)]
  | JobInvalid processedCount errorCount | JobValid processedCount errorCount =>
      [ReportsCounts processedCount errorCount; Returns (job_result_of j)]
  end.

Definition concurrent_turn (st : CompletionTracker.t * ProgressBar.t) (ev : job_event)
    : CompletionTracker.t * ProgressBar.t :=
  let (tracker, bar) := st in
  match ev with
  | ReportsCounts processedCount errorCount =>
      (tracker,
       ProgressBar.update bar (ProgressBar.current bar)
         (ProgressBar.mk_arg None None (Some processedCount) (Some errorCount)))
  | Returns result =>
      let tracker :=
        CompletionTracker.mk
          (CompletionTracker.completed tracker + 1)
          (if success result then CompletionTracker.successful tracker + 1
           else CompletionTracker.successful tracker)
          (if success result then CompletionTracker.failed tracker
           else CompletionTracker.failed tracker + 1)
          (CompletionTracker.totalRecords tracker + records result)
          (CompletionTracker.totalErrors tracker + errors result) in
      (tracker,
       ProgressBar.update bar (CompletionTracker.completed tracker)
         (ProgressBar.mk_arg (Some (CompletionTracker.successful tracker))
            (Some (CompletionTracker.failed tracker)) None None))
  end.

(** The counters after the events [evs]. *)
Definition processFiles_concurrent (evs : list job_event)
    : CompletionTracker.t * ProgressBar.t :=
  fold_left concurrent_turn evs (CompletionTracker.create, ProgressBar.create).

(** [evs] is an interleaving of the sequences [ls]: each sequence is
    consumed in its own order. *)
Inductive interleaved {A : Type} : list (list A) -> list A -> Prop :=
| interleaved_done (ls : list (list A)) :
    Forall (fun l => l = []) ls -> interleaved ls []
| interleaved_next (pre post : list (list A)) (x : A) (l evs : list A) :
    interleaved (pre ++ l :: post) evs ->
    interleaved (pre ++ (x :: l) :: post) (x :: evs).

(** ** generate-schema.js *)

Definition push_char (a : ascii) (lines : list string) : list string :=
  match lines with
  | first :: rest => String a first :: rest
  | [] => [String a ""]
  end.

(** [s.split('\n')], which is never empty. *)
Fixpoint split_lines (s : string) : list string :=
  match s with
  | EmptyString => [""]
  | String a s' =>
      if (nat_of_ascii a =? 10)%nat then "" :: split_lines s'
      else push_char a (split_lines s')
  end.

(** What [processGzipFile] keeps between two events: the partial line,
    the bytes written to the output so far, and the count. *)
Record gunzip_state : Type := mk_gunzip_state {
  buffer : string;
  outputWritten : string;
  linesProcessed : nat
}.

Section GenerateSchema.

Variable JSON_parse : string -> parse_result.

(** [processLine(line)]: the line itself when it is not blank and
    [JSON.parse] accepts it; [None] is [null]. *)
Definition processLine (line : string) : option string :=
  if negb (String.eqb (trim line) "") then
    match JSON_parse line with
    | Parsed _ => Some line
    | SyntaxError _ => None
    end
  else None.

(** One line of either listener: written with a line feed and counted
    when [processLine] returns it.  A line [processLine] returns is not
    empty, so it passes [if (processedLine)]. *)
Definition write_line (st : gunzip_state) (line : string) : gunzip_state :=
  match processLine line with
  | Some processedLine =>
      mk_gunzip_state (buffer st) (outputWritten st ++ processedLine ++ newline)%string
        (linesProcessed st + 1)
  | None => st
  end.

(** The [data] listener of the decompressor; [data] is the string
    [data.toString()]. *)
Definition on_data (st : gunzip_state) (data : string) : gunzip_state :=
  let lines := split_lines (buffer st ++ data) in
  fold_left write_line (removelast lines)
    (mk_gunzip_state (last lines "") (outputWritten st) (linesProcessed st)).

(** The [end] listener. *)
Definition on_end (st : gunzip_state) : gunzip_state :=
  if negb (String.eqb (buffer st) "") then write_line st (buffer st) else st.

(** [processGzipFile(inputFile, outputFile)] on a file that decompresses
    without error into the chunks [chunks]: what is written to the
    output file and the count the promise resolves with. *)
Definition processGzipFile (chunks : list string) : string * nat :=
  let st := on_end (fold_left on_data chunks (mk_gunzip_state "" "" 0)) in
  (outputWritten st, linesProcessed st).

(** The lines [processLine] returns. *)
Definition valid_lines (lines : list string) : list string :=
  filter (fun line => match processLine line with Some _ => true | None => false end) lines.

End GenerateSchema.

(** How the turn of the loop of [main] for one file went:
    [processGzipFile] resolved with a count or rejected ([None]); and,
    when the schema update was tried, the schema was written, by
    [generateSchema] or by [fixIncompatibleSchema], or it was not. *)
Record file_turn : Type := mk_file_turn {
  gunzipped : option nat;
  schemaWritten : bool
}.

Record main_state : Type := mk_main_state {
  totalLinesProcessed : nat;
  lastSuccessfulFile : Z
}.

(** The body of the loop of [main] for the file of index [i]. *)
Definition main_turn (st : main_state) (it : nat * file_turn) : main_state :=
  let (i, turn) := it in
  match gunzipped turn with
  | None => st
  | Some n =>
      let total := (totalLinesProcessed st + n)%nat in
      if (n <? 10)%nat then mk_main_state total (lastSuccessfulFile st)
      else if schemaWritten turn then mk_main_state total (Z.of_nat i)
      else mk_main_state total (lastSuccessfulFile st)
  end.

Definition main_loop (turns : list file_turn) : main_state :=
  fold_left main_turn (combine (seq 0 (List.length turns)) turns) (mk_main_state 0 (-1)).

(** The number in [Successfully processed ... of ... file(s)]. *)
Definition reported_files (turns : list file_turn) : Z :=
  (lastSuccessfulFile (main_loop turns) + 1)%Z.

(** Whether [Some files were skipped due to errors] is printed. *)
Definition warns_of_skipped (turns : list file_turn) : bool :=
  (lastSuccessfulFile (main_loop turns) <? Z.of_nat (List.length turns) - 1)%Z.

(** ** Notions used in the statements *)

(** No key of [v], at any depth, is one of the keys [bad]. *)
Fixpoint no_key (bad : string -> bool) (v : json) : bool :=
  match v with
  | JArr l => forallb (no_key bad) l
  | JObj o => forallb (fun kv => negb (bad (fst kv)) && no_key bad (snd kv)) o
  | _ => true
  end.

(** No key of [v] is [__proto__]. *)
Definition own_proto_free (v : json) : bool :=
  no_key (fun key => String.eqb key "__proto__") v.

(** No key of [v] is [__proto__] once its hyphens are underscores, as
    [__proto__] itself and [--proto--] are. *)
Definition proto_free (v : json) : bool :=
  no_key (fun key => String.eqb (replace_dashes key) "__proto__") v.

(** An integer a double holds exactly. *)
Definition safe_integer (n : Z) : bool := (Z.abs n <? 2 ^ 53)%Z.

(** Every number of [v] is such an integer, and so is the number
    [parseInt] reads from any string of [v]. *)
Fixpoint safe_numbers (v : json) : bool :=
  match v with
  | JNum n => safe_integer n
  | JStr s => match parseInt_string s with Some n => safe_integer n | None => true end
  | JArr l => forallb safe_numbers l
  | JObj o => forallb (fun kv => safe_numbers (snd kv)) o
  | _ => true
  end.

(** The decimal digit [n], and the numerals of two and of four digits,
    written out position by position. *)
Definition digit_char (n : Z) : ascii := ascii_of_nat (48 + Z.to_nat n).

Definition two_digits (n : Z) : string :=
  String (digit_char (n / 10)) (String (digit_char (n mod 10)) "").

Definition four_digits (n : Z) : string :=
  String (digit_char (n / 1000)) (String (digit_char (n / 100 mod 10)) (two_digits (n mod 100))).

(** The seven date fields of the Crossref schema, by name. *)
Definition crossref_date_fields : list string :=
  ["published"; "created"; "deposited"; "indexed"; "issued";
   "published-online"; "published-print"].


(** [P] holds of the [count] integers from [z] on. *)
Fixpoint holds_from (P : Z -> bool) (count : nat) (z : Z) : bool :=
  match count with
  | O => true
  | S count' => P z && holds_from P count' (z + 1)
  end.


(** The turn wrote the schema. *)
Definition updates_schema (turn : file_turn) : bool :=
  match gunzipped turn with
  | Some n => negb (n <? 10)%nat && schemaWritten turn
  | None => false
  end.


(** The lines of [lines], each followed by a line feed. *)
Definition terminated (lines : list string) : string :=
  fold_right (fun line rest => (line ++ newline ++ rest)%string) "" lines.


Definition is_valid (j : job) : bool :=
  match j with JobValid _ _ => true | _ => false end.

(** The counts [processJsonlFile] resolved with, if it did. *)
Definition reported_records (j : job) : nat :=
  match j with
  | JobRejected => 0
  | JobInvalid processedCount _ | JobValid processedCount _ => processedCount
  end.

Definition reported_errors (j : job) : nat :=
  match j with
  | JobRejected => 0
  | JobInvalid _ errorCount | JobValid _ errorCount => errorCount
  end.

(** The records of a job whose output was found invalid and removed. *)
Definition removed_records (j : job) : nat :=
  match j with JobInvalid processedCount _ => processedCount | _ => 0 end.

(** The statistics the jobs add up to. *)
Definition summary (jobs : list job) : ProgressBar.stats_t :=
  ProgressBar.mk_stats
    (List.length (filter is_valid jobs))
    (List.length (filter (fun j => negb (is_valid j)) jobs))
    (list_sum (map reported_records jobs))
    (list_sum (map reported_errors jobs)).

(** What an event adds to a counter: [f] of the counts it reports, or
    [g] of the result it returns. *)
Definition reported (f : nat -> nat -> nat) (ev : job_event) : nat :=
  match ev with ReportsCounts processedCount errorCount => f processedCount errorCount | _ => 0 end.

Definition returned (g : job_result -> nat) (ev : job_event) : nat :=
  match ev with Returns result => g result | _ => 0 end.

Definition one_if (b : bool) : nat := if b then 1 else 0.

(** What a validation that reads the whole stream settles to, given
    whether a chunk was received already: the closed form of
    [validateGzipFile] in debug mode. *)
Fixpoint validate_whole (received : bool) (evs : list gz_event) : promise bool :=
  match evs with
  | [] => Pending
  | GzData :: r => validate_whole true r
  | GzEnd :: _ => if received then Resolved true else Rejected "Empty gzip file"
  | GzReadError m :: _ => Rejected ("Failed to read file: " ++ m)%string
  | GzGunzipError m :: _ => Rejected ("Invalid gzip file: " ++ m)%string
  end.

(** A stand-in for [JSON.parse] that knows the empty object only, to
    instantiate statements about lines at concrete lines. *)
Definition parse_empty_object (s : string) : parse_result :=
  if String.eqb s "{}" then Parsed (JObj []) else SyntaxError "Unexpected token".


(** An object property survives [cleanNullValues] when its value is not
    null or its key cannot be null. *)
Definition survives_cleaning (kv : string * json) : bool :=
  negb (is_null (snd kv)) || cannot_be_null (fst kv).

(** A property whose key is not [__proto__], so that an assignment under
    its key adds a property. *)
Definition own_key (kv : string * json) : bool :=
  negb (String.eqb (fst kv) "__proto__").

Definition cleaned (kv : string * json) : string * json :=
  (fst kv, match snd kv with JNull => JStr "" | value => cleanNullValues value end).

(** No array element and no property value of [v], at any depth, is
    null. *)
Fixpoint null_free (v : json) : bool :=
  match v with
  | JArr l => forallb (fun x => negb (is_null x) && null_free x) l
  | JObj o => forallb (fun kv => negb (is_null (snd kv)) && null_free (snd kv)) o
  | _ => true
  end.

(** A value that may stand in a cleaned array or object. *)
Definition clean_value (v : json) : Prop :=
  is_null v = false /\ null_free v = true.

(** The date-part encodings the specification lists, with the year
    element and the month and day elements when present: [[Y]], [[Y,M]],
    [[Y,M,D]] and the unwrapped [Y,M,D]. *)
Inductive date_parts_input : json -> json -> option json -> option json -> Prop :=
| dp_year (Y : json) :
    date_parts_input (JArr [JArr [Y]]) Y None None
| dp_year_month (Y M : json) :
    date_parts_input (JArr [JArr [Y; M]]) Y (Some M) None
| dp_year_month_day (Y M D : json) :
    date_parts_input (JArr [JArr [Y; M; D]]) Y (Some M) (Some D)
| dp_unwrapped (Y M D : json) :
    date_parts_input (JArr [Y; M; D]) Y (Some M) (Some D).

(** What a date-bearing place holds after the conversion of date parts
    with year element [Y]: the ISO string, or nothing when the year does
    not parse. *)
Definition converted_date (Y : json) (M D : option json) : option json :=
  match parseInt (Some Y) with
  | Some yearNum => Some (JStr (iso_date yearNum (parseInt M) (parseInt D)))
  | None => None
  end.

(** Every property value of [o] is less than [d] deep. *)
Definition values_below (d : nat) (o : obj) : Prop :=
  Forall (fun kv => (depth (snd kv) < d)%nat) o.

Definition is_string (v : json) : bool :=
  match v with JStr _ => true | _ => false end.

(** No object of [v], at any depth, has a [year] property whose value is
    a string. *)
Fixpoint year_never_string (v : json) : bool :=
  match v with
  | JArr l => forallb year_never_string l
  | JObj o =>
      match obj_get "year" o with
      | Some (JStr _) => false
      | _ => true
      end && forallb (fun kv => year_never_string (snd kv)) o
  | _ => true
  end.

(** Some array of [v], at any depth, has an array among its elements. *)
Fixpoint has_nested_array (v : json) : bool :=
  match v with
  | JArr l => existsb is_array l || existsb has_nested_array l
  | JObj o => existsb (fun kv => has_nested_array (snd kv)) o
  | _ => false
  end.

(** File [a] does not come after file [b] in numeric order. *)
Definition ordinal_le (a b : string) : Prop :=
  match ordinal a, ordinal b with
  | Some numA, Some numB => (numA <= numB)%Z
  | _, _ => False
  end.

(** The arrays of [v] nest at most two deep: an array that is an element
    of an array has no array among its own elements. *)
Fixpoint at_most_doubly_nested (v : json) : bool :=
  match v with
  | JArr l =>
      forallb (fun x => match x with
                        | JArr sub => negb (existsb is_array sub)
                        | _ => true
                        end) l
      && forallb at_most_doubly_nested l
  | JObj o => forallb (fun kv => at_most_doubly_nested (snd kv)) o
  | _ => true
  end.

(** Every nested array of [v] lies inside the value of a [date-parts]
    property, which is where the flattening pass leaves them. *)
Fixpoint nested_under_date_parts_only (v : json) : bool :=
  match v with
  | JArr l => negb (existsb is_array l) && forallb nested_under_date_parts_only l
  | JObj o =>
      forallb (fun kv => String.eqb (fst kv) "date-parts"
                         || nested_under_date_parts_only (snd kv)) o
  | _ => true
  end.

(** No key of [v], at any depth, contains a hyphen. *)
Fixpoint hyphen_free (v : json) : bool :=
  match v with
  | JArr l => forallb hyphen_free l
  | JObj o => forallb (fun kv => negb (includes (fst kv) "-") && hyphen_free (snd kv)) o
  | _ => true
  end.

(** The number a sequence of decimal digits denotes, read left to right
    into [acc]. *)
Fixpoint uint_value (d : Decimal.uint) (acc : Z) : Z :=
  match d with
  | Decimal.Nil => acc
  | Decimal.D0 l => uint_value l (10 * acc)
  | Decimal.D1 l => uint_value l (10 * acc + 1)
  | Decimal.D2 l => uint_value l (10 * acc + 2)
  | Decimal.D3 l => uint_value l (10 * acc + 3)
  | Decimal.D4 l => uint_value l (10 * acc + 4)
  | Decimal.D5 l => uint_value l (10 * acc + 5)
  | Decimal.D6 l => uint_value l (10 * acc + 6)
  | Decimal.D7 l => uint_value l (10 * acc + 7)
  | Decimal.D8 l => uint_value l (10 * acc + 8)
  | Decimal.D9 l => uint_value l (10 * acc + 9)
  end.

(** The number of line feeds in [s]. *)
Fixpoint line_feeds (s : string) : nat :=
  match s with
  | EmptyString => 0
  | String a s' => ((if (nat_of_ascii a =? 10)%nat then 1 else 0) + line_feeds s')%nat
  end.

(** No object of [v], at any depth, has a [date-parts] property. *)
Fixpoint no_date_parts (v : json) : bool :=
  match v with
  | JArr l => forallb no_date_parts l
  | JObj o =>
      forallb (fun kv => negb (String.eqb (fst kv) "date-parts") && no_date_parts (snd kv)) o
  | _ => true
  end.

(** A property as [replaceKeyDashes] rewrites it. *)
Definition renamed (kv : string * json) : string * json :=
  (replace_dashes (fst kv), replaceKeyDashes (snd kv)).

(** A stem without a dot and without an underscore. *)
Definition plain_stem (stem : string) : bool :=
  all_chars (fun a => negb (Ascii.eqb a "."%char) && negb (Ascii.eqb a "_"%char)) stem.


(** * Properties *)

(** ** Strings *)

Lemma string_eqb_refl (s : string) : String.eqb s s = true.
Proof. apply String.eqb_eq. reflexivity. Qed.

Lemma mem_In (x : string) (l : list string) : mem x l = true <-> In x l.
Proof.
  unfold mem. rewrite existsb_exists. split.
  - intros [y [Hin Heq]]. apply String.eqb_eq in Heq. now subst.
  - intros Hin. exists x. split; [assumption | apply string_eqb_refl].
Qed.

Lemma mem_false_In (x : string) (l : list string) : mem x l = false <-> ~ In x l.
Proof.
  rewrite <- mem_In. destruct (mem x l); split; intros; congruence.
Qed.

Lemma distinct_NoDup (l : list string) : distinct l = true <-> NoDup l.
Proof.
  induction l as [|k r IH]; simpl.
  - split; [constructor | reflexivity].
  - rewrite andb_true_iff, negb_true_iff, IH.
    change (existsb (String.eqb k) r) with (mem k r). rewrite mem_false_In.
    split.
    + intros [Hk Hr]. now constructor.
    + intros H. inversion H. now split.
Qed.

(** ** Property lists *)

Section PropertyLists.

Lemma obj_get_set_same k v o : obj_get k (obj_set k v o) = Some v.
Proof.
  induction o as [|[k' v'] r IH]; simpl.
  - now rewrite string_eqb_refl.
  - destruct (String.eqb k' k) eqn:E; simpl.
    + now rewrite string_eqb_refl.
    + now rewrite E.
Qed.

Lemma obj_get_set_other k k' v o :
  k <> k' -> obj_get k' (obj_set k v o) = obj_get k' o.
Proof.
  intros Hne. induction o as [|[k0 v0] r IH]; simpl.
  - destruct (String.eqb k k') eqn:E; [apply String.eqb_eq in E; contradiction | reflexivity].
  - destruct (String.eqb k0 k) eqn:E; simpl.
    + apply String.eqb_eq in E. subst k0.
      destruct (String.eqb k k') eqn:E'; [apply String.eqb_eq in E'; contradiction | reflexivity].
    + now rewrite IH.
Qed.

Lemma obj_get_delete_same k o : obj_get k (obj_delete k o) = None.
Proof.
  induction o as [|[k0 v0] r IH]; simpl; [reflexivity|].
  destruct (String.eqb k0 k) eqn:E; simpl; [assumption | now rewrite E].
Qed.

Lemma obj_get_delete_other k k' o :
  k <> k' -> obj_get k' (obj_delete k o) = obj_get k' o.
Proof.
  intros Hne. induction o as [|[k0 v0] r IH]; simpl; [reflexivity|].
  destruct (String.eqb k0 k) eqn:E; simpl.
  - apply String.eqb_eq in E. subst k0.
    destruct (String.eqb k k') eqn:E'; [apply String.eqb_eq in E'; contradiction | assumption].
  - now rewrite IH.
Qed.

Lemma obj_get_None_keys k o : obj_get k o = None <-> ~ In k (keys o).
Proof.
  induction o as [|[k0 v0] r IH]; simpl.
  - tauto.
  - destruct (String.eqb k0 k) eqn:E.
    + apply String.eqb_eq in E. subst. split; [discriminate | intros H; exfalso; auto].
    + apply String.eqb_neq in E. rewrite IH. tauto.
Qed.

Lemma obj_get_In k v o : obj_get k o = Some v -> In (k, v) o.
Proof.
  induction o as [|[k0 v0] r IH]; simpl; [discriminate|].
  destruct (String.eqb k0 k) eqn:E.
  - apply String.eqb_eq in E. intros [= ->]. subst. now left.
  - intros H. right. auto.
Qed.

Lemma In_obj_get k v o : NoDup (keys o) -> In (k, v) o -> obj_get k o = Some v.
Proof.
  induction o as [|[k0 v0] r IH]; simpl; [tauto|].
  intros Hnd [Heq | Hin].
  - injection Heq as -> ->. now rewrite string_eqb_refl.
  - inversion Hnd as [|? ? Hk Hr]; subst.
    destruct (String.eqb k0 k) eqn:E.
    + apply String.eqb_eq in E. subst. exfalso. apply Hk.
      change k with (fst (k, v)). now apply in_map.
    + auto.
Qed.

(** Writing a property the object does not have appends it. *)
Lemma obj_set_fresh k v o : ~ In k (keys o) -> obj_set k v o = o ++ [(k, v)].
Proof.
  induction o as [|[k0 v0] r IH]; simpl; [reflexivity|].
  intros Hn. destruct (String.eqb k0 k) eqn:E.
  - apply String.eqb_eq in E. subst. exfalso. auto.
  - rewrite IH; [reflexivity | tauto].
Qed.

Lemma keys_obj_set_present k v o : In k (keys o) -> keys (obj_set k v o) = keys o.
Proof.
  induction o as [|[k0 v0] r IH]; simpl; [tauto|].
  intros Hin. destruct (String.eqb k0 k) eqn:E; simpl.
  - apply String.eqb_eq in E. now subst.
  - f_equal. apply IH. destruct Hin as [->|]; [|assumption].
    rewrite string_eqb_refl in E. discriminate.
Qed.

Lemma keys_obj_set k v o :
  keys (obj_set k v o) = if mem k (keys o) then keys o else keys o ++ [k].
Proof.
  destruct (mem k (keys o)) eqn:E.
  - apply keys_obj_set_present. now apply mem_In.
  - apply mem_false_In in E. rewrite obj_set_fresh by assumption.
    unfold keys. now rewrite map_app.
Qed.

Lemma NoDup_snoc (k : string) (l : list string) :
  NoDup l -> ~ In k l -> NoDup (l ++ [k]).
Proof.
  intros Hl Hk. induction Hl as [|x l Hx Hl IH]; simpl.
  - constructor; [tauto | constructor].
  - constructor.
    + rewrite in_app_iff. simpl. intros [H | [H | []]]; [auto | subst; apply Hk; now left].
    + apply IH. intros H. apply Hk. now right.
Qed.

Lemma NoDup_keys_obj_set k v o : NoDup (keys o) -> NoDup (keys (obj_set k v o)).
Proof.
  intros Hnd. rewrite keys_obj_set. destruct (mem k (keys o)) eqn:E; [assumption|].
  apply NoDup_snoc; [assumption | now apply mem_false_In].
Qed.

Lemma In_keys_obj_delete k k' o : In k' (keys (obj_delete k o)) -> In k' (keys o).
Proof.
  induction o as [|[k0 v0] r IH]; simpl; [tauto|].
  destruct (String.eqb k0 k); simpl; intuition.
Qed.

Lemma NoDup_keys_obj_delete k o : NoDup (keys o) -> NoDup (keys (obj_delete k o)).
Proof.
  induction o as [|[k0 v0] r IH]; simpl; [trivial|].
  intros Hnd. inversion Hnd as [|? ? Hk Hr]; subst.
  destruct (String.eqb k0 k); simpl; [auto|].
  constructor; [|auto]. intros H. apply Hk. eapply In_keys_obj_delete. eassumption.
Qed.

Lemma obj_delete_absent k o : ~ In k (keys o) -> obj_delete k o = o.
Proof.
  induction o as [|[k0 v0] r IH]; simpl; [reflexivity|].
  intros Hn. destruct (String.eqb k0 k) eqn:E.
  - apply String.eqb_eq in E. subst. exfalso. auto.
  - f_equal. apply IH. tauto.
Qed.

Lemma keys_map_values f o : keys (map_values f o) = keys o.
Proof. unfold keys, map_values. rewrite map_map. reflexivity. Qed.

Lemma obj_get_map_values f k o :
  obj_get k (map_values f o) = option_map f (obj_get k o).
Proof.
  induction o as [|[k0 v0] r IH]; simpl; [reflexivity|].
  destruct (String.eqb k0 k); [reflexivity | assumption].
Qed.

(** Building an object by assigning the properties of a list with
    distinct keys, in order, gives that list. *)
Lemma fold_obj_set_fresh (f : string * json -> string * json) (o acc : obj) :
  (forall kv, fst (f kv) = fst kv) ->
  NoDup (keys acc ++ keys o) ->
  fold_left (fun result kv => obj_set (fst (f kv)) (snd (f kv)) result) o acc
  = acc ++ map f o.
Proof.
  intros Hf. revert acc. induction o as [|kv r IH]; intros acc Hnd; simpl.
  - now rewrite app_nil_r.
  - rewrite IH.
    + rewrite obj_set_fresh.
      * rewrite <- app_assoc. simpl. now destruct (f kv).
      * rewrite Hf. apply NoDup_remove_2 in Hnd. intros H. apply Hnd.
        apply in_or_app. now left.
    + rewrite obj_set_fresh.
      * unfold keys at 1. rewrite map_app. simpl. rewrite Hf.
        rewrite <- app_assoc. exact Hnd.
      * rewrite Hf. apply NoDup_remove_2 in Hnd. intros H. apply Hnd.
        apply in_or_app. now left.
Qed.

End PropertyLists.


(** ** Well-formed values *)

Lemma wf_arr (l : list json) : wf (JArr l) <-> Forall wf l.
Proof. unfold wf. simpl. rewrite forallb_forall, Forall_forall. reflexivity. Qed.

Lemma wf_obj (o : obj) :
  wf (JObj o) <-> NoDup (keys o) /\ Forall (fun kv => wf (snd kv)) o.
Proof.
  unfold wf. simpl. rewrite andb_true_iff, distinct_NoDup, forallb_forall, Forall_forall.
  reflexivity.
Qed.

Lemma NoDup_keys_filter (p : string * json -> bool) (o : obj) :
  NoDup (keys o) -> NoDup (keys (filter p o)).
Proof.
  induction o as [|kv r IH]; simpl; [trivial|].
  intros Hnd. inversion Hnd as [|? ? Hk Hr]; subst.
  destruct (p kv); simpl; [|auto].
  constructor; [|auto]. intros Hin. apply Hk.
  unfold keys in *. rewrite in_map_iff in *.
  destruct Hin as [x [Hx Hin]]. exists x. split; [assumption|].
  apply filter_In in Hin. tauto.
Qed.

(** ** cleanNullValues *)

(** ** Assignments under a computed key *)

Lemma assign_own (key : string) (value : json) (result : obj) :
  String.eqb key "__proto__" = false -> assign key value result = obj_set key value result.
Proof. intros H. unfold assign. now rewrite H. Qed.

Lemma assign_cases (key : string) (value : json) (result : obj) :
  assign key value result = result \/ assign key value result = obj_set key value result.
Proof. unfold assign. destruct (String.eqb key "__proto__"); [now left | now right]. Qed.

(** A step of a copying loop either leaves the object built so far or
    sets a property of it; what is left to show is the fact about the
    property set. *)
Ltac assigned :=
  match goal with
  | |- assign ?k ?v ?acc = _ \/ _ =>
      let E := fresh "E" in
      destruct (assign_cases k v acc) as [E|E]; rewrite E;
      [now left | right; exists k, v; split; [reflexivity|]]
  end.

Lemma no_key_obj (bad : string -> bool) (o : obj) :
  no_key bad (JObj o) = true ->
  Forall (fun kv => bad (fst kv) = false /\ no_key bad (snd kv) = true) o.
Proof.
  cbn [no_key]. intros H. apply Forall_forall. intros kv Hin.
  rewrite forallb_forall in H. specialize (H kv Hin).
  apply andb_true_iff in H. destruct H as [H1 H2].
  apply negb_true_iff in H1. now split.
Qed.

Lemma no_key_arr (bad : string -> bool) (l : list json) :
  no_key bad (JArr l) = true -> Forall (fun x => no_key bad x = true) l.
Proof. cbn [no_key]. intros H. apply Forall_forall. now apply forallb_forall. Qed.

Lemma own_keys (o : obj) :
  own_proto_free (JObj o) = true ->
  Forall (fun kv => String.eqb (fst kv) "__proto__" = false) o.
Proof.
  intros H. apply no_key_obj in H. eapply Forall_impl; [|exact H].
  intros kv [Hk _]. exact Hk.
Qed.

Section CleanNullValues.

Lemma map_non_null_filter (f : json -> json) (l : list json) :
  map_non_null f l = map f (filter (fun x => negb (is_null x)) l).
Proof.
  induction l as [|x r IH]; [reflexivity|].
  destruct x; simpl; rewrite IH; reflexivity.
Qed.

Lemma cleanNullValues_arr (l : list json) :
  cleanNullValues (JArr l)
  = JArr (map cleanNullValues (filter (fun x => negb (is_null x)) l)).
Proof. simpl. now rewrite map_non_null_filter. Qed.

(** The loop assigns the surviving properties whose key is not
    [__proto__], in order. *)
Lemma clean_fold_survivors (o acc : obj) :
  fold_left (clean_property cleanNullValues) o acc
  = fold_left (fun result kv => obj_set (fst (cleaned kv)) (snd (cleaned kv)) result)
              (filter (fun kv => own_key kv && survives_cleaning kv) o) acc.
Proof.
  revert acc. induction o as [|[key value] r IH]; intros acc; [reflexivity|].
  cbn [fold_left filter]. rewrite IH.
  unfold survives_cleaning at 2, own_key at 2, clean_property at 1, assign.
  cbn [fst snd].
  destruct (String.eqb key "__proto__"); cbn [negb andb].
  - destruct value; try reflexivity. destruct (cannot_be_null key); reflexivity.
  - destruct value; cbn [is_null negb orb fold_left cleaned fst snd]; try reflexivity.
    destruct (cannot_be_null key); reflexivity.
Qed.

Lemma cleanNullValues_own (o : obj) :
  NoDup (keys o) ->
  cleanNullValues (JObj o)
  = JObj (map cleaned (filter (fun kv => own_key kv && survives_cleaning kv) o)).
Proof.
  intros Hnd. cbn [cleanNullValues]. rewrite clean_fold_survivors.
  rewrite fold_obj_set_fresh; [reflexivity | intros kv; reflexivity |].
  simpl. now apply NoDup_keys_filter.
Qed.

Lemma filter_own_keys (p : string * json -> bool) (o : obj) :
  Forall (fun kv => String.eqb (fst kv) "__proto__" = false) o ->
  filter (fun kv => own_key kv && p kv) o = filter p o.
Proof.
  induction 1 as [|kv r Hkey Hr IH]; [reflexivity|].
  cbn [filter]. unfold own_key at 1. now rewrite Hkey, IH.
Qed.

(** On an object with distinct keys, none of them [__proto__], the result
    lists, in the order of the source object, the surviving properties
    with their cleaned values. *)
Lemma cleanNullValues_obj (o : obj) :
  NoDup (keys o) ->
  Forall (fun kv => String.eqb (fst kv) "__proto__" = false) o ->
  cleanNullValues (JObj o) = JObj (map cleaned (filter survives_cleaning o)).
Proof.
  intros Hnd Hown. rewrite cleanNullValues_own by exact Hnd.
  now rewrite filter_own_keys.
Qed.

Lemma not_In_keys_filter (p : string * json -> bool) (k : string) (o : obj) :
  ~ In k (keys o) -> ~ In k (keys (filter p o)).
Proof.
  intros Hn Hin. apply Hn. unfold keys in *. rewrite in_map_iff in *.
  destruct Hin as [x [Hx Hin]]. exists x. apply filter_In in Hin. tauto.
Qed.

Lemma keys_map_cleaned (o : obj) : keys (map cleaned o) = keys o.
Proof. unfold keys. rewrite map_map. reflexivity. Qed.

(** What a key is bound to after cleaning an object with distinct keys. *)
Lemma obj_get_cleaned (key : string) (o : obj) :
  NoDup (keys o) ->
  obj_get key (map cleaned (filter survives_cleaning o))
  = match obj_get key o with
    | Some JNull => if cannot_be_null key then Some (JStr "") else None
    | Some value => Some (cleanNullValues value)
    | None => None
    end.
Proof.
  induction o as [|[k0 v0] r IH]; intros Hnd; [reflexivity|].
  inversion Hnd as [|? ? Hk Hr]; subst. specialize (IH Hr).
  cbn [filter obj_get]. unfold survives_cleaning at 1. cbn [fst snd].
  destruct (String.eqb k0 key) eqn:E.
  - apply String.eqb_eq in E. subst k0.
    assert (Habsent : obj_get key (map cleaned (filter survives_cleaning r)) = None).
    { apply obj_get_None_keys. rewrite keys_map_cleaned. now apply not_In_keys_filter. }
    destruct v0; cbn [is_null negb orb map cleaned fst snd obj_get];
      rewrite ?string_eqb_refl; try reflexivity.
    destruct (cannot_be_null key); cbn [map cleaned fst snd obj_get];
      rewrite ?string_eqb_refl; [reflexivity | exact Habsent].
  - destruct (negb (is_null v0) || cannot_be_null k0);
      cbn [map cleaned fst snd obj_get]; rewrite ?E; exact IH.
Qed.

(** A key other than [__proto__] is bound as if every surviving property
    had been assigned. *)
Lemma obj_get_cleaned_own (key : string) (o : obj) :
  String.eqb key "__proto__" = false ->
  obj_get key (map cleaned (filter (fun kv => own_key kv && survives_cleaning kv) o))
  = obj_get key (map cleaned (filter survives_cleaning o)).
Proof.
  intros Hkey. induction o as [|[k0 v0] r IH]; [reflexivity|].
  cbn [filter]. unfold own_key at 1. cbn [fst].
  destruct (String.eqb k0 "__proto__") eqn:E; cbn [negb andb].
  - apply String.eqb_eq in E. subst k0.
    destruct (survives_cleaning ("__proto__", v0)); [|exact IH].
    cbn [map cleaned fst obj_get].
    destruct (String.eqb "__proto__" key) eqn:E'; [|exact IH].
    apply String.eqb_eq in E'. subst key. discriminate Hkey.
  - destruct (survives_cleaning (k0, v0)); [|exact IH].
    cbn [map cleaned fst obj_get]. now rewrite IH.
Qed.

Lemma is_null_cleanNullValues (v : json) :
  is_null v = false -> is_null (cleanNullValues v) = false.
Proof. destruct v; simpl; congruence. Qed.

Lemma Forall_values_obj_set (Q : json -> Prop) (k : string) (v : json) (o : obj) :
  Forall (fun kv => Q (snd kv)) o -> Q v ->
  Forall (fun kv => Q (snd kv)) (obj_set k v o).
Proof.
  intros Ho Hv. induction Ho as [|[k0 v0] r H0 Hr IH]; simpl.
  - constructor; [assumption | constructor].
  - destruct (String.eqb k0 k); constructor; assumption.
Qed.

Lemma clean_fold_null_free (o acc : obj) :
  Forall (fun kv => null_free (cleanNullValues (snd kv)) = true) o ->
  Forall (fun kv => clean_value (snd kv)) acc ->
  Forall (fun kv => clean_value (snd kv))
         (fold_left (clean_property cleanNullValues) o acc).
Proof.
  intros Ho. revert acc. induction Ho as [|[key value] r H0 Hr IH]; intros acc Hacc.
  - exact Hacc.
  - cbn [fold_left]. apply IH. cbn [snd] in H0.
    assert (Hset : forall x, clean_value x ->
              Forall (fun kv => clean_value (snd kv)) (assign key x acc)).
    { intros x Hx. destruct (assign_cases key x acc) as [-> | ->];
        [exact Hacc | now apply Forall_values_obj_set]. }
    destruct value; cbn [clean_property];
      try (apply Hset; split; [reflexivity | exact H0]).
    destruct (cannot_be_null key); [apply Hset; split; reflexivity | exact Hacc].
Qed.

(** Nothing [cleanNullValues] returns holds a null below its root. *)
Lemma cleanNullValues_null_free (v : json) : null_free (cleanNullValues v) = true.
Proof.
  induction v as [| | | |l IH|o IH] using json_nested_ind; try reflexivity.
  - rewrite cleanNullValues_arr. cbn [null_free].
    apply forallb_forall. intros y Hy. apply in_map_iff in Hy.
    destruct Hy as [x [<- Hx]]. apply filter_In in Hx. destruct Hx as [Hin Hnn].
    rewrite Forall_forall in IH. rewrite (IH x Hin).
    apply negb_true_iff in Hnn. now rewrite is_null_cleanNullValues.
  - cbn [cleanNullValues null_free]. apply forallb_forall.
    apply Forall_forall.
    eapply Forall_impl; [|apply clean_fold_null_free; [exact IH | constructor]].
    intros kv [H1 H2]. now rewrite H1, H2.
Qed.

End CleanNullValues.

(** C4.  The null-cleaning pass does not leave every non-null value in
    place: the number under the key [__proto__] is not null, and the
    object returned has no property for it.  The array is what the pass
    is given under [date-parts] for the line
    [{"__proto__":{"date-parts":[[{"__proto__":5}],[1]]}}], where the
    flattening pass returns the array it was given. *)
Theorem cleanNullValues_loses_proto_property :
  is_null (JNum 5) = false /\
  cleanNullValues (JObj [("__proto__", JNum 5)]) = JObj [] /\
  cleanNullValues (JArr [JArr [JObj [("__proto__", JNum 5)]]; JArr [JNum 1]])
  = JArr [JArr [JObj []]; JArr [JNum 1]].
Proof. repeat split. Qed.

(** X19.  The null-cleaning pass, on a value whose objects have distinct
    keys, none of them [__proto__]: an object keeps, in order, the
    properties whose value is not null or whose key contains
    [colidentifier] or starts and ends with a star; a kept null becomes
    the empty string, every other kept value is cleaned in turn, and a
    dropped key is absent from the result.  An array loses its null
    elements and has the others cleaned.  A scalar is returned as it is.
    No null is left below the root. *)
Theorem cleanNullValues_drops_nulls (v : json)
    (Hwf : wf v) (Hproto : own_proto_free v = true) :
  null_free (cleanNullValues v) = true /\
  match v with
  | JObj o =>
      cleanNullValues v = JObj (map cleaned (filter survives_cleaning o)) /\
      forall key,
        get_prop (cleanNullValues v) key
        = match obj_get key o with
          | Some JNull => if cannot_be_null key then Some (JStr "") else None
          | Some value => Some (cleanNullValues value)
          | None => None
          end
  | JArr l =>
      cleanNullValues v
      = JArr (map cleanNullValues (filter (fun item => negb (is_null item)) l))
  | _ => cleanNullValues v = v
  end.
Proof.
  split; [apply cleanNullValues_null_free|].
  destruct v as [| | | |l|o]; try reflexivity.
  - apply cleanNullValues_arr.
  - apply wf_obj in Hwf. destruct Hwf as [Hnd _]. apply own_keys in Hproto.
    split; [now apply cleanNullValues_obj|].
    intros key. rewrite cleanNullValues_obj by assumption.
    cbn [get_prop]. now apply obj_get_cleaned.
Qed.

(** The four examples of the specification, in one record. *)
Lemma cleanNullValues_drops_nulls_witness :
  cleanNullValues
    (JObj [("*x*", JNull); ("colidentifier_y", JNull); ("z", JNull);
           ("a", JArr [JNum 1; JNull; JNum 2])])
  = JObj [("*x*", JStr ""); ("colidentifier_y", JStr "");
          ("a", JArr [JNum 1; JNum 2])].
Proof.
  pose proof (cleanNullValues_drops_nulls
    (JObj [("*x*", JNull); ("colidentifier_y", JNull); ("z", JNull);
           ("a", JArr [JNum 1; JNull; JNum 2])]) eq_refl eq_refl) as [_ [H _]].
  exact H.
Defined.

(** ** replaceKeyDashes *)



(** ** The traversal of the in-place passes *)

Lemma depth_element (l : list json) (x : json) :
  In x l -> (depth x < depth (JArr l))%nat.
Proof.
  cbn [depth]. induction l as [|y r IH]; simpl; [tauto|].
  intros [-> | Hin]; [lia | specialize (IH Hin); lia].
Qed.

Lemma values_below_depth (o : obj) : values_below (depth (JObj o)) o.
Proof.
  unfold values_below. cbn [depth]. induction o as [|kv r IH]; simpl; constructor.
  - lia.
  - eapply Forall_impl; [|exact IH]. simpl. intros. lia.
Qed.

Lemma values_below_obj_set (d : nat) (k : string) (v : json) (o : obj) :
  values_below d o -> (depth v < d)%nat -> values_below d (obj_set k v o).
Proof. intros Ho Hv. now apply (Forall_values_obj_set (fun x => (depth x < d)%nat)). Qed.

Lemma values_below_obj_delete (d : nat) (k : string) (o : obj) :
  values_below d o -> values_below d (obj_delete k o).
Proof.
  unfold values_below. induction 1 as [|[k0 v0] r H0 Hr IH]; simpl; [constructor|].
  destruct (String.eqb k0 k); [assumption | now constructor].
Qed.

Lemma values_below_obj_get (d : nat) (k : string) (v : json) (o : obj) :
  values_below d o -> obj_get k o = Some v -> (depth v < d)%nat.
Proof.
  intros Ho Hget. apply obj_get_In in Hget. unfold values_below in Ho.
  rewrite Forall_forall in Ho. exact (Ho _ Hget).
Qed.

Section Visit.

Variable step : obj -> obj.
Hypothesis step_depth : forall d o, values_below d o -> values_below d (step o).

(** Any counter above the depth of the value gives the same result. *)
Lemma visit_upto_enough (n m : nat) (v : json) :
  (depth v < n)%nat -> (depth v < m)%nat -> visit_upto step n v = visit_upto step m v.
Proof.
  revert m v. induction n as [|n IH]; intros m v Hn Hm; [lia|].
  destruct m as [|m]; [lia|].
  destruct v as [| | | |l|o]; try reflexivity; cbn [visit_upto]; f_equal.
  - apply map_ext_in. intros x Hx. pose proof (depth_element l x Hx).
    apply IH; lia.
  - assert (Hb : values_below (depth (JObj o)) (step o))
      by apply step_depth, values_below_depth.
    unfold map_values. apply map_ext_in. intros kv Hkv. f_equal.
    unfold values_below in Hb. rewrite Forall_forall in Hb. specialize (Hb kv Hkv).
    apply IH; lia.
Qed.

Lemma visit_arr (l : list json) : visit step (JArr l) = JArr (map (visit step) l).
Proof.
  unfold visit at 1. cbn [visit_upto]. f_equal. apply map_ext_in. intros x Hx.
  pose proof (depth_element l x Hx). apply visit_upto_enough; lia.
Qed.

Lemma visit_obj (o : obj) : visit step (JObj o) = JObj (map_values (visit step) (step o)).
Proof.
  unfold visit at 1. cbn [visit_upto]. f_equal.
  assert (Hb : values_below (depth (JObj o)) (step o))
    by apply step_depth, values_below_depth.
  unfold map_values. apply map_ext_in. intros kv Hkv. f_equal.
  unfold values_below in Hb. rewrite Forall_forall in Hb. specialize (Hb kv Hkv).
  apply visit_upto_enough; lia.
Qed.

Lemma visit_scalar (v : json) : is_object_like v = false -> visit step v = v.
Proof. destruct v; simpl; try discriminate; reflexivity. Qed.

(** A property of every scalar that arrays and objects inherit from
    their visited parts holds of every visited value. *)
Lemma visit_invariant (Q : json -> Prop) :
  (forall v, is_object_like v = false -> Q v) ->
  (forall l, Forall Q l -> Q (JArr l)) ->
  (forall o, Forall (fun kv => Q (visit step (snd kv))) (step o) ->
             Q (JObj (map_values (visit step) (step o)))) ->
  forall v, Q (visit step v).
Proof.
  intros Hs Ha Ho v.
  remember (depth v) as d eqn:Hd. assert (Hle : (depth v <= d)%nat) by lia. clear Hd.
  revert v Hle. induction d as [d IH] using lt_wf_ind. intros v Hle.
  destruct v as [| | | |l|o]; try (apply Hs; reflexivity).
  - rewrite visit_arr. apply Ha. apply Forall_forall. intros y Hy.
    apply in_map_iff in Hy. destruct Hy as [x [<- Hx]].
    pose proof (depth_element l x Hx). apply (IH (depth x)); lia.
  - rewrite visit_obj. apply Ho.
    assert (Hb : values_below (depth (JObj o)) (step o))
      by apply step_depth, values_below_depth.
    unfold values_below in Hb. rewrite Forall_forall in Hb |- *.
    intros kv Hkv. specialize (Hb kv Hkv). apply (IH (depth (snd kv))); lia.
Qed.

End Visit.

(** ** parseInt on digit strings *)






(** ** fixBigQueryIssues *)

Section FixBigQueryIssues.

Lemma fix_year_depth (d : nat) (o : obj) : values_below d o -> values_below d (fix_year o).
Proof.
  intros Hb. unfold fix_year.
  destruct (obj_get "year" o) as [[| | |yearValue| |]|] eqn:Hy; try assumption.
  pose proof (values_below_obj_get d _ _ o Hb Hy) as Hd. cbn [depth] in Hd.
  assert (Hmove : values_below d (obj_delete "year" (obj_set "year_string" (JStr yearValue) o)))
    by (apply values_below_obj_delete, values_below_obj_set; assumption).
  destruct (negb (all_digits yearValue)); [assumption|].
  destruct (parseInt_string yearValue); [|assumption].
  apply values_below_obj_set; assumption.
Qed.

Lemma fixBigQueryIssues_arr (l : list json) :
  fixBigQueryIssues (JArr l) = JArr (map fixBigQueryIssues l).
Proof. apply visit_arr, fix_year_depth. Qed.


Lemma visit_is_string (step : obj -> obj) (v : json) :
  is_string (visit step v) = is_string v.
Proof. destruct v; reflexivity. Qed.

(** After the [year] block the object has no string under [year]. *)
Lemma fix_year_no_string (o : obj) :
  match obj_get "year" (fix_year o) with
  | Some v => is_string v = false
  | None => True
  end.
Proof.
  unfold fix_year.
  destruct (obj_get "year" o) as [[| | |yearValue| |]|] eqn:Hy;
    try (rewrite Hy; reflexivity); try (rewrite Hy; exact I).
  assert (Hmove : obj_get "year" (obj_delete "year" (obj_set "year_string" (JStr yearValue) o)) = None)
    by apply obj_get_delete_same.
  destruct (negb (all_digits yearValue)); [now rewrite Hmove|].
  destruct (parseInt_string yearValue); [|now rewrite Hmove].
  now rewrite obj_get_set_same.
Qed.

(** In no value the pass returns is a [year] a string. *)
Lemma fixBigQueryIssues_year_never_string (v : json) :
  year_never_string (fixBigQueryIssues v) = true.
Proof.
  unfold fixBigQueryIssues.
  apply (visit_invariant fix_year fix_year_depth (fun r => year_never_string r = true)).
  - intros x Hx. destruct x; try reflexivity; discriminate.
  - intros l Hl. cbn [year_never_string]. apply forallb_forall.
    now rewrite Forall_forall in Hl.
  - intros o Ho. cbn [year_never_string]. apply andb_true_iff. split.
    + rewrite obj_get_map_values. pose proof (fix_year_no_string o) as Hn.
      destruct (obj_get "year" (fix_year o)) as [y|]; [|reflexivity].
      cbn [option_map]. pose proof (visit_is_string fix_year y) as Hs.
      rewrite Hn in Hs. destruct (visit fix_year y); try reflexivity; discriminate.
    + apply forallb_forall. intros kv Hkv. unfold map_values in Hkv.
      apply in_map_iff in Hkv. destruct Hkv as [kv0 [<- Hin]].
      rewrite Forall_forall in Ho. exact (Ho kv0 Hin).
Qed.

End FixBigQueryIssues.



(** ** processDateFields *)

Section ProcessDateFields.

Lemma depth_obj_bound (m : nat) (o : obj) :
  values_below (S m) o -> (depth (JObj o) <= S m)%nat.
Proof.
  unfold values_below. cbn [depth]. induction 1 as [|kv r Hkv Hr IH]; cbn [fold_right]; lia.
Qed.

Lemma depth_arr_bound (m : nat) (l : list json) :
  Forall (fun x => (depth x < S m)%nat) l -> (depth (JArr l) <= S m)%nat.
Proof.
  cbn [depth]. induction 1 as [|x r Hx Hr IH]; cbn [fold_right]; lia.
Qed.

Lemma convert_own_date_parts_depth (d : nat) (o : obj) :
  values_below d o -> values_below d (convert_own_date_parts o).
Proof.
  intros Hb. unfold convert_own_date_parts.
  destruct (obj_get "date-parts" o) as [dateParts|] eqn:Hdp; [|assumption].
  pose proof (values_below_obj_get d _ _ o Hb Hdp) as Hd.
  apply values_below_obj_delete.
  destruct (convertDatePartsToISOString (unwrap_date_parts dateParts)); [|assumption].
  apply values_below_obj_set; [assumption | cbn [depth]; lia].
Qed.

Lemma convert_date_field_depth (d : nat) (o : obj) (field : string) :
  values_below d o -> values_below d (convert_date_field o field).
Proof.
  intros Hb. unfold convert_date_field.
  destruct (obj_get field o) as [fv|] eqn:Hf; [|assumption].
  pose proof (values_below_obj_get d _ _ o Hb Hf) as Hd.
  destruct (truthy fv && is_object_like fv); [|assumption].
  destruct (get_prop fv "date-parts") as [dateParts|]; [|assumption].
  destruct (truthy dateParts); [|assumption].
  destruct (convertDatePartsToISOString (unwrap_date_parts dateParts)).
  - apply values_below_obj_set; [assumption | cbn [depth]; lia].
  - now apply values_below_obj_delete.
Qed.

Lemma convert_license_start_depth (license : json) :
  (depth (convert_license_start license) <= depth license)%nat.
Proof.
  unfold convert_license_start.
  destruct license as [| | | | |lo]; try lia.
  destruct (obj_get "start" lo) as [start|] eqn:Hs; [|lia].
  destruct (truthy start); [|lia].
  destruct (get_prop start "date-parts") as [dateParts|]; [|lia].
  destruct (truthy dateParts); [|lia].
  pose proof (values_below_depth lo) as Hb.
  remember (depth (JObj lo)) as dl eqn:Hdl.
  destruct dl as [|m]; [cbn [depth] in Hdl; discriminate|].
  destruct (convertDatePartsToISOString (unwrap_date_parts dateParts));
    apply depth_obj_bound.
  - apply values_below_obj_set; [assumption | cbn [depth]; lia].
  - now apply values_below_obj_delete.
Qed.

Lemma convert_licenses_depth (d : nat) (o : obj) :
  values_below d o -> values_below d (convert_licenses o).
Proof.
  intros Hb. unfold convert_licenses.
  destruct (obj_get "license" o) as [[| | | |licenses|]|] eqn:Hl; try assumption.
  pose proof (values_below_obj_get d _ _ o Hb Hl) as Hd.
  apply values_below_obj_set; [assumption|].
  remember (depth (JArr licenses)) as dl eqn:Hdl.
  destruct dl as [|m]; [cbn [depth] in Hdl; discriminate|].
  enough (depth (JArr (map convert_license_start licenses)) <= S m)%nat by lia.
  apply depth_arr_bound. apply Forall_forall. intros y Hy.
  apply in_map_iff in Hy. destruct Hy as [x [<- Hx]].
  pose proof (convert_license_start_depth x).
  pose proof (depth_element licenses x Hx). lia.
Qed.

Lemma date_step_depth (d : nat) (o : obj) : values_below d o -> values_below d (date_step o).
Proof.
  intros Hb. unfold date_step. apply convert_licenses_depth.
  generalize (convert_own_date_parts_depth d o Hb).
  generalize (convert_own_date_parts o) as o1.
  induction dateFields as [|f fs IH]; intros o1 H1; [exact H1|].
  cbn [fold_left]. apply IH. now apply convert_date_field_depth.
Qed.

Lemma processDateFields_arr (l : list json) :
  processDateFields (JArr l) = JArr (map processDateFields l).
Proof. apply visit_arr, date_step_depth. Qed.

Lemma processDateFields_obj (o : obj) :
  processDateFields (JObj o) = JObj (map_values processDateFields (date_step o)).
Proof. apply visit_obj, date_step_depth. Qed.

End ProcessDateFields.

(** *** What the step binds *)

(** Closes [~ In k dateFields] for a literal key outside the list. *)
Ltac not_a_date_field :=
  let H := fresh "H" in
  cbn [dateFields In]; intros H;
  repeat (destruct H as [H|H]; [discriminate H|]); exact H.

Section DateStep.

Lemma convert_date_field_other (o : obj) (field k : string) :
  field <> k -> obj_get k (convert_date_field o field) = obj_get k o.
Proof.
  intros Hne. unfold convert_date_field.
  destruct (obj_get field o) as [fv|]; [|reflexivity].
  destruct (truthy fv && is_object_like fv); [|reflexivity].
  destruct (get_prop fv "date-parts") as [dateParts|]; [|reflexivity].
  destruct (truthy dateParts); [|reflexivity].
  destruct (convertDatePartsToISOString (unwrap_date_parts dateParts)).
  - now apply obj_get_set_other.
  - now apply obj_get_delete_other.
Qed.

Lemma fold_convert_date_field_other (fields : list string) (o : obj) (k : string) :
  ~ In k fields -> obj_get k (fold_left convert_date_field fields o) = obj_get k o.
Proof.
  revert o. induction fields as [|f fs IH]; intros o Hn; [reflexivity|].
  cbn [fold_left]. rewrite IH by (intros H; apply Hn; now right).
  apply convert_date_field_other. intros ->. apply Hn. now left.
Qed.

Lemma convert_licenses_other (o : obj) (k : string) :
  k <> "license" -> obj_get k (convert_licenses o) = obj_get k o.
Proof.
  intros Hne. unfold convert_licenses.
  destruct (obj_get "license" o) as [[| | | |licenses|]|]; try reflexivity.
  apply obj_get_set_other. congruence.
Qed.

Lemma convert_own_date_parts_other (o : obj) (k : string) :
  k <> "date" -> k <> "date-parts" ->
  obj_get k (convert_own_date_parts o) = obj_get k o.
Proof.
  intros H1 H2. unfold convert_own_date_parts.
  destruct (obj_get "date-parts" o) as [dateParts|]; [|reflexivity].
  rewrite obj_get_delete_other by congruence.
  destruct (convertDatePartsToISOString (unwrap_date_parts dateParts)); [|reflexivity].
  apply obj_get_set_other. congruence.
Qed.

(** The conversion of date parts of one of the listed shapes. *)
Lemma convert_date_parts_input (dp Y : json) (M D : option json) :
  date_parts_input dp Y M D -> is_array Y = false ->
  convertDatePartsToISOString (unwrap_date_parts dp)
  = match parseInt (Some Y) with
    | Some yearNum => Some (iso_date yearNum (parseInt M) (parseInt D))
    | None => None
    end.
Proof.
  intros Hshape HY.
  destruct Hshape; destruct Y; try discriminate HY;
    cbn [unwrap_date_parts convertDatePartsToISOString nth_error List.length
         Nat.ltb Nat.leb];
    match goal with
    | |- context [parseInt (Some ?y)] => destruct (parseInt (Some y)); reflexivity
    end.
Qed.

Lemma date_parts_input_truthy (dp Y : json) (M D : option json) :
  date_parts_input dp Y M D -> truthy dp = true.
Proof. intros []; reflexivity. Qed.

Lemma date_step_own (o : obj) (dp Y : json) (M D : option json) :
  date_parts_input dp Y M D -> is_array Y = false ->
  obj_get "date-parts" o = Some dp ->
  obj_get "date-parts" (date_step o) = None /\
  obj_get "date" (date_step o)
  = match converted_date Y M D with
    | Some iso => Some iso
    | None => obj_get "date" o
    end.
Proof.
  intros Hshape HY Hdp. unfold date_step.
  rewrite !convert_licenses_other by discriminate.
  rewrite !fold_convert_date_field_other
    by not_a_date_field.
  unfold convert_own_date_parts. rewrite Hdp.
  rewrite (convert_date_parts_input dp Y M D Hshape HY). unfold converted_date.
  split; [apply obj_get_delete_same|].
  rewrite obj_get_delete_other by discriminate.
  destruct (parseInt (Some Y)); [apply obj_get_set_same | reflexivity].
Qed.

Lemma convert_date_field_at (o fo : obj) (field : string) (dp Y : json) (M D : option json) :
  date_parts_input dp Y M D -> is_array Y = false ->
  obj_get field o = Some (JObj fo) -> obj_get "date-parts" fo = Some dp ->
  obj_get field (convert_date_field o field) = converted_date Y M D.
Proof.
  intros Hshape HY Hf Hdp. unfold convert_date_field. rewrite Hf.
  cbn [truthy is_object_like andb get_prop]. rewrite Hdp.
  rewrite (date_parts_input_truthy dp Y M D Hshape).
  rewrite (convert_date_parts_input dp Y M D Hshape HY). unfold converted_date.
  destruct (parseInt (Some Y)); [apply obj_get_set_same | apply obj_get_delete_same].
Qed.

Lemma fold_convert_date_field_at (fields : list string) (o fo : obj) (field : string)
    (dp Y : json) (M D : option json) :
  date_parts_input dp Y M D -> is_array Y = false ->
  NoDup fields -> In field fields ->
  obj_get field o = Some (JObj fo) -> obj_get "date-parts" fo = Some dp ->
  obj_get field (fold_left convert_date_field fields o) = converted_date Y M D.
Proof.
  intros Hshape HY Hnd. revert o.
  induction Hnd as [|f fs Hf Hfs IH]; intros o Hin Hget Hdp; [destruct Hin|].
  cbn [fold_left]. destruct (string_dec f field) as [->|Hne].
  - rewrite fold_convert_date_field_other by assumption.
    eapply convert_date_field_at; eassumption.
  - destruct Hin as [Heq|Hin]; [contradiction|].
    apply IH; [assumption | | assumption].
    now rewrite convert_date_field_other.
Qed.

Lemma NoDup_dateFields : NoDup dateFields.
Proof. apply distinct_NoDup. reflexivity. Qed.

Lemma date_step_field (o fo : obj) (field : string) (dp Y : json) (M D : option json) :
  date_parts_input dp Y M D -> is_array Y = false ->
  In field dateFields ->
  obj_get field o = Some (JObj fo) -> obj_get "date-parts" fo = Some dp ->
  obj_get field (date_step o) = converted_date Y M D.
Proof.
  intros Hshape HY Hin Hf Hdp. unfold date_step.
  assert (Hfield : field <> "date" /\ field <> "date-parts" /\ field <> "license").
  { cbn [dateFields In] in Hin. repeat destruct Hin as [<-|Hin];
      try (repeat split; discriminate). destruct Hin. }
  destruct Hfield as [H1 [H2 H3]].
  rewrite convert_licenses_other by assumption.
  eapply fold_convert_date_field_at; try eassumption; [apply NoDup_dateFields|].
  now rewrite convert_own_date_parts_other.
Qed.

Lemma convert_license_start_at (lo so : obj) (dp Y : json) (M D : option json) :
  date_parts_input dp Y M D -> is_array Y = false ->
  obj_get "start" lo = Some (JObj so) -> obj_get "date-parts" so = Some dp ->
  exists lo', convert_license_start (JObj lo) = JObj lo' /\
              obj_get "start" lo' = converted_date Y M D.
Proof.
  intros Hshape HY Hs Hdp. unfold convert_license_start. rewrite Hs.
  cbn [truthy get_prop]. rewrite Hdp.
  rewrite (date_parts_input_truthy dp Y M D Hshape).
  rewrite (convert_date_parts_input dp Y M D Hshape HY). unfold converted_date.
  destruct (parseInt (Some Y)); eexists; split; try reflexivity.
  - apply obj_get_set_same.
  - apply obj_get_delete_same.
Qed.

Lemma date_step_start (lo : obj) : obj_get "start" (date_step lo) = obj_get "start" lo.
Proof.
  unfold date_step. rewrite convert_licenses_other by discriminate.
  rewrite fold_convert_date_field_other
    by not_a_date_field.
  apply convert_own_date_parts_other; discriminate.
Qed.

Lemma date_step_license (o : obj) (licenses : list json) :
  obj_get "license" o = Some (JArr licenses) ->
  obj_get "license" (date_step o) = Some (JArr (map convert_license_start licenses)).
Proof.
  intros Hl. unfold date_step, convert_licenses.
  rewrite fold_convert_date_field_other
    by not_a_date_field.
  rewrite convert_own_date_parts_other by discriminate.
  rewrite Hl. apply obj_get_set_same.
Qed.

End DateStep.

Lemma processDateFields_converted (Y : json) (M D : option json) :
  option_map processDateFields (converted_date Y M D) = converted_date Y M D.
Proof. unfold converted_date. destruct (parseInt (Some Y)); reflexivity. Qed.

(** Date parts of the shapes [[Y]], [[Y,M]], [[Y,M,D]] and [Y,M,D], with
    a year element that is not itself an array, in terms of what
    [parseInt] reads from the elements: what the converter returns, and
    what [processDateFields] leaves at an object's own [date-parts], at a
    listed date field and at the [start] of a licence. *)
Lemma date_parts_at_places
    (dp Y : json) (M D : option json)
    (Hshape : date_parts_input dp Y M D)
    (Hyear : is_array Y = false) :
  convertDatePartsToISOString (unwrap_date_parts dp)
  = match parseInt (Some Y) with
    | Some yearNum =>
        Some (padStart 4 (string_of_Z yearNum) ++ "-" ++
              padStart 2 (string_of_Z (or_default 1 (parseInt M))) ++ "-" ++
              padStart 2 (string_of_Z (or_default 1 (parseInt D))))%string
    | None => None
    end /\
  (forall o,
     obj_get "date-parts" o = Some dp ->
     get_prop (processDateFields (JObj o)) "date-parts" = None /\
     get_prop (processDateFields (JObj o)) "date"
     = match converted_date Y M D with
       | Some iso => Some iso
       | None => option_map processDateFields (obj_get "date" o)
       end) /\
  (forall o field fo,
     In field dateFields ->
     obj_get field o = Some (JObj fo) ->
     obj_get "date-parts" fo = Some dp ->
     get_prop (processDateFields (JObj o)) field = converted_date Y M D) /\
  (forall o licenses i lo so,
     obj_get "license" o = Some (JArr licenses) ->
     nth_error licenses i = Some (JObj lo) ->
     obj_get "start" lo = Some (JObj so) ->
     obj_get "date-parts" so = Some dp ->
     exists licenses' license',
       get_prop (processDateFields (JObj o)) "license" = Some (JArr licenses') /\
       nth_error licenses' i = Some license' /\
       get_prop license' "start" = converted_date Y M D).
Proof.
  split; [exact (convert_date_parts_input dp Y M D Hshape Hyear)|].
  split; [|split].
  - intros o Hdp. rewrite processDateFields_obj. cbn [get_prop].
    rewrite !obj_get_map_values.
    destruct (date_step_own o dp Y M D Hshape Hyear Hdp) as [-> ->].
    split; [reflexivity|].
    pose proof (processDateFields_converted Y M D) as Hc.
    destruct (converted_date Y M D); [exact Hc | reflexivity].
  - intros o field fo Hin Hf Hdp. rewrite processDateFields_obj. cbn [get_prop].
    rewrite obj_get_map_values.
    rewrite (date_step_field o fo field dp Y M D Hshape Hyear Hin Hf Hdp).
    apply processDateFields_converted.
  - intros o licenses i lo so Hl Hi Hs Hdp.
    destruct (convert_license_start_at lo so dp Y M D Hshape Hyear Hs Hdp)
      as [lo' [Hlo' Hstart]].
    exists (map processDateFields (map convert_license_start licenses)).
    exists (processDateFields (JObj lo')).
    split; [|split].
    + rewrite processDateFields_obj. cbn [get_prop]. rewrite obj_get_map_values.
      rewrite (date_step_license o licenses Hl). cbn [option_map].
      now rewrite processDateFields_arr.
    + rewrite !nth_error_map, Hi. cbn [option_map]. now rewrite Hlo'.
    + rewrite processDateFields_obj. cbn [get_prop]. rewrite obj_get_map_values.
      rewrite date_step_start, Hstart. apply processDateFields_converted.
Qed.

(** C1.  The claim fails on the code: the converter neither checks the
    range of a part nor gives up on one out of range, although it is
    documented to return an ISO date string or null.  The record
    [{"issued":{"date-parts":[[-5,13,"x"]]}}] is written with the string
    [00-5-13-01] under [issued], which is not of the form YYYY-MM-DD. *)
Theorem out_of_range_date_parts_are_written :
  convertDatePartsToISOString (JArr [JNum (-5); JNum 13; JStr "x"]) = Some "00-5-13-01" /\
  transform_record
    (JObj [("issued", JObj [("date-parts", JArr [JArr [JNum (-5); JNum 13; JStr "x"]])])])
  = JObj [("issued", JStr "00-5-13-01")].
Proof. split; vm_compute; reflexivity. Qed.

(** ** The per-line transform *)

Section Lines.

Variable parse : string -> parse_result.
Variable ym : string -> list string.

Lemma string_append_assoc (a b c : string) : ((a ++ b) ++ c = a ++ (b ++ c))%string.
Proof. induction a as [|x a IH]; simpl; [reflexivity | now rewrite IH]. Qed.

Lemma string_append_nil_r (a : string) : (a ++ "")%string = a.
Proof. induction a as [|x a IH]; simpl; [reflexivity | now rewrite IH]. Qed.

Lemma written_snoc (pc ec : nat) (chunks log : list string) (chunk : string) :
  written (mk_tstate pc ec (chunks ++ [chunk]) log)
  = (written (mk_tstate pc ec chunks log) ++ chunk)%string.
Proof.
  unfold written. cbn [pushed]. induction chunks as [|c r IH]; cbn [app fold_right].
  - now rewrite string_append_nil_r.
  - now rewrite IH, string_append_assoc.
Qed.

(** One line: a record adds one to [processedCount], a malformed line one
    to [errorCount], and the bytes of [emitted] are appended. *)
Lemma transform_line (debugMode : bool) (st : tstate) (line : string) :
  processedCount (transform parse ym debugMode st line)
  = (processedCount st + (if is_record parse line then 1 else 0))%nat /\
  errorCount (transform parse ym debugMode st line)
  = (errorCount st + (if is_malformed parse line then 1 else 0))%nat /\
  written (transform parse ym debugMode st line)
  = (written st ++ emitted parse line)%string /\
  (is_record parse line = false ->
   pushed (transform parse ym debugMode st line) = pushed st ++ [""]).
Proof.
  unfold transform, is_record, is_malformed, emitted, is_blank, transform_record.
  destruct st as [pc ec chunks log]. cbn [processedCount errorCount pushed debugLog].
  destruct (String.eqb (trim line) "") eqn:Hblank; cbn [negb andb].
  - rewrite written_snoc, string_append_nil_r. repeat split; auto with arith.
  - destruct (parse (trim line)) as [obj|message].
    + destruct (includes (JSON_stringify (standardize obj)) "[[");
        cbn [processedCount errorCount pushed]; rewrite written_snoc;
        repeat split; try lia; discriminate.
    + cbn [processedCount errorCount pushed]. rewrite written_snoc, !string_append_nil_r.
      repeat split; try lia; try reflexivity.
Qed.

(** A whole file: the counters count the records and the malformed lines,
    and the output is what the lines emit, in order. *)
Lemma run_lines_counts (debugMode : bool) (lines : list string) (st : tstate) :
  processedCount (run_lines parse ym debugMode st lines)
  = (processedCount st + count (is_record parse) lines)%nat /\
  errorCount (run_lines parse ym debugMode st lines)
  = (errorCount st + count (is_malformed parse) lines)%nat /\
  written (run_lines parse ym debugMode st lines)
  = (written st ++ all_emitted parse lines)%string.
Proof.
  unfold run_lines, count, all_emitted.
  revert st. induction lines as [|line r IH]; intros st; cbn [fold_left filter map fold_right].
  - rewrite string_append_nil_r. cbn [List.length]. repeat split; lia.
  - destruct (IH (transform parse ym debugMode st line)) as [Hp [He Hw]].
    destruct (transform_line debugMode st line) as [Hp1 [He1 [Hw1 _]]].
    rewrite Hp, He, Hw, Hp1, He1, Hw1, string_append_assoc.
    destruct (is_record parse line), (is_malformed parse line);
      cbn [List.length]; repeat split; lia.
Qed.

Lemma count_insert (p : string -> bool) (pre post : list string) (x : string) :
  count p (pre ++ x :: post) = (count p (pre ++ post) + (if p x then 1 else 0))%nat.
Proof.
  unfold count. rewrite !filter_app, !length_app. cbn [filter].
  destruct (p x); cbn [List.length]; lia.
Qed.

Lemma all_emitted_app (l1 l2 : list string) :
  all_emitted parse (l1 ++ l2) = (all_emitted parse l1 ++ all_emitted parse l2)%string.
Proof.
  unfold all_emitted. induction l1 as [|x r IH]; cbn [app map fold_right]; [reflexivity|].
  now rewrite IH, string_append_assoc.
Qed.

(** A line that emits nothing can be taken out of the output. *)
Lemma all_emitted_insert (pre post : list string) (x : string) :
  emitted parse x = "" ->
  all_emitted parse (pre ++ x :: post) = all_emitted parse (pre ++ post).
Proof.
  intros Hx. rewrite !all_emitted_app. f_equal.
  unfold all_emitted. cbn [map fold_right]. now rewrite Hx.
Qed.

Lemma malformed_line_kind (line : string) :
  is_malformed parse line = true ->
  is_record parse line = false /\ is_blank line = false /\ emitted parse line = "".
Proof.
  unfold is_malformed, is_record, emitted.
  destruct (is_blank line); cbn [negb andb]; [discriminate|].
  destruct (parse (trim line)); [discriminate | repeat split].
Qed.

Lemma blank_line_kind (line : string) :
  is_blank line = true ->
  is_record parse line = false /\ is_malformed parse line = false /\
  emitted parse line = "".
Proof.
  unfold is_malformed, is_record, emitted. intros ->. repeat split.
Qed.

(** Lines alone never settle the promise: they only move the counters. *)
Lemma handle_lines (inputPath : string) (debugMode : bool) (lines : list string) (st : fstate) :
  uncaught st = false -> transformEnded st = false ->
  fold_left (handle parse ym inputPath debugMode) (map Line lines) st
  = mk_fstate (run_lines parse ym debugMode (counters st) lines)
      (result st) (isFinished st) false (outputExists st) false.
Proof.
  revert st. induction lines as [|line r IH]; intros st Hu He.
  - destruct st; cbn in *; subst; reflexivity.
  - cbn [map fold_left]. rewrite IH.
    + unfold handle. rewrite Hu, He. reflexivity.
    + unfold handle. rewrite Hu, He. reflexivity.
    + unfold handle. rewrite Hu, He. reflexivity.
Qed.

(** A file whose lines are all delivered, then closed and finished,
    resolves with the two counters. *)
Lemma processJsonlFile_resolves (inputPath : string) (debugMode : bool) (lines : list string) :
  let st := run_lines parse ym debugMode (initial_tstate inputPath debugMode) lines in
  result (processJsonlFile parse ym inputPath debugMode (map Line lines ++ [Close; Finish]))
  = Resolved (processedCount st, errorCount st).
Proof.
  unfold processJsonlFile. rewrite fold_left_app, handle_lines by reflexivity.
  reflexivity.
Qed.

End Lines.

(** C6.  In any state of the stream and between any lines of a file, a
    line that does not parse adds exactly one to the error counter,
    contributes no byte to the output, and leaves the count of processed
    records as it is without it; a blank line changes neither counter nor
    the output.  The lines after it are processed: the processed count is
    the number of lines that parse, and a file whose lines are all
    delivered resolves, with the two counters, however many of them are
    malformed. *)
Theorem malformed_line_is_isolated
    (parse : string -> parse_result) (ym : string -> list string)
    (inputPath : string) (debugMode : bool) (st : tstate)
    (pre post : list string) (bad blank : string)
    (Hbad : is_malformed parse bad = true)
    (Hblank : is_blank blank = true) :
  let without := run_lines parse ym debugMode st (pre ++ post) in
  let with_bad := run_lines parse ym debugMode st (pre ++ bad :: post) in
  let with_blank := run_lines parse ym debugMode st (pre ++ blank :: post) in
  (errorCount with_bad = S (errorCount without) /\
   processedCount with_bad = processedCount without /\
   written with_bad = written without /\
   emitted parse bad = "") /\
  (errorCount with_blank = errorCount without /\
   processedCount with_blank = processedCount without /\
   written with_blank = written without) /\
  processedCount with_bad
  = (processedCount st + count (is_record parse) (pre ++ post))%nat /\
  result (processJsonlFile parse ym inputPath debugMode
            (map Line (pre ++ bad :: post) ++ [Close; Finish]))
  = Resolved
      (count (is_record parse) (pre ++ post),
       S (count (is_malformed parse) (pre ++ post))).
Proof.
  cbv zeta.
  destruct (malformed_line_kind parse bad Hbad) as [Hb1 [_ Hb3]].
  destruct (blank_line_kind parse blank Hblank) as [Hk1 [Hk2 Hk3]].
  destruct (run_lines_counts parse ym debugMode (pre ++ post) st) as [Hp0 [He0 Hw0]].
  destruct (run_lines_counts parse ym debugMode (pre ++ bad :: post) st) as [Hp1 [He1 Hw1]].
  destruct (run_lines_counts parse ym debugMode (pre ++ blank :: post) st) as [Hp2 [He2 Hw2]].
  rewrite Hp0, He0, Hw0, Hp1, He1, Hw1, Hp2, He2, Hw2.
  rewrite !count_insert, !all_emitted_insert by assumption.
  rewrite Hb1, Hbad, Hk1, Hk2.
  repeat split; try lia; try assumption.
  rewrite processJsonlFile_resolves. cbv zeta.
  destruct (run_lines_counts parse ym debugMode (pre ++ bad :: post)
              (initial_tstate inputPath debugMode)) as [Hp3 [He3 _]].
  rewrite Hp3, He3, !count_insert, Hb1, Hbad.
  destruct debugMode; cbn [initial_tstate processedCount errorCount]; f_equal; f_equal; lia.
Qed.

(** A file of two records around a malformed line: one error, two
    records, and the output of the two records alone. *)
Lemma malformed_line_is_isolated_witness :
  let st := run_lines parse_empty_object (fun _ => []) false
              (initial_tstate "7.jsonl.gz" false) ["{}"; "{oops"; "{}"] in
  errorCount st = 1%nat /\ processedCount st = 2%nat /\
  written st = ("{}" ++ newline ++ "{}" ++ newline)%string.
Proof.
  pose proof (malformed_line_is_isolated parse_empty_object (fun _ => []) "7.jsonl.gz" false
                (initial_tstate "7.jsonl.gz" false) ["{}"] ["{}"] "{oops" "   "
                eq_refl eq_refl) as [[He [Hp [Hw _]]] _].
  cbv zeta. cbn [app] in He, Hp, Hw. rewrite He, Hp, Hw.
  repeat split.
Defined.

(** ** validateGzipFile *)

Section Validation.

(** A settled promise stays as it is. *)
Lemma validate_settled (debug : bool) (evs : list gz_event) (st : vstate) :
  validation st <> Pending ->
  validation (fold_left (validate_step debug) evs st) = validation st.
Proof.
  revert st. induction evs as [|ev r IH]; intros st Hs; [reflexivity|].
  cbn [fold_left]. rewrite IH.
  - unfold validate_step. destruct (destroyed st); [reflexivity|].
    destruct ev, debug, (dataReceived st), (validation st);
      try reflexivity; contradiction.
  - unfold validate_step. destruct (destroyed st); [assumption|].
    destruct ev, debug, (dataReceived st), (validation st);
      cbn; try discriminate; contradiction.
Qed.

(** Without debug mode the first event decides. *)
Lemma validate_first_event (evs : list gz_event) :
  validateGzipFile false evs
  = match evs with
    | [] => Pending
    | GzData :: _ => Resolved true
    | GzEnd :: _ => Rejected "Empty gzip file"
    | GzReadError m :: _ => Rejected ("Failed to read file: " ++ m)%string
    | GzGunzipError m :: _ => Rejected ("Invalid gzip file: " ++ m)%string
    end.
Proof.
  unfold validateGzipFile. destruct evs as [|ev r]; [reflexivity|].
  cbn [fold_left]. rewrite validate_settled; destruct ev; cbn; congruence.
Qed.

Lemma validate_debug_from (received : bool) (evs : list gz_event) :
  validation (fold_left (validate_step true) evs (mk_vstate received false Pending))
  = validate_whole received evs.
Proof.
  revert received. induction evs as [|ev r IH]; intros received; [reflexivity|].
  cbn [fold_left]. destruct ev; cbn [validate_step destroyed dataReceived validation negb settle validate_whole].
  - apply IH.
  - destruct received; cbn [negb]; rewrite validate_settled; cbn; congruence.
  - rewrite validate_settled; cbn; congruence.
  - rewrite validate_settled; cbn; congruence.
Qed.

Lemma validate_debug (evs : list gz_event) :
  validateGzipFile true evs = validate_whole false evs.
Proof. apply validate_debug_from. Qed.

Lemma validate_whole_chunks_end (n : nat) (received : bool) (rest : list gz_event) :
  validate_whole received (repeat GzData n ++ GzEnd :: rest)
  = if received || negb (n =? 0)%nat then Resolved true else Rejected "Empty gzip file".
Proof.
  revert received. induction n as [|n IH]; intros received; cbn [repeat app validate_whole].
  - now rewrite orb_false_r.
  - rewrite IH. cbn. now rewrite orb_true_r.
Qed.

(** The only value a validation resolves with is [true]. *)
Lemma validate_whole_accepts (received : bool) (evs : list gz_event) (ok : bool) :
  validate_whole received evs = Resolved ok -> ok = true.
Proof.
  revert received. induction evs as [|[] r IH]; intros received; cbn [validate_whole];
    try congruence.
  - apply IH.
  - destruct received; congruence.
Qed.

End Validation.

(** Debug mode, part by part.  The per-line processing does not depend
    on it: the two counters, the bytes written and the value a fully
    delivered file resolves with are the same.  The validation is more
    thorough with it: without debug mode it settles on the first event,
    with debug mode it reads on.  What it rejects without debug mode it
    rejects with it, what it accepts with debug mode it accepts without,
    and the two agree on a stream of chunks that ends. *)
Lemma debug_mode_only_tightens_validation
    (parse : string -> parse_result) (ym : string -> list string)
    (inputPath : string) (st : tstate) (lines : list string) (gz : list gz_event) :
  (processedCount (run_lines parse ym true st lines)
   = processedCount (run_lines parse ym false st lines) /\
   errorCount (run_lines parse ym true st lines)
   = errorCount (run_lines parse ym false st lines) /\
   written (run_lines parse ym true st lines)
   = written (run_lines parse ym false st lines)) /\
  result (processJsonlFile parse ym inputPath true (map Line lines ++ [Close; Finish]))
  = result (processJsonlFile parse ym inputPath false (map Line lines ++ [Close; Finish])) /\
  (forall err, validateGzipFile false gz = Rejected err ->
               validateGzipFile true gz = Rejected err) /\
  (forall ok, validateGzipFile true gz = Resolved ok ->
              validateGzipFile false gz = Resolved ok) /\
  (forall n rest,
     validateGzipFile true (repeat GzData n ++ GzEnd :: rest)
     = validateGzipFile false (repeat GzData n ++ GzEnd :: rest)).
Proof.
  split; [|split; [|split; [|split]]].
  - destruct (run_lines_counts parse ym true lines st) as [-> [-> ->]].
    destruct (run_lines_counts parse ym false lines st) as [-> [-> ->]].
    repeat split.
  - rewrite !processJsonlFile_resolves. cbv zeta.
    destruct (run_lines_counts parse ym true lines (initial_tstate inputPath true))
      as [-> [-> _]].
    destruct (run_lines_counts parse ym false lines (initial_tstate inputPath false))
      as [-> [-> _]].
    reflexivity.
  - intros err. rewrite validate_first_event, validate_debug.
    destruct gz as [|[] r]; cbn [validate_whole]; congruence.
  - intros ok. rewrite validate_first_event, validate_debug.
    destruct gz as [|[] r]; cbn [validate_whole]; try congruence.
    intros H. now rewrite (validate_whole_accepts true r ok H).
  - intros n rest. rewrite validate_first_event, validate_debug, validate_whole_chunks_end.
    destruct n; reflexivity.
Qed.

(** A stream that fails after its first chunk, as a truncated file
    gives, is accepted without debug mode and rejected with it. *)
Lemma truncated_stream_validation :
  validateGzipFile false [GzData; GzGunzipError "unexpected end of file"] = Resolved true /\
  validateGzipFile true [GzData; GzGunzipError "unexpected end of file"]
  = Rejected "Invalid gzip file: unexpected end of file".
Proof. split; reflexivity. Qed.

(** ** getFilesToProcess *)

Section FilesToProcess.

Lemma endsWith_refl (s : string) : endsWith s s = true.
Proof. destruct s; simpl; [reflexivity|]. now rewrite Ascii.eqb_refl, string_eqb_refl. Qed.

Lemma endsWith_append (a b : string) : endsWith (a ++ b) b = true.
Proof.
  induction a as [|c a IH]; cbn [String.append]; [apply endsWith_refl|].
  cbn [endsWith]. rewrite IH. apply orb_true_r.
Qed.

(** The text before the first separator, when the text has none. *)
Lemma split_head_append (c : ascii) (n rest : string) :
  all_chars (fun a => negb (Ascii.eqb a c)) n = true ->
  split_head c (n ++ String c rest) = n.
Proof.
  induction n as [|a n IH]; cbn [String.append split_head all_chars].
  - now rewrite Ascii.eqb_refl.
  - intros H. apply andb_true_iff in H. destruct H as [Ha Hn].
    apply negb_true_iff in Ha. rewrite Ha. now rewrite IH.
Qed.

Lemma all_chars_impl (p q : ascii -> bool) (s : string) :
  (forall a, p a = true -> q a = true) -> all_chars p s = true -> all_chars q s = true.
Proof.
  intros Hpq. induction s as [|a s IH]; cbn [all_chars]; [reflexivity|].
  intros H. apply andb_true_iff in H. destruct H as [Ha Hs].
  now rewrite (Hpq a Ha), IH.
Qed.

Lemma digit_not_underscore (a : ascii) :
  is_digit a = true -> negb (Ascii.eqb a "_"%char) = true.
Proof.
  intros Hd. destruct a as [[] [] [] [] [] [] [] []]; try discriminate Hd; reflexivity.
Qed.

Lemma In_insert_sorted cmp (x y : string) (l : list string) :
  In y (insert_sorted cmp x l) <-> y = x \/ In y l.
Proof.
  induction l as [|z r IH]; cbn [insert_sorted In]; [intuition|].
  destruct (cmp x z <=? 0)%Z; cbn [In]; [intuition | rewrite IH; intuition].
Qed.

(** Sorting keeps the files. *)
Lemma In_sort_by cmp (y : string) (l : list string) : In y (sort_by cmp l) <-> In y l.
Proof.
  unfold sort_by. induction l as [|x r IH]; cbn [fold_right In]; [reflexivity|].
  rewrite In_insert_sorted, IH. intuition.
Qed.

(** The output of ordinal [n] puts the input of ordinal [n] in the set. *)
Lemma processed_ordinal (n : string) (outputDir : list string) :
  all_chars is_digit n = true ->
  In (n ++ "_processed.jsonl.gz")%string outputDir ->
  In (n ++ ".jsonl.gz")%string (processedFiles outputDir).
Proof.
  intros Hord Hin. unfold processedFiles. apply in_map_iff.
  exists (n ++ "_processed.jsonl.gz")%string. split.
  - f_equal. apply (split_head_append "_"%char n "processed.jsonl.gz").
    eapply all_chars_impl; [apply digit_not_underscore | exact Hord].
  - apply filter_In. split; [assumption|].
    apply (endsWith_append n "_processed.jsonl.gz").
Qed.

(** Without a specific file, resume mode returns the inputs that are not
    in the set. *)
Lemma In_getFilesToProcess (file : string) (inputDir outputDir : list string) :
  In file (getFilesToProcess None true inputDir outputDir) <->
  In file inputDir /\ endsWith file ".jsonl.gz" = true /\
  ~ In file (processedFiles outputDir).
Proof.
  cbn [getFilesToProcess]. rewrite filter_In, In_sort_by, filter_In.
  rewrite negb_true_iff, mem_false_In. tauto.
Qed.

(** Every job is for a file of the list. *)
Lemma dispatched_files (jobs : nat) (files worker : list string) (file : string) :
  In worker (dispatched jobs files) -> In file worker -> In file files.
Proof.
  unfold dispatched.
  destruct (List.length files =? 0)%nat; [intros []|].
  destruct ((jobs <=? 1)%nat || (List.length files =? 1)%nat).
  - intros [<-|[]]. trivial.
  - intros Hw Hf. apply in_map_iff in Hw. destruct Hw as [i [<- _]].
    apply in_flat_map in Hf. destruct Hf as [j [_ Hj]].
    destruct (nth_error files j) as [f|] eqn:Hn; [|destruct Hj].
    destruct Hj as [<-|[]]. eapply nth_error_In. eassumption.
Qed.

End FilesToProcess.

(** C8, as the code has it.  In resume mode and with no specific file
    requested: when the listing of the output directory has the artifact
    of ordinal [n], the input file of ordinal [n] is not in the list of
    files to process and no worker is given it.  The list is a function
    of the two listings alone: it has exactly the inputs whose name ends
    in [.jsonl.gz] and is not named by an artifact of the output
    listing. *)
Theorem resume_skips_processed_ordinals
    (n : string) (inputDir outputDir : list string) (CONCURRENT_JOBS : nat)
    (Hordinal : all_chars is_digit n = true)
    (Hartifact : In (n ++ "_processed.jsonl.gz")%string outputDir) :
  let files := getFilesToProcess None true inputDir outputDir in
  ~ In (n ++ ".jsonl.gz")%string files /\
  (forall worker, In worker (dispatched CONCURRENT_JOBS files) ->
                  ~ In (n ++ ".jsonl.gz")%string worker) /\
  (forall file,
     In file files <->
     In file inputDir /\ endsWith file ".jsonl.gz" = true /\
     ~ In file (processedFiles outputDir)).
Proof.
  cbv zeta.
  assert (Hskip : ~ In (n ++ ".jsonl.gz")%string
                    (getFilesToProcess None true inputDir outputDir)).
  { rewrite In_getFilesToProcess. intros [_ [_ Hn]]. apply Hn.
    now apply processed_ordinal. }
  split; [exact Hskip | split].
  - intros worker Hw Hf. apply Hskip. eapply dispatched_files; eassumption.
  - intros file. apply In_getFilesToProcess.
Qed.

(** The example of the specification: with [3_processed.jsonl.gz] in
    place, [3.jsonl.gz] is not dispatched. *)
Lemma resume_skips_processed_ordinals_witness :
  ~ In "3.jsonl.gz"
      (getFilesToProcess None true
         ["1.jsonl.gz"; "3.jsonl.gz"; "10.jsonl.gz"; "2.jsonl.gz"]
         ["3_processed.jsonl.gz"]).
Proof.
  exact (proj1 (resume_skips_processed_ordinals "3"
                  ["1.jsonl.gz"; "3.jsonl.gz"; "10.jsonl.gz"; "2.jsonl.gz"]
                  ["3_processed.jsonl.gz"] 4 eq_refl (or_introl eq_refl))).
Defined.

(** C8 as stated fails: resume mode is on, the artifact of ordinal 3
    exists, and the requested file [3.jsonl.gz] is returned all the
    same. *)
Lemma specific_file_ignores_resume :
  In "3_processed.jsonl.gz" ["3_processed.jsonl.gz"] /\
  getFilesToProcess (Some "3.jsonl.gz") true
    ["1.jsonl.gz"; "3.jsonl.gz"] ["3_processed.jsonl.gz"]
  = ["3.jsonl.gz"] /\
  dispatched 4 ["3.jsonl.gz"] = [["3.jsonl.gz"]].
Proof. repeat split. now left. Qed.

(** ** Nested arrays and the pipeline *)

(** C2 fails on the code.  An array nested inside a second, later element
    of an inner array survives both passes: the flattening pass splices
    one level and does not look at what it spliced in, and the serialised
    record has no two adjacent opening brackets, so the corrective pass
    does not run. *)
Theorem nested_array_survives_pipeline :
  let record := JObj [("x", JArr [JArr [JNum 1; JArr [JNum 2]]])] in
  standardize record = JObj [("x", JArr [JNum 1; JArr [JNum 2]])] /\
  includes (JSON_stringify (standardize record)) "[[" = false /\
  transform_record record = JObj [("x", JArr [JNum 1; JArr [JNum 2]])] /\
  has_nested_array (transform_record record) = true.
Proof. cbv zeta. repeat split; vm_compute; reflexivity. Qed.

(** The corrective pass, when it runs, removes one level only: five
    levels of nesting leave two. *)
Lemma corrective_pass_leaves_nesting :
  let record := JObj [("x", JArr [JArr [JArr [JArr [JArr [JNum 1]]]]])] in
  standardize record = JObj [("x", JArr [JArr [JArr [JNum 1]]])] /\
  includes (JSON_stringify (standardize record)) "[[" = true /\
  transform_record record = JObj [("x", JArr [JArr [JNum 1]])] /\
  has_nested_array (transform_record record) = true.
Proof. cbv zeta. repeat split; vm_compute; reflexivity. Qed.

(** C5 fails on the code, by the same defect: the output of the pipeline
    for the record above still has a nested array, which a second run
    splices, so the second output differs from the first. *)
Theorem pipeline_not_idempotent :
  let record := JObj [("x", JArr [JArr [JNum 1; JArr [JNum 2]]])] in
  transform_record record = JObj [("x", JArr [JNum 1; JArr [JNum 2]])] /\
  transform_record (transform_record record) = JObj [("x", JArr [JNum 1; JNum 2])] /\
  transform_record (transform_record record) <> transform_record record.
Proof.
  cbv zeta. split; [vm_compute; reflexivity|].
  split; [vm_compute; reflexivity|].
  vm_compute. discriminate.
Qed.

(** ** Stream errors *)

Section StreamErrors.

Variable parse : string -> parse_result.
Variable ym : string -> list string.

Lemma result_run_listener (inputPath : string) (debugMode : bool)
    (l : error_listener) (err : string) (st : fstate) :
  result (run_listener l err st) = settle (result st) (Rejected err).
Proof.
  destruct l; unfold run_listener, reject, unlink_output, cleanup;
    destruct (isFinished st); reflexivity.
Qed.

(** A settled promise is not settled again, whatever happens next. *)
Lemma result_settled (inputPath : string) (debugMode : bool)
    (evs : list event) (st : fstate) :
  result st <> Pending ->
  result (fold_left (handle parse ym inputPath debugMode) evs st) = result st.
Proof.
  revert st. induction evs as [|ev r IH]; intros st Hs; [reflexivity|].
  cbn [fold_left].
  assert (Hstep : result (handle parse ym inputPath debugMode st ev) = result st).
  { unfold handle. destruct (uncaught st); [reflexivity|].
    destruct ev as [line| | |s err]; cbn [result].
    - destruct (transformEnded st); reflexivity.
    - reflexivity.
    - destruct (result st); [contradiction | reflexivity | reflexivity].
    - destruct (stream_created inputPath debugMode s); [|reflexivity].
      destruct (listener_of inputPath s) as [l|]; [|reflexivity].
      rewrite (result_run_listener inputPath debugMode).
      destruct (result st); [contradiction | reflexivity | reflexivity]. }
  rewrite IH; [exact Hstep | now rewrite Hstep].
Qed.

(** X4.  An error a listener hears, after any lines: the promise rejects
    with it, and [processFile] reports a failed job and leaves no file at
    the output path. *)
Lemma heard_error_fails_job (inputPath : string) (debugMode : bool)
    (lines : list string) (s : stream) (l : error_listener) (err : string)
    (gz : list gz_event) :
  stream_created inputPath debugMode s = true ->
  listener_of inputPath s = Some l ->
  result (processJsonlFile parse ym inputPath debugMode (map Line lines ++ [ErrorOn s err]))
  = Rejected err /\
  processFile parse ym debugMode inputPath (map Line lines ++ [ErrorOn s err; Finish]) gz
  = Some (mk_job_result false 0 0, false).
Proof.
  intros Hc Hl.
  assert (Herr : forall st, uncaught st = false ->
            handle parse ym inputPath debugMode st (ErrorOn s err) = run_listener l err st).
  { intros st Hu. unfold handle. now rewrite Hu, Hc, Hl. }
  unfold processFile, processJsonlFile.
  change [ErrorOn s err; Finish] with ([ErrorOn s err] ++ [Finish]).
  rewrite !fold_left_app, !handle_lines by reflexivity.
  cbn [fold_left]. rewrite !Herr by reflexivity.
  destruct l; split; reflexivity.
Qed.

End StreamErrors.

(** A corrupt compressed input: the decompressor fails, the job fails and
    the output is removed. *)
Lemma heard_error_fails_job_witness :
  processFile parse_empty_object (fun _ => []) false "7.jsonl.gz"
    [Line "{}"; ErrorOn Gunzip "incorrect header check"; Finish] []
  = Some (mk_job_result false 0 0, false).
Proof.
  exact (proj2 (heard_error_fails_job parse_empty_object (fun _ => []) "7.jsonl.gz" false
                  ["{}"] Gunzip InputStreamError "incorrect header check" []
                  eq_refl eq_refl)).
Defined.

(** C7 fails on the code.  For a [.gz] input the listener of
    [inputStream] is on the decompressor that [pipe] returned; the file
    read stream has none.  When reading the file fails, the error is not
    caught: the promise is never rejected, the output file stays, and
    [processFile] does not return.  For an input that is not compressed
    the same failure is heard and the job fails as the claim says. *)
Theorem file_read_error_is_uncaught :
  let parse := parse_empty_object in
  let ym := fun _ : string => @nil string in
  let st := processJsonlFile parse ym "7.jsonl.gz" false
              [Line "{}"; ErrorOn FileRead "EIO: i/o error, read"] in
  listener_of "7.jsonl.gz" FileRead = None /\
  uncaught st = true /\ result st = Pending /\ outputExists st = true /\
  processFile parse ym false "7.jsonl.gz"
    [Line "{}"; ErrorOn FileRead "EIO: i/o error, read"; Finish] [] = None /\
  processFile parse ym false "7.jsonl"
    [Line "{}"; ErrorOn FileRead "EIO: i/o error, read"; Finish] []
  = Some (mk_job_result false 0 0, false).
Proof. cbv zeta. repeat split. Qed.

(** ** Objects built by assignment *)

Section Assignments.

Variable R : string * json -> Prop.

Lemma Forall_obj_set (k : string) (v : json) (o : obj) :
  Forall R o -> R (k, v) -> Forall R (obj_set k v o).
Proof.
  intros Ho Hv. induction Ho as [|[k0 v0] r H0 Hr IH]; cbn [obj_set].
  - constructor; [assumption | constructor].
  - destruct (String.eqb k0 k); constructor; assumption.
Qed.

Lemma Forall_obj_delete (k : string) (o : obj) :
  Forall R o -> Forall R (obj_delete k o).
Proof.
  induction 1 as [|[k0 v0] r H0 Hr IH]; cbn [obj_delete]; [constructor|].
  destruct (String.eqb k0 k); [assumption | now constructor].
Qed.

(** A loop whose every turn assigns a property that satisfies [R], or
    does nothing, builds an object with distinct keys whose properties
    all satisfy [R]. *)
Lemma fold_assign (step : obj -> string * json -> obj) (o : obj) :
  (forall acc kv, In kv o ->
     step acc kv = acc \/ exists k v, step acc kv = obj_set k v acc /\ R (k, v)) ->
  forall acc, NoDup (keys acc) -> Forall R acc ->
  NoDup (keys (fold_left step o acc)) /\ Forall R (fold_left step o acc).
Proof.
  induction o as [|kv r IH]; intros Hstep acc Hnd Hacc; [now split|].
  cbn [fold_left]. apply IH.
  - intros acc' kv' Hin. apply Hstep. now right.
  - destruct (Hstep acc kv (or_introl eq_refl)) as [->|[k [v [-> _]]]];
      [assumption | now apply NoDup_keys_obj_set].
  - destruct (Hstep acc kv (or_introl eq_refl)) as [->|[k [v [-> Hv]]]];
      [assumption | now apply Forall_obj_set].
Qed.

End Assignments.

(** ** Induction on the depth of a value *)

Lemma depth_value (o : obj) (kv : string * json) :
  In kv o -> (depth (snd kv) < depth (JObj o))%nat.
Proof.
  intros Hin. pose proof (values_below_depth o) as Hb.
  unfold values_below in Hb. rewrite Forall_forall in Hb. now apply Hb.
Qed.

Lemma json_depth_ind (P : json -> Prop) :
  (forall v, (forall w, (depth w < depth v)%nat -> P w) -> P v) -> forall v, P v.
Proof.
  intros Hstep v. remember (depth v) as d eqn:Hd.
  revert v Hd. induction d as [d IH] using lt_wf_ind. intros v ->.
  apply Hstep. intros w Hw. exact (IH (depth w) Hw w eq_refl).
Qed.

(** ** Splicing *)

Section Splicing.

Lemma map_spliced_concat (f : json -> json) (l : list json) :
  map_spliced f l = map f (concat_one_level l).
Proof.
  unfold concat_one_level.
  induction l as [|x r IH]; [reflexivity|].
  destruct x; cbn [map_spliced flat_map app map]; rewrite IH;
    try reflexivity. now rewrite map_app.
Qed.

(** An element of the spliced list is a non-array element of the list or
    an element of an array of the list. *)
Lemma In_concat_one_level (y : json) (l : list json) :
  In y (concat_one_level l) ->
  (In y l /\ is_array y = false) \/ (exists sub, In (JArr sub) l /\ In y sub).
Proof.
  unfold concat_one_level. intros Hin. apply in_flat_map in Hin.
  destruct Hin as [x [Hx Hy]].
  destruct x; try (destruct Hy as [<-|[]]; left; now split).
  right. eauto.
Qed.

Lemma depth_spliced (y : json) (l : list json) :
  In y (concat_one_level l) -> (depth y < depth (JArr l))%nat.
Proof.
  intros Hin. apply In_concat_one_level in Hin.
  destruct Hin as [[Hy _]|[sub [Hsub Hy]]].
  - now apply depth_element.
  - pose proof (depth_element l _ Hsub). pose proof (depth_element sub _ Hy). lia.
Qed.

(** Splicing changes nothing in a list without arrays. *)
Lemma concat_one_level_flat (l : list json) :
  existsb is_array l = false -> concat_one_level l = l.
Proof.
  unfold concat_one_level. induction l as [|x r IH]; [reflexivity|].
  cbn [existsb flat_map]. intros H. apply orb_false_iff in H. destruct H as [Hx Hr].
  rewrite (IH Hr). destruct x; try reflexivity. discriminate.
Qed.

End Splicing.

(** ** Distinct keys are kept by every pass *)

Section WellFormed.

Lemma wf_element (l : list json) (x : json) : wf (JArr l) -> In x l -> wf x.
Proof. intros Hwf Hin. apply wf_arr in Hwf. rewrite Forall_forall in Hwf. auto. Qed.

Lemma wf_value (o : obj) (kv : string * json) : wf (JObj o) -> In kv o -> wf (snd kv).
Proof.
  intros Hwf Hin. apply wf_obj in Hwf. destruct Hwf as [_ Hv].
  rewrite Forall_forall in Hv. auto.
Qed.

Lemma wf_spliced (l : list json) (y : json) :
  wf (JArr l) -> In y (concat_one_level l) -> wf y.
Proof.
  intros Hwf Hin. apply In_concat_one_level in Hin.
  destruct Hin as [[Hy _]|[sub [Hsub Hy]]].
  - eapply wf_element; eassumption.
  - eapply wf_element; [|exact Hy]. eapply wf_element; eassumption.
Qed.

Lemma wf_built (o : obj) :
  NoDup (keys o) /\ Forall (fun kv => wf (snd kv)) o -> wf (JObj o).
Proof. apply wf_obj. Qed.

Lemma wf_flattenNestedArrays (v : json) :
  forall parentKey, wf v -> wf (flattenNestedArrays parentKey v).
Proof.
  induction v as [v IH] using json_depth_ind. intros parentKey Hwf.
  destruct v as [| | | |l|o]; try exact Hwf; cbn [flattenNestedArrays].
  - destruct (existsb is_array l).
    + destruct (key_is parentKey "date-parts").
      * destruct l as [|[| | | |first|] [|y r]]; try exact Hwf.
        eapply wf_element; [exact Hwf | now left].
      * rewrite map_spliced_concat. apply wf_arr, Forall_forall. intros z Hz.
        apply in_map_iff in Hz. destruct Hz as [y [<- Hy]].
        apply IH; [now apply depth_spliced | eapply wf_spliced; eassumption].
    + apply wf_arr, Forall_forall. intros z Hz.
      apply in_map_iff in Hz. destruct Hz as [y [<- Hy]].
      apply IH; [now apply depth_element | eapply wf_element; eassumption].
  - apply wf_built. apply fold_assign; [|constructor|constructor].
    intros acc [key value] Hin. cbn [flatten_property]. assigned. cbn [snd].
    apply IH; [exact (depth_value o _ Hin) | exact (wf_value o _ Hwf Hin)].
Qed.

Lemma wf_lastFix (v : json) : wf v -> wf (lastFix v).
Proof.
  induction v as [v IH] using json_depth_ind. intros Hwf.
  destruct v as [| | | |l|o]; try exact Hwf; cbn [lastFix].
  - rewrite map_spliced_concat. apply wf_arr, Forall_forall. intros z Hz.
    apply in_map_iff in Hz. destruct Hz as [y [<- Hy]].
    apply IH; [now apply depth_spliced | eapply wf_spliced; eassumption].
  - pose proof Hwf as Hwf'. apply wf_obj in Hwf'. destruct Hwf' as [Hnd _].
    apply wf_built. split; [now rewrite keys_map_values|].
    apply Forall_forall. intros kv Hkv. unfold map_values in Hkv.
    apply in_map_iff in Hkv. destruct Hkv as [kv0 [<- Hin]]. cbn [snd].
    apply IH; [exact (depth_value o _ Hin) | exact (wf_value o _ Hwf Hin)].
Qed.

Lemma wf_cleanNullValues (v : json) : wf v -> wf (cleanNullValues v).
Proof.
  induction v as [| | | |l IH|o IH] using json_nested_ind; intros Hwf; try exact Hwf.
  - rewrite cleanNullValues_arr. apply wf_arr, Forall_forall. intros z Hz.
    apply in_map_iff in Hz. destruct Hz as [y [<- Hy]]. apply filter_In in Hy.
    destruct Hy as [Hy _]. rewrite Forall_forall in IH.
    apply IH; [assumption | eapply wf_element; eassumption].
  - cbn [cleanNullValues]. apply wf_built. apply fold_assign; [|constructor|constructor].
    intros acc [key value] Hin. rewrite Forall_forall in IH.
    pose proof (IH _ Hin (wf_value o _ Hwf Hin)) as Hv. cbn [snd] in Hv.
    destruct value; cbn [clean_property]; try (assigned; exact Hv).
    destruct (cannot_be_null key); [|now left].
    assigned. reflexivity.
Qed.

(** Renaming rebuilds every object by assignment, so its result has
    distinct keys whatever the argument. *)
Lemma wf_replaceKeyDashes (v : json) : wf (replaceKeyDashes v).
Proof.
  induction v as [| | | |l IH|o IH] using json_nested_ind; try reflexivity.
  - cbn [replaceKeyDashes]. apply wf_arr, Forall_forall. intros z Hz.
    apply in_map_iff in Hz. destruct Hz as [y [<- Hy]].
    rewrite Forall_forall in IH. now apply IH.
  - cbn [replaceKeyDashes]. apply wf_built. apply fold_assign; [|constructor|constructor].
    intros acc [key value] Hin. right. eexists; eexists; split; [reflexivity|].
    rewrite Forall_forall in IH. exact (IH _ Hin).
Qed.

End WellFormed.

(** ** What a traversal keeps *)

Section VisitPreserves.

Variable step : obj -> obj.
Hypothesis step_depth : forall d o, values_below d o -> values_below d (step o).

Lemma visit_preserves (P Q : json -> Prop) :
  (forall v, is_object_like v = false -> P v -> Q v) ->
  (forall l, P (JArr l) -> Forall P l) ->
  (forall l, P (JArr l) -> Forall (fun x => Q (visit step x)) l ->
             Q (JArr (map (visit step) l))) ->
  (forall o, P (JObj o) -> Forall (fun kv => P (snd kv)) (step o)) ->
  (forall o, P (JObj o) -> Forall (fun kv => Q (visit step (snd kv))) (step o) ->
             Q (JObj (map_values (visit step) (step o)))) ->
  forall v, P v -> Q (visit step v).
Proof.
  intros Hs Hal Ha Hol Ho v.
  induction v as [v IH] using json_depth_ind. intros HP.
  destruct v as [| | | |l|o]; try (apply Hs; [reflexivity | exact HP]).
  - rewrite (visit_arr step step_depth). apply Ha; [exact HP|].
    pose proof (Hal l HP) as Hl. rewrite Forall_forall in Hl |- *.
    intros x Hx. apply IH; [now apply depth_element | now apply Hl].
  - rewrite (visit_obj step step_depth). apply Ho; [exact HP|].
    pose proof (Hol o HP) as Hv.
    assert (Hb : values_below (depth (JObj o)) (step o))
      by apply step_depth, values_below_depth.
    unfold values_below in Hb. rewrite Forall_forall in Hb, Hv |- *.
    intros kv Hkv. apply IH; [now apply Hb | now apply Hv].
Qed.

(** A step that keeps the keys distinct and the values well formed makes
    a traversal that keeps values well formed. *)
Lemma wf_visit :
  (forall o, wf (JObj o) -> wf (JObj (step o))) ->
  forall v, wf v -> wf (visit step v).
Proof.
  intros Hstep. apply (visit_preserves wf wf).
  - intros v _ H. exact H.
  - intros l. apply wf_arr.
  - intros l _ Hl. apply wf_arr. apply Forall_forall. intros z Hz.
    apply in_map_iff in Hz. destruct Hz as [y [<- Hy]].
    rewrite Forall_forall in Hl. now apply Hl.
  - intros o Hwf. apply Hstep in Hwf. apply wf_obj in Hwf. tauto.
  - intros o Hwf Hv. apply Hstep in Hwf. apply wf_obj in Hwf. destruct Hwf as [Hnd _].
    apply wf_built. split; [now rewrite keys_map_values|].
    apply Forall_forall. intros kv Hkv. unfold map_values in Hkv.
    apply in_map_iff in Hkv. destruct Hkv as [kv0 [<- Hin]]. cbn [snd].
    rewrite Forall_forall in Hv. now apply Hv.
Qed.

End VisitPreserves.

Section WellFormedSteps.

Lemma wf_obj_set (k : string) (v : json) (o : obj) :
  wf (JObj o) -> wf v -> wf (JObj (obj_set k v o)).
Proof.
  intros Ho Hv. apply wf_obj in Ho. destruct Ho as [Hnd Hvals].
  apply wf_built. split; [now apply NoDup_keys_obj_set|].
  now apply (Forall_obj_set (fun kv => wf (snd kv))).
Qed.

Lemma wf_obj_delete (k : string) (o : obj) : wf (JObj o) -> wf (JObj (obj_delete k o)).
Proof.
  intros Ho. apply wf_obj in Ho. destruct Ho as [Hnd Hvals].
  apply wf_built. split; [now apply NoDup_keys_obj_delete|].
  now apply (Forall_obj_delete (fun kv => wf (snd kv))).
Qed.

Lemma wf_obj_get (k : string) (v : json) (o : obj) :
  wf (JObj o) -> obj_get k o = Some v -> wf v.
Proof. intros Ho Hget. exact (wf_value o _ Ho (obj_get_In _ _ _ Hget)). Qed.

Lemma wf_fix_year (o : obj) : wf (JObj o) -> wf (JObj (fix_year o)).
Proof.
  intros Ho. unfold fix_year.
  destruct (obj_get "year" o) as [[| | |yearValue| |]|]; try exact Ho.
  assert (Hmove : wf (JObj (obj_delete "year" (obj_set "year_string" (JStr yearValue) o))))
    by (apply wf_obj_delete, wf_obj_set; [assumption | reflexivity]).
  destruct (negb (all_digits yearValue)); [exact Hmove|].
  destruct (parseInt_string yearValue); [|exact Hmove].
  apply wf_obj_set; [assumption | reflexivity].
Qed.

Lemma wf_fixBigQueryIssues (v : json) : wf v -> wf (fixBigQueryIssues v).
Proof. apply wf_visit; [apply fix_year_depth | apply wf_fix_year]. Qed.

Lemma wf_convert_own_date_parts (o : obj) :
  wf (JObj o) -> wf (JObj (convert_own_date_parts o)).
Proof.
  intros Ho. unfold convert_own_date_parts.
  destruct (obj_get "date-parts" o) as [dateParts|]; [|exact Ho].
  apply wf_obj_delete.
  destruct (convertDatePartsToISOString (unwrap_date_parts dateParts)); [|exact Ho].
  apply wf_obj_set; [assumption | reflexivity].
Qed.

Lemma wf_convert_date_field (o : obj) (field : string) :
  wf (JObj o) -> wf (JObj (convert_date_field o field)).
Proof.
  intros Ho. unfold convert_date_field.
  destruct (obj_get field o) as [fv|]; [|exact Ho].
  destruct (truthy fv && is_object_like fv); [|exact Ho].
  destruct (get_prop fv "date-parts") as [dateParts|]; [|exact Ho].
  destruct (truthy dateParts); [|exact Ho].
  destruct (convertDatePartsToISOString (unwrap_date_parts dateParts)).
  - apply wf_obj_set; [assumption | reflexivity].
  - now apply wf_obj_delete.
Qed.

Lemma wf_convert_license_start (license : json) :
  wf license -> wf (convert_license_start license).
Proof.
  intros Hl. unfold convert_license_start.
  destruct license as [| | | | |lo]; try exact Hl.
  destruct (obj_get "start" lo) as [start|]; [|exact Hl].
  destruct (truthy start); [|exact Hl].
  destruct (get_prop start "date-parts") as [dateParts|]; [|exact Hl].
  destruct (truthy dateParts); [|exact Hl].
  destruct (convertDatePartsToISOString (unwrap_date_parts dateParts)).
  - apply wf_obj_set; [assumption | reflexivity].
  - now apply wf_obj_delete.
Qed.

Lemma wf_convert_licenses (o : obj) : wf (JObj o) -> wf (JObj (convert_licenses o)).
Proof.
  intros Ho. unfold convert_licenses.
  destruct (obj_get "license" o) as [[| | | |licenses|]|] eqn:Hl; try exact Ho.
  apply wf_obj_set; [assumption|].
  pose proof (wf_obj_get _ _ _ Ho Hl) as Hls.
  apply wf_arr, Forall_forall. intros z Hz.
  apply in_map_iff in Hz. destruct Hz as [y [<- Hy]].
  apply wf_convert_license_start. eapply wf_element; eassumption.
Qed.

Lemma wf_date_step (o : obj) : wf (JObj o) -> wf (JObj (date_step o)).
Proof.
  intros Ho. unfold date_step. apply wf_convert_licenses.
  generalize (wf_convert_own_date_parts o Ho).
  generalize (convert_own_date_parts o) as o1.
  induction dateFields as [|f fs IH]; intros o1 H1; [exact H1|].
  cbn [fold_left]. apply IH. now apply wf_convert_date_field.
Qed.

Lemma wf_processDateFields (v : json) : wf v -> wf (processDateFields v).
Proof. apply wf_visit; [apply date_step_depth | apply wf_date_step]. Qed.

Lemma wf_standardize (v : json) : wf (standardize v).
Proof. apply wf_replaceKeyDashes. Qed.

Lemma wf_transform_record (v : json) : wf (transform_record v).
Proof.
  unfold transform_record.
  destruct (includes (JSON_stringify (standardize v)) "[[");
    [apply wf_lastFix|]; apply wf_standardize.
Qed.

End WellFormedSteps.

(** ** Hyphens in keys *)

Section Hyphens.

Lemma includes_dash_cons (a : ascii) (s : string) :
  includes (String a s) "-" = Ascii.eqb a "-"%char || includes s "-".
Proof.
  cbn [includes String.prefix].
  destruct (ascii_dec "-"%char a) as [<-|Hne].
  - destruct s; reflexivity.
  - destruct (Ascii.eqb_spec a "-"%char) as [->|_]; [contradiction | reflexivity].
Qed.

Lemma replace_dashes_hyphen_free (k : string) : includes (replace_dashes k) "-" = false.
Proof.
  induction k as [|a k IH]; [reflexivity|].
  change (replace_dashes (String a k))
    with (String (if Ascii.eqb a "-"%char then "_"%char else a) (replace_dashes k)).
  rewrite includes_dash_cons, IH, orb_false_r.
  destruct (Ascii.eqb a "-"%char) eqn:E; [reflexivity | exact E].
Qed.

(** A key without a hyphen is its own new name. *)
Lemma replace_dashes_id (k : string) : includes k "-" = false -> replace_dashes k = k.
Proof.
  induction k as [|a k IH]; [reflexivity|].
  rewrite includes_dash_cons. intros H. apply orb_false_iff in H. destruct H as [Ha Hk].
  change (replace_dashes (String a k))
    with (String (if Ascii.eqb a "-"%char then "_"%char else a) (replace_dashes k)).
  now rewrite Ha, IH.
Qed.

Lemma hyphen_free_built (o : obj) :
  Forall (fun kv => includes (fst kv) "-" = false /\ hyphen_free (snd kv) = true) o ->
  hyphen_free (JObj o) = true.
Proof.
  intros H. cbn [hyphen_free]. apply forallb_forall. rewrite Forall_forall in H.
  intros kv Hkv. destruct (H kv Hkv) as [-> ->]. reflexivity.
Qed.

(** The specification's rule on key names: whatever the argument, no key
    of the renamed value has a hyphen, at any depth. *)
Lemma hyphen_free_replaceKeyDashes (v : json) : hyphen_free (replaceKeyDashes v) = true.
Proof.
  induction v as [| | | |l IH|o IH] using json_nested_ind; try reflexivity.
  - cbn [replaceKeyDashes hyphen_free]. apply forallb_forall. intros z Hz.
    apply in_map_iff in Hz. destruct Hz as [y [<- Hy]].
    rewrite Forall_forall in IH. now apply IH.
  - cbn [replaceKeyDashes]. apply hyphen_free_built.
    apply (fold_assign
             (fun kv => includes (fst kv) "-" = false /\ hyphen_free (snd kv) = true)
             (rename_property replaceKeyDashes) o); [|constructor|constructor].
    intros acc [key value] Hin. right. eexists; eexists; split; [reflexivity|].
    cbn [fst snd]. split; [apply replace_dashes_hyphen_free|].
    rewrite Forall_forall in IH. exact (IH _ Hin).
Qed.

Lemma hyphen_free_element (l : list json) (x : json) :
  hyphen_free (JArr l) = true -> In x l -> hyphen_free x = true.
Proof. cbn [hyphen_free]. rewrite forallb_forall. auto. Qed.

Lemma hyphen_free_value (o : obj) (kv : string * json) :
  hyphen_free (JObj o) = true -> In kv o ->
  includes (fst kv) "-" = false /\ hyphen_free (snd kv) = true.
Proof.
  cbn [hyphen_free]. rewrite forallb_forall. intros H Hin.
  specialize (H kv Hin). apply andb_true_iff in H. destruct H as [H1 H2].
  apply negb_true_iff in H1. now split.
Qed.

Lemma hyphen_free_spliced (l : list json) (y : json) :
  hyphen_free (JArr l) = true -> In y (concat_one_level l) -> hyphen_free y = true.
Proof.
  intros Hl Hin. apply In_concat_one_level in Hin.
  destruct Hin as [[Hy _]|[sub [Hsub Hy]]].
  - eapply hyphen_free_element; eassumption.
  - eapply hyphen_free_element; [|exact Hy]. eapply hyphen_free_element; eassumption.
Qed.

Lemma hyphen_free_lastFix (v : json) : hyphen_free v = true -> hyphen_free (lastFix v) = true.
Proof.
  induction v as [v IH] using json_depth_ind. intros Hv.
  destruct v as [| | | |l|o]; try exact Hv; cbn [lastFix hyphen_free].
  - rewrite map_spliced_concat. apply forallb_forall. intros z Hz.
    apply in_map_iff in Hz. destruct Hz as [y [<- Hy]].
    apply IH; [now apply depth_spliced | eapply hyphen_free_spliced; eassumption].
  - apply forallb_forall. intros kv Hkv. unfold map_values in Hkv.
    apply in_map_iff in Hkv. destruct Hkv as [kv0 [<- Hin]]. cbn [fst snd].
    destruct (hyphen_free_value o kv0 Hv Hin) as [-> Hh]. cbn [negb andb].
    apply IH; [exact (depth_value o _ Hin) | exact Hh].
Qed.

(** No key of a written record has a hyphen. *)
Lemma hyphen_free_transform_record (v : json) : hyphen_free (transform_record v) = true.
Proof.
  unfold transform_record, standardize.
  destruct (includes _ "[["); [apply hyphen_free_lastFix|];
    apply hyphen_free_replaceKeyDashes.
Qed.

End Hyphens.

(** ** Nulls after cleaning *)

Section NullFree.

Lemma null_free_built_arr (l : list json) :
  Forall clean_value l -> null_free (JArr l) = true.
Proof.
  intros H. cbn [null_free]. apply forallb_forall. rewrite Forall_forall in H.
  intros x Hx. destruct (H x Hx) as [-> ->]. reflexivity.
Qed.

Lemma null_free_built_obj (o : obj) :
  Forall (fun kv => clean_value (snd kv)) o -> null_free (JObj o) = true.
Proof.
  intros H. cbn [null_free]. apply forallb_forall. rewrite Forall_forall in H.
  intros kv Hkv. destruct (H kv Hkv) as [-> ->]. reflexivity.
Qed.

Lemma null_free_element (l : list json) (x : json) :
  null_free (JArr l) = true -> In x l -> clean_value x.
Proof.
  cbn [null_free]. rewrite forallb_forall. intros H Hin. specialize (H x Hin).
  apply andb_true_iff in H. destruct H as [H1 H2]. apply negb_true_iff in H1. now split.
Qed.

Lemma null_free_value (o : obj) (kv : string * json) :
  null_free (JObj o) = true -> In kv o -> clean_value (snd kv).
Proof.
  cbn [null_free]. rewrite forallb_forall. intros H Hin. specialize (H kv Hin).
  apply andb_true_iff in H. destruct H as [H1 H2]. apply negb_true_iff in H1. now split.
Qed.

Lemma null_free_spliced (l : list json) (y : json) :
  null_free (JArr l) = true -> In y (concat_one_level l) -> clean_value y.
Proof.
  intros Hl Hin. apply In_concat_one_level in Hin.
  destruct Hin as [[Hy _]|[sub [Hsub Hy]]].
  - eapply null_free_element; eassumption.
  - destruct (null_free_element l _ Hl Hsub) as [_ Hs].
    eapply null_free_element; eassumption.
Qed.

Lemma is_null_replaceKeyDashes (v : json) : is_null (replaceKeyDashes v) = is_null v.
Proof. destruct v; reflexivity. Qed.

Lemma is_null_lastFix (v : json) : is_null (lastFix v) = is_null v.
Proof. destruct v; reflexivity. Qed.

Lemma null_free_replaceKeyDashes (v : json) :
  null_free v = true -> null_free (replaceKeyDashes v) = true.
Proof.
  induction v as [| | | |l IH|o IH] using json_nested_ind; intros Hv; try reflexivity.
  - cbn [replaceKeyDashes]. apply null_free_built_arr, Forall_forall. intros z Hz.
    apply in_map_iff in Hz. destruct Hz as [y [<- Hy]].
    destruct (null_free_element l y Hv Hy) as [Hn Hf].
    rewrite Forall_forall in IH. split; [now rewrite is_null_replaceKeyDashes | now apply IH].
  - cbn [replaceKeyDashes]. apply null_free_built_obj.
    apply (fold_assign (fun kv => clean_value (snd kv))
             (rename_property replaceKeyDashes) o); [|constructor|constructor].
    intros acc [key value] Hin. right. eexists; eexists; split; [reflexivity|].
    destruct (null_free_value o _ Hv Hin) as [Hn Hf]. cbn [snd] in *.
    rewrite Forall_forall in IH.
    split; [now rewrite is_null_replaceKeyDashes | exact (IH _ Hin Hf)].
Qed.

Lemma null_free_lastFix (v : json) : null_free v = true -> null_free (lastFix v) = true.
Proof.
  induction v as [v IH] using json_depth_ind. intros Hv.
  destruct v as [| | | |l|o]; try exact Hv; cbn [lastFix].
  - rewrite map_spliced_concat. apply null_free_built_arr, Forall_forall. intros z Hz.
    apply in_map_iff in Hz. destruct Hz as [y [<- Hy]].
    destruct (null_free_spliced l y Hv Hy) as [Hn Hf].
    split; [now rewrite is_null_lastFix | apply IH; [now apply depth_spliced | exact Hf]].
  - apply null_free_built_obj, Forall_forall. intros kv Hkv. unfold map_values in Hkv.
    apply in_map_iff in Hkv. destruct Hkv as [kv0 [<- Hin]]. cbn [snd].
    destruct (null_free_value o _ Hv Hin) as [Hn Hf].
    split; [now rewrite is_null_lastFix | apply IH; [exact (depth_value o _ Hin) | exact Hf]].
Qed.

(** No null is left below the root of a written record. *)
Lemma null_free_transform_record (v : json) : null_free (transform_record v) = true.
Proof.
  unfold transform_record, standardize.
  destruct (includes _ "[["); [apply null_free_lastFix|];
    apply null_free_replaceKeyDashes, cleanNullValues_null_free.
Qed.

End NullFree.

(** ** The year after the later passes *)

Section YearKept.

Lemma replace_dashes_char (a b : ascii) :
  (if Ascii.eqb a "-"%char then "_"%char else a) = b -> b <> "_"%char -> a = b.
Proof.
  destruct (Ascii.eqb a "-"%char); [intros <- H; contradiction | trivial].
Qed.

(** Only the key [year] is renamed to [year]. *)
Lemma replace_dashes_year (k : string) : replace_dashes k = "year" -> k = "year".
Proof.
  destruct k as [|c1 [|c2 [|c3 [|c4 [|c5 k]]]]]; try discriminate.
  intros H. injection H as H1 H2 H3 H4.
  apply replace_dashes_char in H1; [|discriminate].
  apply replace_dashes_char in H2; [|discriminate].
  apply replace_dashes_char in H3; [|discriminate].
  apply replace_dashes_char in H4; [|discriminate].
  now subst.
Qed.

Lemma year_after_renaming (f : json -> json) (o acc : obj) :
  NoDup (keys o) ->
  obj_get "year" (fold_left (rename_property f) o acc)
  = match obj_get "year" o with
    | Some v => Some (f v)
    | None => obj_get "year" acc
    end.
Proof.
  revert acc. induction o as [|[key value] r IH]; intros acc Hnd; [reflexivity|].
  inversion Hnd as [|? ? Hk Hr]; subst.
  cbn [fold_left rename_property obj_get]. rewrite (IH _ Hr).
  destruct (String.eqb key "year") eqn:E.
  - apply String.eqb_eq in E. subst key.
    apply obj_get_None_keys in Hk. rewrite Hk. apply obj_get_set_same.
  - destruct (obj_get "year" r); [reflexivity|].
    apply obj_get_set_other. intros Heq. apply replace_dashes_year in Heq.
    subst key. discriminate E.
Qed.

Lemma yns_element (l : list json) (x : json) :
  year_never_string (JArr l) = true -> In x l -> year_never_string x = true.
Proof. cbn [year_never_string]. rewrite forallb_forall. auto. Qed.

Lemma yns_value (o : obj) (kv : string * json) :
  year_never_string (JObj o) = true -> In kv o -> year_never_string (snd kv) = true.
Proof.
  cbn [year_never_string]. intros H Hin. apply andb_true_iff in H. destruct H as [_ H].
  rewrite forallb_forall in H. auto.
Qed.

Lemma yns_year (o : obj) :
  year_never_string (JObj o) = true ->
  match obj_get "year" o with Some v => is_string v = false | None => True end.
Proof.
  cbn [year_never_string]. intros H. apply andb_true_iff in H. destruct H as [H _].
  destruct (obj_get "year" o) as [[]|]; try reflexivity; try exact I. discriminate H.
Qed.

Lemma yns_built (o : obj) :
  match obj_get "year" o with Some v => is_string v = false | None => True end ->
  Forall (fun kv => year_never_string (snd kv) = true) o ->
  year_never_string (JObj o) = true.
Proof.
  intros Hy Hv. cbn [year_never_string]. apply andb_true_iff. split.
  - destruct (obj_get "year" o) as [[]|]; try reflexivity. discriminate.
  - apply forallb_forall. now rewrite Forall_forall in Hv.
Qed.

Lemma yns_spliced (l : list json) (y : json) :
  year_never_string (JArr l) = true -> In y (concat_one_level l) ->
  year_never_string y = true.
Proof.
  intros Hl Hin. apply In_concat_one_level in Hin.
  destruct Hin as [[Hy _]|[sub [Hsub Hy]]].
  - eapply yns_element; eassumption.
  - eapply yns_element; [|exact Hy]. eapply yns_element; eassumption.
Qed.

Lemma is_string_cleanNullValues (v : json) : is_string (cleanNullValues v) = is_string v.
Proof. destruct v; reflexivity. Qed.

Lemma is_string_replaceKeyDashes (v : json) : is_string (replaceKeyDashes v) = is_string v.
Proof. destruct v; reflexivity. Qed.

Lemma is_string_lastFix (v : json) : is_string (lastFix v) = is_string v.
Proof. destruct v; reflexivity. Qed.

Lemma yns_cleanNullValues (v : json) :
  wf v -> year_never_string v = true -> year_never_string (cleanNullValues v) = true.
Proof.
  induction v as [| | | |l IH|o IH] using json_nested_ind; intros Hwf Hv; try reflexivity.
  - rewrite cleanNullValues_arr. cbn [year_never_string]. apply forallb_forall.
    intros z Hz. apply in_map_iff in Hz. destruct Hz as [y [<- Hy]].
    apply filter_In in Hy. destruct Hy as [Hy _]. rewrite Forall_forall in IH.
    apply IH; [assumption | eapply wf_element; eassumption | eapply yns_element; eassumption].
  - pose proof Hwf as Hwf'. apply wf_obj in Hwf'. destruct Hwf' as [Hnd _].
    rewrite cleanNullValues_own by assumption. apply yns_built.
    + rewrite obj_get_cleaned_own by reflexivity.
      rewrite obj_get_cleaned by assumption. pose proof (yns_year o Hv) as Hy.
      destruct (obj_get "year" o) as [[]|]; try exact I; try reflexivity.
      discriminate Hy.
    + apply Forall_forall. intros kv Hkv. apply in_map_iff in Hkv.
      destruct Hkv as [[key value] [<- Hin]]. apply filter_In in Hin.
      destruct Hin as [Hin _]. cbn [cleaned snd]. rewrite Forall_forall in IH.
      pose proof (IH _ Hin (wf_value o _ Hwf Hin) (yns_value o _ Hv Hin)) as Hc.
      destruct value; exact Hc.
Qed.

Lemma yns_replaceKeyDashes (v : json) :
  wf v -> year_never_string v = true -> year_never_string (replaceKeyDashes v) = true.
Proof.
  induction v as [| | | |l IH|o IH] using json_nested_ind; intros Hwf Hv; try reflexivity.
  - cbn [replaceKeyDashes year_never_string]. apply forallb_forall.
    intros z Hz. apply in_map_iff in Hz. destruct Hz as [y [<- Hy]].
    rewrite Forall_forall in IH.
    apply IH; [assumption | eapply wf_element; eassumption | eapply yns_element; eassumption].
  - pose proof Hwf as Hwf'. apply wf_obj in Hwf'. destruct Hwf' as [Hnd _].
    cbn [replaceKeyDashes]. apply yns_built.
    + rewrite year_after_renaming by assumption. pose proof (yns_year o Hv) as Hy.
      destruct (obj_get "year" o) as [y|]; [|exact I].
      now rewrite is_string_replaceKeyDashes.
    + apply (fold_assign (fun kv => year_never_string (snd kv) = true)
               (rename_property replaceKeyDashes) o); [|constructor|constructor].
      intros acc [key value] Hin. right. eexists; eexists; split; [reflexivity|].
      rewrite Forall_forall in IH.
      exact (IH _ Hin (wf_value o _ Hwf Hin) (yns_value o _ Hv Hin)).
Qed.

Lemma yns_lastFix (v : json) :
  year_never_string v = true -> year_never_string (lastFix v) = true.
Proof.
  induction v as [v IH] using json_depth_ind. intros Hv.
  destruct v as [| | | |l|o]; try exact Hv; cbn [lastFix].
  - rewrite map_spliced_concat. cbn [year_never_string]. apply forallb_forall.
    intros z Hz. apply in_map_iff in Hz. destruct Hz as [y [<- Hy]].
    apply IH; [now apply depth_spliced | eapply yns_spliced; eassumption].
  - apply yns_built.
    + rewrite obj_get_map_values. pose proof (yns_year o Hv) as Hy.
      destruct (obj_get "year" o) as [y|]; [|exact I].
      cbn [option_map]. now rewrite is_string_lastFix.
    + apply Forall_forall. intros kv Hkv. unfold map_values in Hkv.
      apply in_map_iff in Hkv. destruct Hkv as [kv0 [<- Hin]]. cbn [snd].
      apply IH; [exact (depth_value o _ Hin) | exact (yns_value o _ Hv Hin)].
Qed.

(** In a written record no [year] is a string. *)
Lemma yns_transform_record (v : json) :
  wf v -> year_never_string (transform_record v) = true.
Proof.
  intros Hwf. unfold transform_record, standardize.
  assert (Hfixed : wf (fixBigQueryIssues (processDateFields (flattenNestedArrays None v))))
    by now apply wf_fixBigQueryIssues, wf_processDateFields, wf_flattenNestedArrays.
  assert (Hstd : year_never_string
            (replaceKeyDashes (cleanNullValues
               (fixBigQueryIssues (processDateFields (flattenNestedArrays None v))))) = true).
  { apply yns_replaceKeyDashes; [now apply wf_cleanNullValues|].
    apply yns_cleanNullValues; [assumption | apply fixBigQueryIssues_year_never_string]. }
  destruct (includes _ "[["); [now apply yns_lastFix | assumption].
Qed.

End YearKept.

(** ** Keys no pass introduces *)

Section KeysKept.

Variable bad : string -> bool.
Hypothesis date_allowed : bad "date" = false.
Hypothesis year_string_allowed : bad "year_string" = false.

Lemma no_key_element (l : list json) (x : json) :
  no_key bad (JArr l) = true -> In x l -> no_key bad x = true.
Proof. cbn [no_key]. rewrite forallb_forall. auto. Qed.

Lemma no_key_property (o : obj) (kv : string * json) :
  no_key bad (JObj o) = true -> In kv o ->
  bad (fst kv) = false /\ no_key bad (snd kv) = true.
Proof. intros H Hin. apply no_key_obj in H. rewrite Forall_forall in H. auto. Qed.

Lemma no_key_built (o : obj) :
  Forall (fun kv => bad (fst kv) = false /\ no_key bad (snd kv) = true) o ->
  no_key bad (JObj o) = true.
Proof.
  intros H. cbn [no_key]. apply forallb_forall. intros kv Hin.
  rewrite Forall_forall in H. destruct (H kv Hin) as [H1 H2]. now rewrite H1, H2.
Qed.

Lemma no_key_built_arr (l : list json) :
  Forall (fun x => no_key bad x = true) l -> no_key bad (JArr l) = true.
Proof. intros H. cbn [no_key]. apply forallb_forall. now rewrite Forall_forall in H. Qed.

Lemma no_key_spliced (l : list json) (y : json) :
  no_key bad (JArr l) = true -> In y (concat_one_level l) -> no_key bad y = true.
Proof.
  intros Hl Hin. apply In_concat_one_level in Hin.
  destruct Hin as [[Hy _]|[sub [Hsub Hy]]].
  - eapply no_key_element; eassumption.
  - eapply no_key_element; [|exact Hy]. eapply no_key_element; eassumption.
Qed.

Lemma no_key_flattenNestedArrays (v : json) :
  forall parentKey,
  no_key bad v = true -> no_key bad (flattenNestedArrays parentKey v) = true.
Proof.
  induction v as [v IH] using json_depth_ind. intros parentKey Hv.
  destruct v as [| | | |l|o]; try exact Hv; cbn [flattenNestedArrays].
  - destruct (existsb is_array l).
    + destruct (key_is parentKey "date-parts").
      * destruct l as [|[| | | |first|] [|y r]]; try exact Hv.
        eapply no_key_element; [exact Hv | now left].
      * rewrite map_spliced_concat. apply no_key_built_arr, Forall_forall. intros z Hz.
        apply in_map_iff in Hz. destruct Hz as [y [<- Hy]].
        apply IH; [now apply depth_spliced | eapply no_key_spliced; eassumption].
    + apply no_key_built_arr, Forall_forall. intros z Hz.
      apply in_map_iff in Hz. destruct Hz as [y [<- Hy]].
      apply IH; [now apply depth_element | eapply no_key_element; eassumption].
  - apply no_key_built.
    apply (fold_assign (fun kv => bad (fst kv) = false /\ no_key bad (snd kv) = true)
             (flatten_property flattenNestedArrays) o); [|constructor|constructor].
    intros acc [key value] Hin. cbn [flatten_property]. assigned.
    destruct (no_key_property o _ Hv Hin) as [Hk Hval]. cbn [fst snd] in *.
    split; [exact Hk|]. apply IH; [exact (depth_value o _ Hin) | exact Hval].
Qed.

Lemma no_key_lastFix (v : json) :
  no_key bad v = true -> no_key bad (lastFix v) = true.
Proof.
  induction v as [v IH] using json_depth_ind. intros Hv.
  destruct v as [| | | |l|o]; try exact Hv; cbn [lastFix].
  - rewrite map_spliced_concat. apply no_key_built_arr, Forall_forall. intros z Hz.
    apply in_map_iff in Hz. destruct Hz as [y [<- Hy]].
    apply IH; [now apply depth_spliced | eapply no_key_spliced; eassumption].
  - apply no_key_built, Forall_forall. intros kv Hkv. unfold map_values in Hkv.
    apply in_map_iff in Hkv. destruct Hkv as [kv0 [<- Hin]]. cbn [fst snd].
    destruct (no_key_property o _ Hv Hin) as [Hk Hval].
    split; [exact Hk|]. apply IH; [exact (depth_value o _ Hin) | exact Hval].
Qed.

Lemma no_key_cleanNullValues (v : json) :
  no_key bad v = true -> no_key bad (cleanNullValues v) = true.
Proof.
  induction v as [| | | |l IH|o IH] using json_nested_ind; intros Hv; try reflexivity.
  - rewrite cleanNullValues_arr. apply no_key_built_arr, Forall_forall. intros z Hz.
    apply in_map_iff in Hz. destruct Hz as [y [<- Hy]]. apply filter_In in Hy.
    destruct Hy as [Hy _]. rewrite Forall_forall in IH.
    apply IH; [assumption | eapply no_key_element; eassumption].
  - cbn [cleanNullValues]. apply no_key_built.
    apply (fold_assign (fun kv => bad (fst kv) = false /\ no_key bad (snd kv) = true)
             (clean_property cleanNullValues) o); [|constructor|constructor].
    intros acc [key value] Hin.
    destruct (no_key_property o _ Hv Hin) as [Hk Hval]. cbn [fst snd] in *.
    rewrite Forall_forall in IH. pose proof (IH _ Hin Hval) as Hc. cbn [snd] in Hc.
    destruct value; cbn [clean_property]; try (assigned; split; [exact Hk | exact Hc]).
    destruct (cannot_be_null key); [|now left].
    assigned. split; [exact Hk | reflexivity].
Qed.

(** A step that brings in no such key makes a traversal that brings in
    none. *)
Lemma no_key_visit (step : obj -> obj) :
  (forall d o, values_below d o -> values_below d (step o)) ->
  (forall o, no_key bad (JObj o) = true -> no_key bad (JObj (step o)) = true) ->
  forall v, no_key bad v = true -> no_key bad (visit step v) = true.
Proof.
  intros step_depth Hstep.
  apply (visit_preserves step step_depth
           (fun v => no_key bad v = true) (fun v => no_key bad v = true)).
  - intros v _ H. exact H.
  - intros l Hl. apply Forall_forall. intros x Hx. eapply no_key_element; eassumption.
  - intros l _ Hl. apply no_key_built_arr, Forall_forall. intros z Hz.
    apply in_map_iff in Hz. destruct Hz as [y [<- Hy]].
    rewrite Forall_forall in Hl. now apply Hl.
  - intros o Ho. apply Hstep in Ho. revert Ho. generalize (step o) as o1. intros o1 Ho.
    apply Forall_forall. intros kv Hin. exact (proj2 (no_key_property _ _ Ho Hin)).
  - intros o Ho Hv. apply Hstep in Ho. revert Ho Hv. generalize (step o) as o1.
    intros o1 Ho Hv. apply no_key_built, Forall_forall. intros kv Hkv.
    unfold map_values in Hkv. apply in_map_iff in Hkv.
    destruct Hkv as [kv0 [<- Hin]]. cbn [fst snd].
    split; [exact (proj1 (no_key_property _ _ Ho Hin))|].
    rewrite Forall_forall in Hv. now apply Hv.
Qed.

Lemma no_key_obj_set (k : string) (v : json) (o : obj) :
  bad k = false -> no_key bad (JObj o) = true -> no_key bad v = true ->
  no_key bad (JObj (obj_set k v o)) = true.
Proof.
  intros Hk Ho Hv. apply no_key_built.
  apply (Forall_obj_set (fun kv => bad (fst kv) = false /\ no_key bad (snd kv) = true));
    [now apply no_key_obj | now split].
Qed.

Lemma no_key_obj_delete (k : string) (o : obj) :
  no_key bad (JObj o) = true -> no_key bad (JObj (obj_delete k o)) = true.
Proof.
  intros Ho. apply no_key_built.
  apply (Forall_obj_delete (fun kv => bad (fst kv) = false /\ no_key bad (snd kv) = true)).
  now apply no_key_obj.
Qed.

Lemma no_key_obj_get (k : string) (v : json) (o : obj) :
  no_key bad (JObj o) = true -> obj_get k o = Some v ->
  bad k = false /\ no_key bad v = true.
Proof. intros Ho Hget. exact (no_key_property o (k, v) Ho (obj_get_In _ _ _ Hget)). Qed.

Lemma no_key_fix_year (o : obj) :
  no_key bad (JObj o) = true -> no_key bad (JObj (fix_year o)) = true.
Proof.
  intros Ho. unfold fix_year.
  destruct (obj_get "year" o) as [[| | |yearValue| |]|] eqn:Hy; try exact Ho.
  assert (Hmove : no_key bad
            (JObj (obj_delete "year" (obj_set "year_string" (JStr yearValue) o))) = true)
    by (apply no_key_obj_delete, no_key_obj_set;
        [exact year_string_allowed | assumption | reflexivity]).
  destruct (negb (all_digits yearValue)); [exact Hmove|].
  destruct (parseInt_string yearValue); [|exact Hmove].
  apply no_key_obj_set; [exact (proj1 (no_key_obj_get _ _ _ Ho Hy)) | assumption | reflexivity].
Qed.

Lemma no_key_fixBigQueryIssues (v : json) :
  no_key bad v = true -> no_key bad (fixBigQueryIssues v) = true.
Proof. apply no_key_visit; [apply fix_year_depth | apply no_key_fix_year]. Qed.

Lemma no_key_convert_own_date_parts (o : obj) :
  no_key bad (JObj o) = true -> no_key bad (JObj (convert_own_date_parts o)) = true.
Proof.
  intros Ho. unfold convert_own_date_parts.
  destruct (obj_get "date-parts" o) as [dateParts|]; [|exact Ho].
  apply no_key_obj_delete.
  destruct (convertDatePartsToISOString (unwrap_date_parts dateParts)); [|exact Ho].
  apply no_key_obj_set; [exact date_allowed | assumption | reflexivity].
Qed.

Lemma no_key_convert_date_field (o : obj) (field : string) :
  no_key bad (JObj o) = true -> no_key bad (JObj (convert_date_field o field)) = true.
Proof.
  intros Ho. unfold convert_date_field.
  destruct (obj_get field o) as [fv|] eqn:Hf; [|exact Ho].
  destruct (truthy fv && is_object_like fv); [|exact Ho].
  destruct (get_prop fv "date-parts") as [dateParts|]; [|exact Ho].
  destruct (truthy dateParts); [|exact Ho].
  destruct (convertDatePartsToISOString (unwrap_date_parts dateParts)).
  - apply no_key_obj_set;
      [exact (proj1 (no_key_obj_get _ _ _ Ho Hf)) | assumption | reflexivity].
  - now apply no_key_obj_delete.
Qed.

Lemma no_key_convert_license_start (license : json) :
  no_key bad license = true -> no_key bad (convert_license_start license) = true.
Proof.
  intros Hl. unfold convert_license_start.
  destruct license as [| | | | |lo]; try exact Hl.
  destruct (obj_get "start" lo) as [start|] eqn:Hs; [|exact Hl].
  destruct (truthy start); [|exact Hl].
  destruct (get_prop start "date-parts") as [dateParts|]; [|exact Hl].
  destruct (truthy dateParts); [|exact Hl].
  destruct (convertDatePartsToISOString (unwrap_date_parts dateParts)).
  - apply no_key_obj_set;
      [exact (proj1 (no_key_obj_get _ _ _ Hl Hs)) | assumption | reflexivity].
  - now apply no_key_obj_delete.
Qed.

Lemma no_key_convert_licenses (o : obj) :
  no_key bad (JObj o) = true -> no_key bad (JObj (convert_licenses o)) = true.
Proof.
  intros Ho. unfold convert_licenses.
  destruct (obj_get "license" o) as [[| | | |licenses|]|] eqn:Hl; try exact Ho.
  destruct (no_key_obj_get _ _ _ Ho Hl) as [Hk Hls].
  apply no_key_obj_set; [exact Hk | assumption|].
  apply no_key_built_arr, Forall_forall. intros z Hz.
  apply in_map_iff in Hz. destruct Hz as [y [<- Hy]].
  apply no_key_convert_license_start. eapply no_key_element; eassumption.
Qed.

Lemma no_key_date_step (o : obj) :
  no_key bad (JObj o) = true -> no_key bad (JObj (date_step o)) = true.
Proof.
  intros Ho. unfold date_step. apply no_key_convert_licenses.
  generalize (no_key_convert_own_date_parts o Ho).
  generalize (convert_own_date_parts o) as o1.
  induction dateFields as [|f fs IH]; intros o1 H1; [exact H1|].
  cbn [fold_left]. apply IH. now apply no_key_convert_date_field.
Qed.

Lemma no_key_processDateFields (v : json) :
  no_key bad v = true -> no_key bad (processDateFields v) = true.
Proof. apply no_key_visit; [apply date_step_depth | apply no_key_date_step]. Qed.

End KeysKept.

(** Renaming a value none of whose keys is renamed to [__proto__] gives
    a value without that key. *)
Lemma own_proto_free_replaceKeyDashes (v : json) :
  proto_free v = true -> own_proto_free (replaceKeyDashes v) = true.
Proof.
  unfold own_proto_free, proto_free.
  induction v as [| | | |l IH|o IH] using json_nested_ind; intros Hv; try reflexivity.
  - cbn [replaceKeyDashes]. apply no_key_built_arr, Forall_forall. intros z Hz.
    apply in_map_iff in Hz. destruct Hz as [y [<- Hy]]. rewrite Forall_forall in IH.
    apply IH; [assumption | eapply no_key_element; eassumption].
  - cbn [replaceKeyDashes]. apply no_key_built.
    apply (fold_assign
             (fun kv => String.eqb (fst kv) "__proto__" = false /\
                        no_key (fun key => String.eqb key "__proto__") (snd kv) = true)
             (rename_property replaceKeyDashes) o); [|constructor|constructor].
    intros acc [key value] Hin. right. eexists; eexists; split; [reflexivity|].
    destruct (no_key_property _ o _ Hv Hin) as [Hk Hval]. cbn [fst snd] in *.
    split; [exact Hk|]. rewrite Forall_forall in IH. exact (IH _ Hin Hval).
Qed.

(** The record written for a record none of whose keys is, or is renamed
    to, [__proto__] has no such key. *)
Lemma own_proto_free_transform_record (v : json) :
  proto_free v = true -> own_proto_free (transform_record v) = true.
Proof.
  intros Hv.
  assert (Hs : own_proto_free (standardize v) = true).
  { unfold standardize. apply own_proto_free_replaceKeyDashes. unfold proto_free.
    apply no_key_cleanNullValues.
    apply no_key_fixBigQueryIssues; [reflexivity|].
    apply no_key_processDateFields; [reflexivity|].
    apply no_key_flattenNestedArrays. exact Hv. }
  unfold transform_record.
  destruct (includes (JSON_stringify (standardize v)) "[[");
    [apply no_key_lastFix|]; exact Hs.
Qed.

(** ** Passes that find nothing to do *)

Section FixedPoints.

Lemma map_fixed {A : Type} (f : A -> A) (l : list A) :
  (forall x, In x l -> f x = x) -> map f l = l.
Proof.
  induction l as [|x r IH]; intros H; [reflexivity|].
  cbn [map]. rewrite (H x (or_introl eq_refl)), IH; [reflexivity|].
  intros y Hy. apply H. now right.
Qed.

Lemma map_values_fixed (f : json -> json) (o : obj) :
  (forall kv, In kv o -> f (snd kv) = snd kv) -> map_values f o = o.
Proof.
  intros H. unfold map_values. apply map_fixed. intros [k v] Hin.
  pose proof (H _ Hin) as Hv. cbn [fst snd] in *. now rewrite Hv.
Qed.

(** A loop that assigns each property of an object with distinct keys to
    itself rebuilds the object. *)
Lemma fold_assign_same (step : obj -> string * json -> obj) (o acc : obj) :
  (forall acc' kv, In kv o -> step acc' kv = obj_set (fst kv) (snd kv) acc') ->
  NoDup (keys acc ++ keys o) ->
  fold_left step o acc = acc ++ o.
Proof.
  revert acc. induction o as [|kv r IH]; intros acc Hstep Hnd; cbn [fold_left].
  - now rewrite app_nil_r.
  - assert (Hfresh : ~ In (fst kv) (keys acc)).
    { apply NoDup_remove_2 in Hnd. intros H. apply Hnd. apply in_or_app. now left. }
    rewrite (Hstep acc kv (or_introl eq_refl)), obj_set_fresh by assumption.
    rewrite IH.
    + rewrite <- app_assoc. destruct kv. reflexivity.
    + intros acc' kv' Hin. apply Hstep. now right.
    + unfold keys at 1. rewrite map_app. cbn [map]. rewrite <- app_assoc. exact Hnd.
Qed.

Lemma obj_set_same_value (k : string) (v : json) (o : obj) :
  obj_get k o = Some v -> obj_set k v o = o.
Proof.
  induction o as [|[k0 v0] r IH]; cbn [obj_get obj_set]; [discriminate|].
  destruct (String.eqb k0 k) eqn:E.
  - apply String.eqb_eq in E. intros [= ->]. now subst.
  - intros H. now rewrite IH.
Qed.

Lemma flat_element (l : list json) (x : json) :
  has_nested_array (JArr l) = false -> In x l ->
  is_array x = false /\ has_nested_array x = false.
Proof.
  cbn [has_nested_array]. intros H Hin. apply orb_false_iff in H. destruct H as [H1 H2].
  split.
  - destruct (is_array x) eqn:E; [|reflexivity].
    rewrite <- H1. symmetry. apply existsb_exists. eauto.
  - destruct (has_nested_array x) eqn:E; [|reflexivity].
    rewrite <- H2. symmetry. apply existsb_exists. eauto.
Qed.

Lemma flat_no_arrays (l : list json) :
  has_nested_array (JArr l) = false -> existsb is_array l = false.
Proof. cbn [has_nested_array]. intros H. now apply orb_false_iff in H. Qed.

Lemma flat_value (o : obj) (kv : string * json) :
  has_nested_array (JObj o) = false -> In kv o -> has_nested_array (snd kv) = false.
Proof.
  cbn [has_nested_array]. intros H Hin.
  destruct (has_nested_array (snd kv)) eqn:E; [|reflexivity].
  rewrite <- H. symmetry. apply existsb_exists. eauto.
Qed.

(** Flattening returns a value without nested arrays, and without a key
    [__proto__], as it is. *)
Lemma flattenNestedArrays_fixed (v : json) :
  forall parentKey, wf v -> own_proto_free v = true -> has_nested_array v = false ->
  flattenNestedArrays parentKey v = v.
Proof.
  unfold own_proto_free.
  induction v as [| | | |l IH|o IH] using json_nested_ind;
    intros parentKey Hwf Hown Hflat; try reflexivity; cbn [flattenNestedArrays].
  - rewrite (flat_no_arrays l Hflat). f_equal. apply map_fixed. intros x Hx.
    rewrite Forall_forall in IH.
    apply IH; [assumption | eapply wf_element; eassumption
              | eapply no_key_element; eassumption |].
    now destruct (flat_element l x Hflat Hx).
  - pose proof Hwf as Hwf'. apply wf_obj in Hwf'. destruct Hwf' as [Hnd _].
    f_equal. rewrite fold_assign_same; [reflexivity | | exact Hnd].
    intros acc [key value] Hin. destruct (no_key_property _ o _ Hown Hin) as [Hk Hval].
    cbn [flatten_property fst snd] in *. rewrite assign_own by exact Hk. f_equal.
    rewrite Forall_forall in IH.
    exact (IH _ Hin (Some key) (wf_value o _ Hwf Hin) Hval (flat_value o _ Hflat Hin)).
Qed.

Lemma lastFix_fixed (v : json) : has_nested_array v = false -> lastFix v = v.
Proof.
  induction v as [| | | |l IH|o IH] using json_nested_ind;
    intros Hflat; try reflexivity; cbn [lastFix].
  - rewrite map_spliced_concat, (concat_one_level_flat l (flat_no_arrays l Hflat)).
    f_equal. apply map_fixed. intros x Hx. rewrite Forall_forall in IH.
    apply IH; [assumption|]. now destruct (flat_element l x Hflat Hx).
  - f_equal. apply map_values_fixed. intros kv Hin. rewrite Forall_forall in IH.
    exact (IH _ Hin (flat_value o _ Hflat Hin)).
Qed.

Lemma filter_all {A : Type} (p : A -> bool) (l : list A) :
  (forall x, In x l -> p x = true) -> filter p l = l.
Proof.
  induction l as [|x r IH]; intros H; [reflexivity|].
  cbn [filter]. rewrite (H x (or_introl eq_refl)), IH; [reflexivity|].
  intros y Hy. apply H. now right.
Qed.

(** Cleaning returns a value without nulls, and without a key
    [__proto__], as it is. *)
Lemma cleanNullValues_fixed (v : json) :
  wf v -> own_proto_free v = true -> null_free v = true -> cleanNullValues v = v.
Proof.
  unfold own_proto_free.
  induction v as [| | | |l IH|o IH] using json_nested_ind;
    intros Hwf Hown Hnf; try reflexivity.
  - rewrite cleanNullValues_arr. f_equal. rewrite filter_all.
    + apply map_fixed. intros x Hx. rewrite Forall_forall in IH.
      apply IH; [assumption | eapply wf_element; eassumption
                | eapply no_key_element; eassumption |].
      now destruct (null_free_element l x Hnf Hx).
    + intros x Hx. destruct (null_free_element l x Hnf Hx) as [-> _]. reflexivity.
  - pose proof Hwf as Hwf'. apply wf_obj in Hwf'. destruct Hwf' as [Hnd _].
    cbn [cleanNullValues]. f_equal. rewrite fold_assign_same; [reflexivity | | exact Hnd].
    intros acc [key value] Hin. destruct (null_free_value o _ Hnf Hin) as [Hn Hf].
    destruct (no_key_property _ o _ Hown Hin) as [Hk Hval].
    cbn [fst snd] in *. rewrite Forall_forall in IH.
    pose proof (IH _ Hin (wf_value o _ Hwf Hin) Hval Hf) as Hc. cbn [snd] in Hc.
    destruct value; try discriminate Hn; cbn [clean_property];
      rewrite assign_own by exact Hk; now rewrite Hc.
Qed.

(** Renaming returns a value whose keys have no hyphen as it is. *)
Lemma replaceKeyDashes_fixed (v : json) :
  wf v -> hyphen_free v = true -> replaceKeyDashes v = v.
Proof.
  induction v as [| | | |l IH|o IH] using json_nested_ind;
    intros Hwf Hhf; try reflexivity; cbn [replaceKeyDashes].
  - f_equal. apply map_fixed. intros x Hx. rewrite Forall_forall in IH.
    apply IH; [assumption | eapply wf_element; eassumption|].
    eapply hyphen_free_element; eassumption.
  - pose proof Hwf as Hwf'. apply wf_obj in Hwf'. destruct Hwf' as [Hnd _].
    f_equal. rewrite fold_assign_same; [reflexivity | | exact Hnd].
    intros acc [key value] Hin. destruct (hyphen_free_value o _ Hhf Hin) as [Hk Hv].
    cbn [fst snd] in *. cbn [rename_property]. rewrite (replace_dashes_id key Hk).
    f_equal. rewrite Forall_forall in IH.
    exact (IH _ Hin (wf_value o _ Hwf Hin) Hv).
Qed.

End FixedPoints.

Section VisitFixed.

Variable step : obj -> obj.
Hypothesis step_depth : forall d o, values_below d o -> values_below d (step o).

(** A traversal whose step finds nothing to do returns its argument. *)
Lemma visit_fixed (P : json -> Prop) :
  (forall l x, P (JArr l) -> In x l -> P x) ->
  (forall o kv, P (JObj o) -> In kv o -> P (snd kv)) ->
  (forall o, P (JObj o) -> step o = o) ->
  forall v, P v -> visit step v = v.
Proof.
  intros Ha Ho Hstep.
  induction v as [| | | |l IH|o IH] using json_nested_ind; intros HP; try reflexivity.
  - rewrite (visit_arr step step_depth). f_equal. apply map_fixed. intros x Hx.
    rewrite Forall_forall in IH. apply IH; [assumption | eapply Ha; eassumption].
  - rewrite (visit_obj step step_depth), (Hstep o HP). f_equal.
    apply map_values_fixed. intros kv Hin. rewrite Forall_forall in IH.
    apply IH; [assumption | eapply Ho; eassumption].
Qed.

End VisitFixed.

Section PassesFixed.

Lemma fixBigQueryIssues_fixed (v : json) :
  year_never_string v = true -> fixBigQueryIssues v = v.
Proof.
  apply (visit_fixed fix_year fix_year_depth (fun x => year_never_string x = true)).
  - intros l x. apply yns_element.
  - intros o kv. apply yns_value.
  - intros o Ho. unfold fix_year. pose proof (yns_year o Ho) as Hy.
    destruct (obj_get "year" o) as [[]|]; try reflexivity. discriminate Hy.
Qed.

(** An object whose keys have no hyphen has no property of a name with
    one. *)
Lemma hyphen_free_get (o : obj) (k : string) :
  hyphen_free (JObj o) = true -> includes k "-" = true -> obj_get k o = None.
Proof.
  intros Ho Hk. apply obj_get_None_keys. intros Hin. unfold keys in Hin.
  apply in_map_iff in Hin. destruct Hin as [kv [<- Hkv]].
  destruct (hyphen_free_value o kv Ho Hkv) as [Hf _]. congruence.
Qed.

Lemma hyphen_free_no_date_parts (v : json) :
  hyphen_free v = true -> get_prop v "date-parts" = None.
Proof.
  destruct v; try reflexivity. intros Ho. cbn [get_prop].
  now apply hyphen_free_get.
Qed.

Lemma hyphen_free_obj_get (o : obj) (k : string) (v : json) :
  hyphen_free (JObj o) = true -> obj_get k o = Some v -> hyphen_free v = true.
Proof.
  intros Ho Hget. exact (proj2 (hyphen_free_value o _ Ho (obj_get_In _ _ _ Hget))).
Qed.

Lemma convert_date_field_fixed (o : obj) (field : string) :
  hyphen_free (JObj o) = true -> convert_date_field o field = o.
Proof.
  intros Ho. unfold convert_date_field.
  destruct (obj_get field o) as [fv|] eqn:Hf; [|reflexivity].
  rewrite (hyphen_free_no_date_parts fv (hyphen_free_obj_get o field fv Ho Hf)).
  now destruct (truthy fv && is_object_like fv).
Qed.

Lemma convert_license_start_fixed (license : json) :
  hyphen_free license = true -> convert_license_start license = license.
Proof.
  intros Hl. unfold convert_license_start.
  destruct license as [| | | | |lo]; try reflexivity.
  destruct (obj_get "start" lo) as [start|] eqn:Hs; [|reflexivity].
  rewrite (hyphen_free_no_date_parts start (hyphen_free_obj_get lo "start" start Hl Hs)).
  now destruct (truthy start).
Qed.

Lemma date_step_fixed (o : obj) : hyphen_free (JObj o) = true -> date_step o = o.
Proof.
  intros Ho. unfold date_step.
  assert (Hown : convert_own_date_parts o = o).
  { unfold convert_own_date_parts. now rewrite (hyphen_free_get o "date-parts" Ho). }
  assert (Hfields : forall fields, fold_left convert_date_field fields o = o).
  { induction fields as [|f fs IH]; [reflexivity|].
    cbn [fold_left]. now rewrite convert_date_field_fixed. }
  rewrite Hown, Hfields. unfold convert_licenses.
  destruct (obj_get "license" o) as [[| | | |licenses|]|] eqn:Hl; try reflexivity.
  pose proof (hyphen_free_obj_get o "license" _ Ho Hl) as Hls.
  rewrite map_fixed.
  - now apply obj_set_same_value.
  - intros x Hx. apply convert_license_start_fixed.
    eapply hyphen_free_element; eassumption.
Qed.

Lemma processDateFields_fixed (v : json) :
  hyphen_free v = true -> processDateFields v = v.
Proof.
  apply (visit_fixed date_step date_step_depth (fun x => hyphen_free x = true)).
  - intros l x. apply hyphen_free_element.
  - intros o kv Ho Hin. exact (proj2 (hyphen_free_value o kv Ho Hin)).
  - apply date_step_fixed.
Qed.

(** A normalised record without nested arrays is left as it is by every
    pass, hence by the pipeline. *)
Lemma transform_record_fixed (s : json) :
  wf s -> own_proto_free s = true -> hyphen_free s = true -> null_free s = true ->
  year_never_string s = true -> has_nested_array s = false ->
  transform_record s = s.
Proof.
  intros Hwf Hown Hhf Hnf Hy Hflat.
  assert (Hstd : standardize s = s).
  { unfold standardize.
    rewrite (flattenNestedArrays_fixed s None Hwf Hown Hflat).
    rewrite (processDateFields_fixed s Hhf), (fixBigQueryIssues_fixed s Hy).
    rewrite (cleanNullValues_fixed s Hwf Hown Hnf). now apply replaceKeyDashes_fixed. }
  unfold transform_record. rewrite Hstd.
  destruct (includes (JSON_stringify s) "[["); [now apply lastFix_fixed | reflexivity].
Qed.

End PassesFixed.

(** X1.  What a written record is guaranteed to be, for a decoded record
    with distinct keys in every object, no key that is or is renamed to
    [__proto__], and numbers a double holds exactly: distinct keys, no
    hyphen in a key, no null below the root and no string under [year]. *)
Theorem transform_record_normalised (record : json)
    (Hwf : wf record) (Hproto : proto_free record = true)
    (Hnum : safe_numbers record = true) :
  wf (transform_record record) /\
  hyphen_free (transform_record record) = true /\
  null_free (transform_record record) = true /\
  year_never_string (transform_record record) = true.
Proof.
  split; [apply wf_transform_record|].
  split; [apply hyphen_free_transform_record|].
  split; [apply null_free_transform_record | now apply yns_transform_record].
Qed.

Lemma transform_record_normalised_witness :
  hyphen_free
    (transform_record (JObj [("a-b", JObj [("c-d", JNum 1)]); ("z", JNull)])) = true.
Proof.
  exact (proj1 (proj2 (transform_record_normalised
                         (JObj [("a-b", JObj [("c-d", JNum 1)]); ("z", JNull)])
                         eq_refl eq_refl eq_refl))).
Defined.

(** X2.  Idempotence holds wherever the flattening is complete: for a
    decoded record with distinct keys in every object, no key that is or
    is renamed to [__proto__], and numbers a double holds exactly, when
    the record the pipeline writes has no nested array, the pipeline maps
    it to itself. *)
Theorem transform_record_idempotent_when_flat (record : json)
    (Hwf : wf record) (Hproto : proto_free record = true)
    (Hnum : safe_numbers record = true)
    (Hflat : has_nested_array (transform_record record) = false) :
  transform_record (transform_record record) = transform_record record.
Proof.
  apply transform_record_fixed.
  - apply wf_transform_record.
  - now apply own_proto_free_transform_record.
  - apply hyphen_free_transform_record.
  - apply null_free_transform_record.
  - now apply yns_transform_record.
  - exact Hflat.
Qed.

Lemma transform_record_idempotent_when_flat_witness :
  let record :=
    JObj [("issued", JObj [("date-parts", JArr [JArr [JNum 2020; JNum 1; JNum 1]])]);
          ("year", JStr "2020-21"); ("x", JArr [JArr [JNum 1; JNum 2]; JArr [JNum 3]]);
          ("a-b", JNull)] in
  transform_record (transform_record record) = transform_record record.
Proof.
  cbv zeta. apply transform_record_idempotent_when_flat; vm_compute; reflexivity.
Defined.

(** ** Where flattening is complete *)

Section Flattening.

Lemma is_array_flattenNestedArrays (parentKey : option string) (v : json) :
  is_array v = false -> is_array (flattenNestedArrays parentKey v) = false.
Proof. destruct v; simpl; congruence. Qed.

Lemma existsb_false_forall {A : Type} (p : A -> bool) (l : list A) :
  existsb p l = false <-> forall x, In x l -> p x = false.
Proof.
  split.
  - intros H x Hx. destruct (p x) eqn:E; [|reflexivity].
    rewrite <- H. symmetry. apply existsb_exists. eauto.
  - intros H. destruct (existsb p l) eqn:E; [|reflexivity].
    apply existsb_exists in E. destruct E as [x [Hx Hp]]. rewrite (H x Hx) in Hp.
    discriminate.
Qed.

Lemma doubly_nested_element (l : list json) (x : json) :
  at_most_doubly_nested (JArr l) = true -> In x l ->
  at_most_doubly_nested x = true /\
  match x with JArr sub => existsb is_array sub = false | _ => True end.
Proof.
  cbn [at_most_doubly_nested]. intros H Hin. apply andb_true_iff in H.
  destruct H as [H1 H2]. rewrite forallb_forall in H1, H2.
  split; [now apply H2|]. specialize (H1 x Hin).
  destruct x; try exact I. now apply negb_true_iff in H1.
Qed.

Lemma doubly_nested_value (o : obj) (kv : string * json) :
  at_most_doubly_nested (JObj o) = true -> In kv o ->
  at_most_doubly_nested (snd kv) = true.
Proof. cbn [at_most_doubly_nested]. rewrite forallb_forall. auto. Qed.

(** What is spliced out of an array that nests at most two deep is not
    an array. *)
Lemma doubly_nested_spliced (l : list json) (y : json) :
  at_most_doubly_nested (JArr l) = true -> In y (concat_one_level l) ->
  at_most_doubly_nested y = true /\ is_array y = false.
Proof.
  intros Hl Hin. apply In_concat_one_level in Hin.
  destruct Hin as [[Hy Ha]|[sub [Hsub Hy]]].
  - split; [|exact Ha]. now destruct (doubly_nested_element l y Hl Hy).
  - destruct (doubly_nested_element l _ Hl Hsub) as [Hs Hflat].
    split; [now destruct (doubly_nested_element sub y Hs Hy)|].
    rewrite existsb_false_forall in Hflat. now apply Hflat.
Qed.

Lemma nested_under_date_parts_built_arr (l : list json) :
  (forall x, In x l -> is_array x = false /\ nested_under_date_parts_only x = true) ->
  nested_under_date_parts_only (JArr l) = true.
Proof.
  intros H. cbn [nested_under_date_parts_only]. apply andb_true_iff. split.
  - apply negb_true_iff, existsb_false_forall. intros x Hx. now destruct (H x Hx).
  - apply forallb_forall. intros x Hx. now destruct (H x Hx).
Qed.

(** After the flattening pass a value that nested at most two deep has
    nested arrays under [date-parts] only. *)
Lemma flattenNestedArrays_leaves_date_parts (v : json) :
  forall parentKey,
    at_most_doubly_nested v = true ->
    key_is parentKey "date-parts" = true \/
    nested_under_date_parts_only (flattenNestedArrays parentKey v) = true.
Proof.
  induction v as [v IH] using json_depth_ind. intros parentKey Hv.
  destruct v as [| | | |l|o]; try (right; reflexivity); cbn [flattenNestedArrays].
  - destruct (key_is parentKey "date-parts") eqn:Hk; [now left | right].
    assert (Hitems : forall items,
              (forall y, In y items ->
                 (depth y < depth (JArr l))%nat /\
                 at_most_doubly_nested y = true /\ is_array y = false) ->
              nested_under_date_parts_only (JArr (map (flattenNestedArrays None) items)) = true).
    { intros items Hitems. apply nested_under_date_parts_built_arr. intros z Hz.
      apply in_map_iff in Hz. destruct Hz as [y [<- Hy]].
      destruct (Hitems y Hy) as [Hd [Hn Ha]].
      split; [now apply is_array_flattenNestedArrays|].
      destruct (IH y Hd None Hn) as [Hnone|Hok]; [discriminate Hnone | exact Hok]. }
    destruct (existsb is_array l) eqn:Harr.
    + rewrite map_spliced_concat. apply Hitems. intros y Hy.
      split; [now apply depth_spliced | exact (doubly_nested_spliced l y Hv Hy)].
    + apply Hitems. intros y Hy. split; [now apply depth_element|].
      split; [now destruct (doubly_nested_element l y Hv Hy)|].
      rewrite existsb_false_forall in Harr. now apply Harr.
  - right. cbn [nested_under_date_parts_only]. apply forallb_forall.
    apply Forall_forall.
    apply (fold_assign
             (fun kv => String.eqb (fst kv) "date-parts"
                        || nested_under_date_parts_only (snd kv) = true)
             (flatten_property flattenNestedArrays) o); [|constructor|constructor].
    intros acc [key value] Hin. cbn [flatten_property]. assigned.
    cbn [fst snd].
    destruct (IH value (depth_value o _ Hin) (Some key) (doubly_nested_value o _ Hv Hin))
      as [Hkey|Hok].
    + cbn [key_is] in Hkey. now rewrite Hkey.
    + rewrite Hok. apply orb_true_r.
Qed.

End Flattening.

Section FlatAfterwards.

Lemma flat_built_arr (l : list json) :
  (forall x, In x l -> is_array x = false /\ has_nested_array x = false) ->
  has_nested_array (JArr l) = false.
Proof.
  intros H. cbn [has_nested_array]. apply orb_false_iff.
  split; apply existsb_false_forall; intros x Hx; now destruct (H x Hx).
Qed.

Lemma flat_built_obj (o : obj) :
  Forall (fun kv => has_nested_array (snd kv) = false) o ->
  has_nested_array (JObj o) = false.
Proof.
  intros H. cbn [has_nested_array]. apply existsb_false_forall.
  now rewrite Forall_forall in H.
Qed.

Lemma visit_is_array (step : obj -> obj) (v : json) :
  is_array (visit step v) = is_array v.
Proof. destruct v; reflexivity. Qed.

Lemma under_date_parts_element (l : list json) (x : json) :
  nested_under_date_parts_only (JArr l) = true -> In x l ->
  is_array x = false /\ nested_under_date_parts_only x = true.
Proof.
  cbn [nested_under_date_parts_only]. intros H Hin. apply andb_true_iff in H.
  destruct H as [H1 H2]. apply negb_true_iff in H1.
  rewrite existsb_false_forall in H1. rewrite forallb_forall in H2. auto.
Qed.

(** The values an object keeps once its [date-parts] is gone. *)
Lemma under_date_parts_values (o : obj) :
  nested_under_date_parts_only (JObj o) = true ->
  Forall (fun kv => nested_under_date_parts_only (snd kv) = true)
         (obj_delete "date-parts" o).
Proof.
  cbn [nested_under_date_parts_only]. rewrite forallb_forall. intros H.
  induction o as [|[k v] r IH]; cbn [obj_delete]; [constructor|].
  assert (Hr : forall x, In x r ->
            String.eqb (fst x) "date-parts" || nested_under_date_parts_only (snd x) = true)
    by (intros x Hx; apply H; now right).
  specialize (H (k, v) (or_introl eq_refl)). cbn [fst snd] in H.
  destruct (String.eqb k "date-parts"); [now apply IH|].
  constructor; [exact H | now apply IH].
Qed.

Lemma convert_own_date_parts_values (o : obj) :
  nested_under_date_parts_only (JObj o) = true ->
  Forall (fun kv => nested_under_date_parts_only (snd kv) = true)
         (convert_own_date_parts o).
Proof.
  intros Ho. unfold convert_own_date_parts.
  destruct (obj_get "date-parts" o) as [dateParts|] eqn:Hdp.
  - destruct (convertDatePartsToISOString (unwrap_date_parts dateParts)) as [iso|].
    + apply under_date_parts_values.
      cbn [nested_under_date_parts_only]. apply forallb_forall. apply Forall_forall.
      apply (Forall_obj_set
               (fun kv => String.eqb (fst kv) "date-parts"
                          || nested_under_date_parts_only (snd kv) = true)).
      * apply Forall_forall. cbn [nested_under_date_parts_only] in Ho.
        now rewrite forallb_forall in Ho.
      * reflexivity.
    + now apply under_date_parts_values.
  - rewrite <- (obj_delete_absent "date-parts" o) by now apply obj_get_None_keys.
    now apply under_date_parts_values.
Qed.

Lemma convert_date_field_values (R : string * json -> Prop) (o : obj) (field : string) :
  (forall s, R (field, JStr s)) -> Forall R o -> Forall R (convert_date_field o field).
Proof.
  intros Hs Ho. unfold convert_date_field.
  destruct (obj_get field o) as [fv|]; [|exact Ho].
  destruct (truthy fv && is_object_like fv); [|exact Ho].
  destruct (get_prop fv "date-parts") as [dateParts|]; [|exact Ho].
  destruct (truthy dateParts); [|exact Ho].
  destruct (convertDatePartsToISOString (unwrap_date_parts dateParts)).
  - now apply Forall_obj_set.
  - now apply Forall_obj_delete.
Qed.

Lemma under_date_parts_built_obj (o : obj) :
  Forall (fun kv => nested_under_date_parts_only (snd kv) = true) o ->
  nested_under_date_parts_only (JObj o) = true.
Proof.
  intros H. cbn [nested_under_date_parts_only]. apply forallb_forall.
  rewrite Forall_forall in H. intros kv Hkv. rewrite (H kv Hkv). apply orb_true_r.
Qed.

Lemma under_date_parts_obj_values (lo : obj) :
  nested_under_date_parts_only (JObj lo) = true ->
  Forall (fun kv => String.eqb (fst kv) "date-parts"
                    || nested_under_date_parts_only (snd kv) = true) lo.
Proof.
  cbn [nested_under_date_parts_only]. intros H. apply Forall_forall.
  now rewrite forallb_forall in H.
Qed.

Lemma convert_license_start_under_date_parts (license : json) :
  nested_under_date_parts_only license = true ->
  is_array (convert_license_start license) = is_array license /\
  nested_under_date_parts_only (convert_license_start license) = true.
Proof.
  intros Hl. unfold convert_license_start.
  destruct license as [| | | | |lo]; try (split; [reflexivity | exact Hl]).
  destruct (obj_get "start" lo) as [start|]; [|split; [reflexivity | exact Hl]].
  destruct (truthy start); [|split; [reflexivity | exact Hl]].
  destruct (get_prop start "date-parts") as [dateParts|]; [|split; [reflexivity | exact Hl]].
  destruct (truthy dateParts); [|split; [reflexivity | exact Hl]].
  pose proof (under_date_parts_obj_values lo Hl) as Hvals.
  destruct (convertDatePartsToISOString (unwrap_date_parts dateParts));
    (split; [reflexivity|]); cbn [nested_under_date_parts_only];
    apply forallb_forall, Forall_forall.
  - now apply (Forall_obj_set _ "start" (JStr s) lo Hvals).
  - now apply Forall_obj_delete.
Qed.

Lemma date_step_values (o : obj) :
  nested_under_date_parts_only (JObj o) = true ->
  Forall (fun kv => nested_under_date_parts_only (snd kv) = true) (date_step o).
Proof.
  intros Ho. unfold date_step.
  assert (Hfields : Forall (fun kv => nested_under_date_parts_only (snd kv) = true)
                      (fold_left convert_date_field dateFields (convert_own_date_parts o))).
  { generalize (convert_own_date_parts_values o Ho).
    generalize (convert_own_date_parts o) as o1.
    induction dateFields as [|f fs IH]; intros o1 H1; [exact H1|].
    cbn [fold_left]. apply IH. apply convert_date_field_values; [reflexivity | exact H1]. }
  revert Hfields. generalize (fold_left convert_date_field dateFields (convert_own_date_parts o)).
  intros o2 H2. unfold convert_licenses.
  destruct (obj_get "license" o2) as [[| | | |licenses|]|] eqn:Hl; try exact H2.
  apply (Forall_obj_set (fun kv => nested_under_date_parts_only (snd kv) = true));
    [exact H2|]. cbn [snd].
  pose proof (obj_get_In _ _ _ Hl) as Hin. rewrite Forall_forall in H2.
  specialize (H2 _ Hin). cbn [snd] in H2.
  apply nested_under_date_parts_built_arr. intros z Hz.
  apply in_map_iff in Hz. destruct Hz as [y [<- Hy]].
  destruct (under_date_parts_element licenses y H2 Hy) as [Ha Hok].
  destruct (convert_license_start_under_date_parts y Hok) as [-> Hc]. now split.
Qed.

(** Converting the dates removes the arrays the flattening pass left
    under [date-parts]. *)
Lemma processDateFields_flat (v : json) :
  nested_under_date_parts_only v = true -> has_nested_array (processDateFields v) = false.
Proof.
  apply (visit_preserves date_step date_step_depth
           (fun x => nested_under_date_parts_only x = true)
           (fun x => has_nested_array x = false)).
  - intros x Hx _. destruct x; try reflexivity; discriminate Hx.
  - intros l Hl. apply Forall_forall. intros x Hx.
    now destruct (under_date_parts_element l x Hl Hx).
  - intros l Hl Hvis. apply flat_built_arr. intros z Hz.
    apply in_map_iff in Hz. destruct Hz as [y [<- Hy]].
    rewrite visit_is_array. rewrite Forall_forall in Hvis.
    split; [now destruct (under_date_parts_element l y Hl Hy) | now apply Hvis].
  - apply date_step_values.
  - intros o _. generalize (date_step o) as o1. intros o1 Hvis.
    apply flat_built_obj. unfold map_values. apply Forall_map. exact Hvis.
Qed.

Lemma fixBigQueryIssues_flat (v : json) :
  has_nested_array v = false -> has_nested_array (fixBigQueryIssues v) = false.
Proof.
  apply (visit_preserves fix_year fix_year_depth
           (fun x => has_nested_array x = false) (fun x => has_nested_array x = false)).
  - intros x _ Hx. exact Hx.
  - intros l Hl. apply Forall_forall. intros x Hx. now destruct (flat_element l x Hl Hx).
  - intros l Hl Hvis. apply flat_built_arr. intros z Hz.
    apply in_map_iff in Hz. destruct Hz as [y [<- Hy]].
    rewrite visit_is_array. rewrite Forall_forall in Hvis.
    split; [now destruct (flat_element l y Hl Hy) | now apply Hvis].
  - intros o Ho.
    assert (Hvals : Forall (fun kv => has_nested_array (snd kv) = false) o)
      by (apply Forall_forall; intros kv Hkv; exact (flat_value o kv Ho Hkv)).
    unfold fix_year.
    destruct (obj_get "year" o) as [[| | |yearValue| |]|]; try exact Hvals.
    assert (Hmove : Forall (fun kv => has_nested_array (snd kv) = false)
                      (obj_delete "year" (obj_set "year_string" (JStr yearValue) o)))
      by (apply Forall_obj_delete, Forall_obj_set; [exact Hvals | reflexivity]).
    destruct (negb (all_digits yearValue)); [exact Hmove|].
    destruct (parseInt_string yearValue); [|exact Hmove].
    apply Forall_obj_set; [exact Hvals | reflexivity].
  - intros o _ Hvis. apply flat_built_obj, Forall_forall. intros kv Hkv.
    unfold map_values in Hkv. apply in_map_iff in Hkv. destruct Hkv as [kv0 [<- Hin]].
    rewrite Forall_forall in Hvis. now apply Hvis.
Qed.

Lemma is_array_cleanNullValues (v : json) : is_array (cleanNullValues v) = is_array v.
Proof. destruct v; reflexivity. Qed.

Lemma is_array_replaceKeyDashes (v : json) : is_array (replaceKeyDashes v) = is_array v.
Proof. destruct v; reflexivity. Qed.

Lemma cleanNullValues_flat (v : json) :
  has_nested_array v = false -> has_nested_array (cleanNullValues v) = false.
Proof.
  induction v as [| | | |l IH|o IH] using json_nested_ind; intros Hv; try reflexivity.
  - rewrite cleanNullValues_arr. apply flat_built_arr. intros z Hz.
    apply in_map_iff in Hz. destruct Hz as [y [<- Hy]]. apply filter_In in Hy.
    destruct Hy as [Hy _]. destruct (flat_element l y Hv Hy) as [Ha Hf].
    rewrite is_array_cleanNullValues. rewrite Forall_forall in IH. split; auto.
  - cbn [cleanNullValues]. apply flat_built_obj.
    apply (fold_assign (fun kv => has_nested_array (snd kv) = false)
             (clean_property cleanNullValues) o); [|constructor|constructor].
    intros acc [key value] Hin. rewrite Forall_forall in IH.
    pose proof (IH _ Hin (flat_value o _ Hv Hin)) as Hc. cbn [snd] in Hc.
    destruct value; cbn [clean_property]; try (assigned; exact Hc).
    destruct (cannot_be_null key); [|now left].
    assigned. reflexivity.
Qed.

Lemma replaceKeyDashes_flat (v : json) :
  has_nested_array v = false -> has_nested_array (replaceKeyDashes v) = false.
Proof.
  induction v as [| | | |l IH|o IH] using json_nested_ind; intros Hv; try reflexivity.
  - cbn [replaceKeyDashes]. apply flat_built_arr. intros z Hz.
    apply in_map_iff in Hz. destruct Hz as [y [<- Hy]].
    destruct (flat_element l y Hv Hy) as [Ha Hf].
    rewrite is_array_replaceKeyDashes. rewrite Forall_forall in IH. split; auto.
  - cbn [replaceKeyDashes]. apply flat_built_obj.
    apply (fold_assign (fun kv => has_nested_array (snd kv) = false)
             (rename_property replaceKeyDashes) o); [|constructor|constructor].
    intros acc [key value] Hin. right. eexists; eexists; split; [reflexivity|].
    rewrite Forall_forall in IH. exact (IH _ Hin (flat_value o _ Hv Hin)).
Qed.

End FlatAfterwards.

(** X3.  Where the flattening is complete: a record without a key that is
    or is renamed to [__proto__], whose arrays nest at most two deep, is
    written without an array inside an array. *)
Theorem doubly_nested_arrays_are_flattened (record : json)
    (Hproto : proto_free record = true)
    (Hshallow : at_most_doubly_nested record = true) :
  has_nested_array (transform_record record) = false.
Proof.
  assert (Hstd : has_nested_array (standardize record) = false).
  { unfold standardize.
    apply replaceKeyDashes_flat, cleanNullValues_flat, fixBigQueryIssues_flat,
      processDateFields_flat.
    destruct (flattenNestedArrays_leaves_date_parts record None Hshallow) as [H|H];
      [discriminate H | exact H]. }
  unfold transform_record.
  destruct (includes _ "[["); [|exact Hstd].
  now rewrite lastFix_fixed.
Qed.

(** The example of the specification. *)
Lemma doubly_nested_arrays_are_flattened_witness :
  transform_record (JObj [("x", JArr [JArr [JNum 1; JNum 2]; JArr [JNum 3]])])
  = JObj [("x", JArr [JNum 1; JNum 2; JNum 3])] /\
  has_nested_array
    (transform_record (JObj [("x", JArr [JArr [JNum 1; JNum 2]; JArr [JNum 3]])])) = false.
Proof.
  split; [vm_compute; reflexivity|].
  exact (doubly_nested_arrays_are_flattened
           (JObj [("x", JArr [JArr [JNum 1; JNum 2]; JArr [JNum 3]])]) eq_refl eq_refl).
Defined.

(** ** The order of the files *)

Section FileOrder.

Lemma Forall_insert_sorted {P : string -> Prop} cmp (x : string) (l : list string) :
  P x -> Forall P l -> Forall P (insert_sorted cmp x l).
Proof.
  intros Hx Hl. apply Forall_forall. intros y Hy. apply In_insert_sorted in Hy.
  destruct Hy as [->|Hy]; [exact Hx|]. rewrite Forall_forall in Hl. auto.
Qed.

Lemma insert_sorted_perm cmp (x : string) (l : list string) :
  Permutation (x :: l) (insert_sorted cmp x l).
Proof.
  induction l as [|y r IH]; cbn [insert_sorted]; [reflexivity|].
  destruct (cmp x y <=? 0)%Z; [reflexivity|].
  rewrite perm_swap. now constructor.
Qed.

Lemma sort_by_perm cmp (l : list string) : Permutation l (sort_by cmp l).
Proof.
  unfold sort_by. induction l as [|x r IH]; cbn [fold_right]; [constructor|].
  rewrite <- insert_sorted_perm. now constructor.
Qed.

Lemma ordinal_le_trans (a b c : string) : ordinal_le a b -> ordinal_le b c -> ordinal_le a c.
Proof.
  unfold ordinal_le. destruct (ordinal a), (ordinal b), (ordinal c); try tauto. lia.
Qed.

Lemma insert_sorted_sorted (x : string) (l : list string) :
  ordinal x <> None -> Forall (fun f => ordinal f <> None) l ->
  StronglySorted ordinal_le l ->
  StronglySorted ordinal_le (insert_sorted compare_ordinals x l).
Proof.
  intros Hx Hl Hs. induction Hs as [|y r Hr IH Hy]; cbn [insert_sorted].
  - constructor; constructor.
  - inversion Hl as [|? ? Hy0 Hl0]; subst.
    assert (Hcmp : (compare_ordinals x y <=? 0)%Z = true -> ordinal_le x y).
    { unfold compare_ordinals, ordinal_le.
      destruct (ordinal x), (ordinal y); try congruence. intros H.
      apply Z.leb_le in H. lia. }
    assert (Hcmp' : (compare_ordinals x y <=? 0)%Z = false -> ordinal_le y x).
    { unfold compare_ordinals, ordinal_le.
      destruct (ordinal x), (ordinal y); try congruence. intros H.
      apply Z.leb_gt in H. lia. }
    destruct (compare_ordinals x y <=? 0)%Z.
    + constructor; [now constructor|].
      constructor; [now apply Hcmp|].
      eapply Forall_impl; [|exact Hy]. intros z Hz.
      eapply ordinal_le_trans; [now apply Hcmp | exact Hz].
    + constructor; [now apply IH|].
      apply Forall_insert_sorted; [now apply Hcmp' | exact Hy].
Qed.

Lemma sort_by_sorted (l : list string) :
  Forall (fun f => ordinal f <> None) l ->
  StronglySorted ordinal_le (sort_by compare_ordinals l).
Proof.
  unfold sort_by. induction 1 as [|x r Hx Hr IH]; cbn [fold_right]; [constructor|].
  apply insert_sorted_sorted; [exact Hx | | exact IH].
  apply Forall_forall. intros y Hy.
  apply (proj1 (In_sort_by compare_ordinals y r)) in Hy.
  rewrite Forall_forall in Hr. now apply Hr.
Qed.

Lemma StronglySorted_filter {A : Type} (R : A -> A -> Prop) (p : A -> bool) (l : list A) :
  StronglySorted R l -> StronglySorted R (filter p l).
Proof.
  induction 1 as [|x r Hr IH Hx]; cbn [filter]; [constructor|].
  destruct (p x); [|exact IH]. constructor; [exact IH|].
  apply Forall_forall. intros y Hy. apply filter_In in Hy.
  rewrite Forall_forall in Hx. now apply Hx.
Qed.

End FileOrder.

(** X5.  When no specific file is requested and every input name starts
    with a number, the files come back in ascending numeric order of
    their ordinals (2 before 10), in resume mode or not, and without
    resume mode they are exactly the inputs whose name ends in
    [.jsonl.gz]. *)
Theorem files_in_numeric_order
    (RESUME_MODE : bool) (inputDir outputDir : list string)
    (Hnumbered : Forall (fun f => ordinal f <> None) inputDir) :
  StronglySorted ordinal_le (getFilesToProcess None RESUME_MODE inputDir outputDir) /\
  Permutation (filter (fun file => endsWith file ".jsonl.gz") inputDir)
              (getFilesToProcess None false inputDir outputDir).
Proof.
  assert (Hsorted : StronglySorted ordinal_le
            (sort_by compare_ordinals (filter (fun file => endsWith file ".jsonl.gz") inputDir))).
  { apply sort_by_sorted. apply Forall_forall. intros f Hf. apply filter_In in Hf.
    rewrite Forall_forall in Hnumbered. now apply Hnumbered. }
  split; [|apply sort_by_perm].
  cbn [getFilesToProcess]. destruct RESUME_MODE; [|exact Hsorted].
  now apply StronglySorted_filter.
Qed.

Lemma files_in_numeric_order_witness :
  getFilesToProcess None true ["10.jsonl.gz"; "2.jsonl.gz"; "1.jsonl.gz"; "notes.txt"] []
  = ["1.jsonl.gz"; "2.jsonl.gz"; "10.jsonl.gz"] /\
  StronglySorted ordinal_le
    (getFilesToProcess None true ["10.jsonl.gz"; "2.jsonl.gz"; "1.jsonl.gz"] []).
Proof.
  split; [reflexivity|].
  refine (proj1 (files_in_numeric_order true ["10.jsonl.gz"; "2.jsonl.gz"; "1.jsonl.gz"] [] _)).
  repeat constructor; discriminate.
Defined.

(** ** Printing a number and reading it back *)

Section NumberRoundTrip.

Lemma read_digits_uint (d : Decimal.uint) (seen : bool) (acc : Z) :
  read_digits (NilEmpty.string_of_uint d) seen acc
  = (match d with Decimal.Nil => seen | _ => true end, uint_value d acc).
Proof.
  revert seen acc. induction d; intros seen acc;
    cbn [NilEmpty.string_of_uint read_digits uint_value]; try reflexivity;
    match goal with
    | |- context [is_digit ?c] => change (is_digit c) with true; cbv iota
    end;
    rewrite IHd; unfold digit_val; cbn [nat_of_ascii];
    match goal with
    | |- (_, uint_value _ ?a) = (_, uint_value _ ?b) => replace a with b by (cbn; lia)
    end; destruct d; reflexivity.
Qed.

Lemma uint_value_pos (d : Decimal.uint) (a : positive) :
  uint_value d (Z.pos a) = Z.pos (Pos.of_uint_acc d a).
Proof.
  revert a. induction d; intros a; cbn [uint_value Pos.of_uint_acc]; try reflexivity;
    match goal with
    | |- uint_value _ ?x = Z.pos (Pos.of_uint_acc _ ?y) =>
        replace x with (Z.pos y) by lia; apply IHd
    end.
Qed.

Lemma uint_value_zero (d : Decimal.uint) : uint_value d 0 = Z.of_N (Pos.of_uint d).
Proof.
  induction d; cbn [uint_value Pos.of_uint]; try reflexivity;
    try (change (10 * 0 + 1)%Z with 1%Z; change (10 * 0 + 2)%Z with 2%Z;
         change (10 * 0 + 3)%Z with 3%Z; change (10 * 0 + 4)%Z with 4%Z;
         change (10 * 0 + 5)%Z with 5%Z; change (10 * 0 + 6)%Z with 6%Z;
         change (10 * 0 + 7)%Z with 7%Z; change (10 * 0 + 8)%Z with 8%Z;
         change (10 * 0 + 9)%Z with 9%Z; now rewrite uint_value_pos).
  exact IHd.
Qed.

Lemma uint_value_to_uint (p : positive) : uint_value (Pos.to_uint p) 0 = Z.pos p.
Proof. now rewrite uint_value_zero, Unsigned.of_to. Qed.

(** The numeral of a positive number: digits only, and the first of them
    is not white space nor a sign. *)
Lemma read_numeral (p : positive) :
  trimStart (NilEmpty.string_of_uint (Pos.to_uint p))
  = NilEmpty.string_of_uint (Pos.to_uint p) /\
  split_sign (NilEmpty.string_of_uint (Pos.to_uint p))
  = (false, NilEmpty.string_of_uint (Pos.to_uint p)) /\
  read_digits (NilEmpty.string_of_uint (Pos.to_uint p)) false 0 = (true, Z.pos p).
Proof.
  pose proof (Unsigned.to_uint_nonnil p) as Hnn.
  pose proof (uint_value_to_uint p) as Hv.
  rewrite read_digits_uint, Hv.
  destruct (Pos.to_uint p); try contradiction; repeat split.
Qed.

Lemma string_of_Z_pos (p : positive) :
  string_of_Z (Z.pos p) = NilEmpty.string_of_uint (Pos.to_uint p).
Proof.
  unfold string_of_Z. cbn [Z.to_int NilZero.string_of_int NilZero.string_of_uint].
  pose proof (Unsigned.to_uint_nonnil p). now destruct (Pos.to_uint p).
Qed.

Lemma string_of_Z_neg (p : positive) :
  string_of_Z (Z.neg p) = String "-" (NilEmpty.string_of_uint (Pos.to_uint p)).
Proof.
  unfold string_of_Z. cbn [Z.to_int NilZero.string_of_int NilZero.string_of_uint].
  pose proof (Unsigned.to_uint_nonnil p). now destruct (Pos.to_uint p).
Qed.

(** [parseInt(String(n), 10)] is [n]. *)
Lemma parseInt_string_of_Z (z : Z) : parseInt_string (string_of_Z z) = Some z.
Proof.
  destruct z as [|p|p]; [reflexivity| |].
  - rewrite string_of_Z_pos. unfold parseInt_string.
    destruct (read_numeral p) as [-> [-> ->]]. reflexivity.
  - rewrite string_of_Z_neg. unfold parseInt_string.
    cbn [trimStart is_space]. change (is_space "-") with false. cbv iota.
    cbn [split_sign]. destruct (read_numeral p) as [_ [_ ->]]. reflexivity.
Qed.

End NumberRoundTrip.

(** ** Dates made of integers *)

Section IntegerDates.

Lemma length_string_append (a b : string) :
  String.length (a ++ b) = (String.length a + String.length b)%nat.
Proof. induction a as [|c a IH]; cbn; [reflexivity | now rewrite IH]. Qed.

Lemma length_repeat_char (c : ascii) (n : nat) : String.length (repeat_char c n) = n.
Proof. induction n as [|n IH]; cbn; [reflexivity | now rewrite IH]. Qed.

(** [padStart] pads up to the width and never truncates. *)
Lemma length_padStart (n : nat) (s : string) :
  String.length (padStart n s) = Nat.max n (String.length s).
Proof. unfold padStart. rewrite length_string_append, length_repeat_char. lia. Qed.

(** A property checked for every number of a range holds of each. *)
Lemma holds_from_each (P : Z -> bool) (bound z0 : Z) :
  holds_from P (Z.to_nat bound) z0 = true ->
  forall z, (z0 <= z < z0 + bound)%Z -> P z = true.
Proof.
  intros Hall z Hz. assert (Hc : (z0 <= z < z0 + Z.of_nat (Z.to_nat bound))%Z) by lia.
  clear Hz. revert Hall z Hc. generalize (Z.to_nat bound) as count.
  intros count. revert z0. induction count as [|count IH]; intros z0 Hall z Hz; [lia|].
  cbn [holds_from] in Hall. apply andb_true_iff in Hall. destruct Hall as [H0 Hrest].
  destruct (Z.eq_dec z z0) as [->|Hne]; [exact H0|].
  apply (IH (z0 + 1)%Z Hrest). lia.
Qed.

(** Padded to four characters, a number from 0 to 9999 is its four
    digits; padded to two, a number from 0 to 99 is its two digits. *)
Lemma padStart_four_digits (z : Z) :
  (0 <= z <= 9999)%Z -> padStart 4 (string_of_Z z) = four_digits z.
Proof.
  intros Hz. apply String.eqb_eq.
  apply (holds_from_each (fun n => String.eqb (padStart 4 (string_of_Z n)) (four_digits n))
           10000 0); [vm_compute; reflexivity | lia].
Qed.

Lemma padStart_two_digits (z : Z) :
  (0 <= z <= 99)%Z -> padStart 2 (string_of_Z z) = two_digits z.
Proof.
  intros Hz. apply String.eqb_eq.
  apply (holds_from_each (fun n => String.eqb (padStart 2 (string_of_Z n)) (two_digits n))
           100 0); [vm_compute; reflexivity | lia].
Qed.

Lemma parseInt_number (z : Z) : parseInt (Some (JNum z)) = Some z.
Proof. apply parseInt_string_of_Z. Qed.

End IntegerDates.

(** X6.  Date parts that are integers, the year from 0 to 9999, the month
    and the day from 0 to 99, in each of the four shapes: the converter
    returns the four digits of the year, the two digits of the month and
    the two digits of the day, joined by hyphens; a month or a day that is
    missing, or a string [parseInt] reads no number from, is printed as
    [01].  Nothing checks that the month or the day exists. *)
Theorem integer_date_parts_are_printed
    (y m d : Z)
    (Hy : (0 <= y <= 9999)%Z) (Hm : (0 <= m <= 99)%Z) (Hd : (0 <= d <= 99)%Z) :
  let date month day := Some (four_digits y ++ "-" ++ month ++ "-" ++ day)%string in
  convertDatePartsToISOString (JArr [JNum y; JNum m; JNum d])
  = date (two_digits m) (two_digits d) /\
  convertDatePartsToISOString (JArr [JArr [JNum y; JNum m; JNum d]])
  = date (two_digits m) (two_digits d) /\
  convertDatePartsToISOString (JArr [JArr [JNum y; JNum m]]) = date (two_digits m) "01" /\
  convertDatePartsToISOString (JArr [JArr [JNum y]]) = date "01" "01" /\
  (forall month day,
     parseInt_string month = None -> parseInt_string day = None ->
     convertDatePartsToISOString (JArr [JArr [JNum y; JStr month; JStr day]])
     = date "01" "01").
Proof.
  cbv zeta.
  pose proof (padStart_four_digits y Hy) as Hyear.
  pose proof (padStart_two_digits m Hm) as Hmonth.
  pose proof (padStart_two_digits d Hd) as Hday.
  repeat split.
  - cbn [convertDatePartsToISOString nth_error List.length Nat.ltb Nat.leb].
    rewrite !parseInt_number. unfold iso_date. cbn [or_default].
    now rewrite Hyear, Hmonth, Hday.
  - cbn [convertDatePartsToISOString nth_error List.length Nat.ltb Nat.leb].
    rewrite !parseInt_number. unfold iso_date. cbn [or_default].
    now rewrite Hyear, Hmonth, Hday.
  - cbn [convertDatePartsToISOString nth_error List.length Nat.ltb Nat.leb].
    rewrite !parseInt_number. unfold iso_date. cbn [or_default].
    now rewrite Hyear, Hmonth.
  - cbn [convertDatePartsToISOString nth_error List.length Nat.ltb Nat.leb].
    rewrite !parseInt_number. unfold iso_date. cbn [or_default].
    now rewrite Hyear.
  - intros month day Hnm Hnd.
    cbn [convertDatePartsToISOString nth_error List.length Nat.ltb Nat.leb].
    rewrite parseInt_number. cbn [parseInt js_toString]. rewrite Hnm, Hnd.
    unfold iso_date. cbn [or_default]. now rewrite Hyear.
Qed.

(** A month and a day that do not exist are printed all the same. *)
Lemma integer_date_parts_are_printed_witness :
  convertDatePartsToISOString (JArr [JNum 2020; JNum 13; JNum 45]) = Some "2020-13-45".
Proof.
  refine (proj1 (integer_date_parts_are_printed 2020 13 45 _ _ _)); lia.
Defined.

(** X18.  Where the dates of a record are: for date parts [[y, m, d]] of
    integers, the year from 0 to 9999, the month and the day from 0 to 99,
    [processDateFields] removes an object's own [date-parts] and puts the
    string of the form YYYY-MM-DD under [date]; it replaces by that string
    the object under each of the seven date fields of the Crossref schema
    and under the [start] of an element of [license] that holds the date
    parts; and it removes such a date field when [parseInt] reads no
    number from the year. *)
Theorem date_places_hold_iso_strings
    (y m d : Z)
    (Hy : (0 <= y <= 9999)%Z) (Hm : (0 <= m <= 99)%Z) (Hd : (0 <= d <= 99)%Z) :
  let dp := JArr [JArr [JNum y; JNum m; JNum d]] in
  let iso := JStr (four_digits y ++ "-" ++ two_digits m ++ "-" ++ two_digits d) in
  (forall o,
     obj_get "date-parts" o = Some dp ->
     get_prop (processDateFields (JObj o)) "date-parts" = None /\
     get_prop (processDateFields (JObj o)) "date" = Some iso) /\
  (forall o field fo,
     In field crossref_date_fields ->
     obj_get field o = Some (JObj fo) ->
     obj_get "date-parts" fo = Some dp ->
     get_prop (processDateFields (JObj o)) field = Some iso) /\
  (forall o licenses i lo so,
     obj_get "license" o = Some (JArr licenses) ->
     nth_error licenses i = Some (JObj lo) ->
     obj_get "start" lo = Some (JObj so) ->
     obj_get "date-parts" so = Some dp ->
     exists licenses' license',
       get_prop (processDateFields (JObj o)) "license" = Some (JArr licenses') /\
       nth_error licenses' i = Some license' /\
       get_prop license' "start" = Some iso) /\
  (forall o field fo year,
     In field crossref_date_fields ->
     parseInt_string year = None ->
     obj_get field o = Some (JObj fo) ->
     obj_get "date-parts" fo = Some (JArr [JArr [JStr year; JNum m; JNum d]]) ->
     get_prop (processDateFields (JObj o)) field = None).
Proof.
  cbv zeta.
  assert (Hconv : converted_date (JNum y) (Some (JNum m)) (Some (JNum d))
                  = Some (JStr (four_digits y ++ "-" ++ two_digits m ++ "-" ++ two_digits d))).
  { unfold converted_date. rewrite !parseInt_number. unfold iso_date. cbn [or_default].
    now rewrite (padStart_four_digits y Hy), (padStart_two_digits m Hm),
      (padStart_two_digits d Hd). }
  destruct (date_parts_at_places (JArr [JArr [JNum y; JNum m; JNum d]]) (JNum y)
              (Some (JNum m)) (Some (JNum d)) (dp_year_month_day _ _ _) eq_refl)
    as [_ [Hown [Hfield Hlicense]]].
  rewrite Hconv in Hown, Hfield, Hlicense.
  split; [exact Hown | split; [|split; [exact Hlicense|]]].
  - intros o field fo Hin. apply Hfield. exact Hin.
  - intros o field fo year Hin Hyear Hf Hdp.
    destruct (date_parts_at_places (JArr [JArr [JStr year; JNum m; JNum d]]) (JStr year)
                (Some (JNum m)) (Some (JNum d)) (dp_year_month_day _ _ _) eq_refl)
      as [_ [_ [Hfield' _]]].
    rewrite (Hfield' o field fo Hin Hf Hdp). unfold converted_date.
    cbn [parseInt js_toString]. now rewrite Hyear.
Qed.

(** The example of the specification under [issued]; and a year that is
    not a number. *)
Lemma date_places_hold_iso_strings_witness :
  get_prop
    (processDateFields
       (JObj [("issued", JObj [("date-parts", JArr [JArr [JNum 2020; JNum 1; JNum 1]])])]))
    "issued" = Some (JStr "2020-01-01").
Proof.
  refine (proj1 (proj2 (date_places_hold_iso_strings 2020 1 1 _ _ _))
            [("issued", JObj [("date-parts", JArr [JArr [JNum 2020; JNum 1; JNum 1]])])]
            "issued" [("date-parts", JArr [JArr [JNum 2020; JNum 1; JNum 1]])]
            _ eq_refl eq_refl);
    try lia.
  cbn. tauto.
Defined.

(** ** One line per record *)

Section LineFeeds.

Variable parse : string -> parse_result.
Variable ym : string -> list string.

Lemma line_feeds_app (a b : string) :
  line_feeds (a ++ b) = (line_feeds a + line_feeds b)%nat.
Proof. induction a as [|c a IH]; cbn [String.append line_feeds]; [reflexivity | lia]. Qed.

(** No escape is or contains a line feed: the line feed itself is written
    as a backslash and the letter n. *)
Lemma line_feeds_escape_char (a : ascii) : line_feeds (escape_char a) = 0%nat.
Proof. destruct a as [[] [] [] [] [] [] [] []]; reflexivity. Qed.

Lemma line_feeds_quote (s : string) : line_feeds (quote s) = 0%nat.
Proof.
  unfold quote. cbn [line_feeds]. change (nat_of_ascii dquote =? 10)%nat with false.
  cbv iota. rewrite line_feeds_app. cbn [line_feeds].
  change (nat_of_ascii dquote =? 10)%nat with false. cbv iota.
  induction s as [|a s IH]; cbn [escape line_feeds]; [reflexivity|].
  rewrite line_feeds_app, line_feeds_escape_char. exact IH.
Qed.

Lemma line_feeds_uint (d : Decimal.uint) : line_feeds (NilEmpty.string_of_uint d) = 0%nat.
Proof. induction d; cbn [NilEmpty.string_of_uint line_feeds]; [reflexivity | exact IHd ..]. Qed.

Lemma line_feeds_string_of_Z (z : Z) : line_feeds (string_of_Z z) = 0%nat.
Proof.
  destruct z as [|p|p]; [reflexivity| |].
  - rewrite string_of_Z_pos. apply line_feeds_uint.
  - rewrite string_of_Z_neg. cbn [line_feeds]. apply line_feeds_uint.
Qed.

Lemma line_feeds_comma_separated {A : Type} (f : A -> string) (l : list A) :
  Forall (fun x => line_feeds (f x) = 0%nat) l ->
  line_feeds (comma_separated f l) = 0%nat.
Proof.
  induction 1 as [|x r Hx Hr IH]; [reflexivity|].
  destruct r as [|y r]; [exact Hx|].
  change (comma_separated f (x :: y :: r))
    with (f x ++ "," ++ comma_separated f (y :: r))%string.
  rewrite !line_feeds_app, Hx, IH. reflexivity.
Qed.

(** A serialised value is one line. *)
Lemma line_feeds_JSON_stringify (v : json) : line_feeds (JSON_stringify v) = 0%nat.
Proof.
  induction v as [|[]|n|s|l IH|o IH] using json_nested_ind; try reflexivity.
  - apply line_feeds_string_of_Z.
  - apply line_feeds_quote.
  - cbn [JSON_stringify]. rewrite !line_feeds_app.
    rewrite (line_feeds_comma_separated JSON_stringify l IH). reflexivity.
  - cbn [JSON_stringify]. rewrite !line_feeds_app.
    rewrite line_feeds_comma_separated; [reflexivity|].
    apply Forall_forall. intros kv Hkv. rewrite Forall_forall in IH.
    rewrite !line_feeds_app, line_feeds_quote, (IH kv Hkv). reflexivity.
Qed.

Lemma line_feeds_emitted (line : string) :
  line_feeds (emitted parse line) = if is_record parse line then 1%nat else 0%nat.
Proof.
  unfold emitted, is_record. destruct (is_blank line); [reflexivity|]. cbn [negb andb].
  destruct (parse (trim line)) as [obj|message]; [|reflexivity].
  now rewrite line_feeds_app, line_feeds_JSON_stringify.
Qed.

Lemma line_feeds_all_emitted (lines : list string) :
  line_feeds (all_emitted parse lines) = count (is_record parse) lines.
Proof.
  unfold all_emitted, count. induction lines as [|line r IH]; [reflexivity|].
  cbn [map fold_right filter]. rewrite line_feeds_app, line_feeds_emitted, IH.
  destruct (is_record parse line); reflexivity.
Qed.

End LineFeeds.

(** X7.  The output is line-delimited: whatever the lines of the input,
    the number of line feeds in the bytes handed to the compressor is the
    record count the stream reports; what a line contributes to them is
    nothing, or one serialised record, free of line feeds, followed by
    one line feed. *)
Theorem one_line_per_record
    (JSON_parse : string -> parse_result) (year_matches : string -> list string)
    (inputPath : string) (debugMode : bool) (lines : list string) :
  let st := run_lines JSON_parse year_matches debugMode
              (initial_tstate inputPath debugMode) lines in
  line_feeds (written st) = processedCount st /\
  Forall (fun line =>
            emitted JSON_parse line = "" \/
            exists obj, JSON_parse (trim line) = Parsed obj /\
                        emitted JSON_parse line
                        = (JSON_stringify (transform_record obj) ++ newline)%string /\
                        line_feeds (JSON_stringify (transform_record obj)) = 0%nat)
         lines.
Proof.
  cbv zeta. split.
  - destruct (run_lines_counts JSON_parse year_matches debugMode lines
                (initial_tstate inputPath debugMode)) as [Hp [_ Hw]].
    rewrite Hp, Hw. unfold initial_tstate, written at 1. cbn [pushed processedCount fold_right].
    cbn [String.append]. apply line_feeds_all_emitted.
  - apply Forall_forall. intros line _. unfold emitted.
    destruct (is_blank line); [now left|].
    destruct (JSON_parse (trim line)) as [obj|message]; [right | now left].
    exists obj. repeat split. apply line_feeds_JSON_stringify.
Qed.

(** ** The passes after the flattening, applied twice *)

Section DatePartsRemoved.

Lemma In_keys_obj_set (k k' : string) (v : json) (o : obj) :
  In k' (keys (obj_set k v o)) -> k' = k \/ In k' (keys o).
Proof.
  rewrite keys_obj_set. destruct (mem k (keys o)); [now right|].
  intros Hin. apply in_app_or in Hin. destruct Hin as [H|[<-|[]]]; [now right | now left].
Qed.

Lemma not_In_keys_obj_delete (k : string) (o : obj) : ~ In k (keys (obj_delete k o)).
Proof. apply obj_get_None_keys, obj_get_delete_same. Qed.

Lemma convert_own_date_parts_key (o : obj) :
  ~ In "date-parts" (keys (convert_own_date_parts o)).
Proof.
  unfold convert_own_date_parts.
  destruct (obj_get "date-parts" o) eqn:Hget.
  - apply not_In_keys_obj_delete.
  - now apply obj_get_None_keys.
Qed.

Lemma convert_date_field_key (o : obj) (field : string) :
  In field dateFields ->
  ~ In "date-parts" (keys o) -> ~ In "date-parts" (keys (convert_date_field o field)).
Proof.
  intros Hf Ho. unfold convert_date_field.
  destruct (obj_get field o) as [fv|]; [|exact Ho].
  destruct (truthy fv && is_object_like fv); [|exact Ho].
  destruct (get_prop fv "date-parts") as [dateParts|]; [|exact Ho].
  destruct (truthy dateParts); [|exact Ho].
  destruct (convertDatePartsToISOString (unwrap_date_parts dateParts)).
  - intros Hin. apply In_keys_obj_set in Hin. destruct Hin as [<-|Hin]; [|now apply Ho].
    revert Hf. not_a_date_field.
  - intros Hin. apply Ho. eapply In_keys_obj_delete. eassumption.
Qed.

Lemma convert_licenses_key (o : obj) :
  ~ In "date-parts" (keys o) -> ~ In "date-parts" (keys (convert_licenses o)).
Proof.
  intros Ho. unfold convert_licenses.
  destruct (obj_get "license" o) as [[| | | |licenses|]|]; try exact Ho.
  intros Hin. apply In_keys_obj_set in Hin. destruct Hin as [H|Hin]; [discriminate H | now apply Ho].
Qed.

(** The step on an object leaves it without a [date-parts] property. *)
Lemma date_step_key (o : obj) : ~ In "date-parts" (keys (date_step o)).
Proof.
  unfold date_step. apply convert_licenses_key.
  generalize (convert_own_date_parts_key o). generalize (convert_own_date_parts o) as o1.
  assert (Hall : forall f, In f dateFields -> In f dateFields) by trivial.
  revert Hall. generalize dateFields at 1 3 as fields.
  induction fields as [|f fs IH]; intros Hall o1 H1; [exact H1|].
  cbn [fold_left]. apply IH.
  - intros g Hg. apply Hall. now right.
  - apply convert_date_field_key; [apply Hall; now left | exact H1].
Qed.

Lemma no_date_parts_element (l : list json) (x : json) :
  no_date_parts (JArr l) = true -> In x l -> no_date_parts x = true.
Proof. cbn [no_date_parts]. intros Hl Hx. rewrite forallb_forall in Hl. now apply Hl. Qed.

Lemma no_date_parts_value (o : obj) (kv : string * json) :
  no_date_parts (JObj o) = true -> In kv o ->
  String.eqb (fst kv) "date-parts" = false /\ no_date_parts (snd kv) = true.
Proof.
  cbn [no_date_parts]. intros Ho Hkv. rewrite forallb_forall in Ho.
  specialize (Ho kv Hkv). apply andb_true_iff in Ho. destruct Ho as [Hk Hv].
  now apply negb_true_iff in Hk.
Qed.

Lemma no_date_parts_get (o : obj) :
  no_date_parts (JObj o) = true -> obj_get "date-parts" o = None.
Proof.
  intros Ho. apply obj_get_None_keys. intros Hin. unfold keys in Hin.
  apply in_map_iff in Hin. destruct Hin as [kv [Hk Hkv]].
  destruct (no_date_parts_value o kv Ho Hkv) as [Hne _].
  rewrite Hk, string_eqb_refl in Hne. discriminate Hne.
Qed.

Lemma no_date_parts_get_prop (v : json) :
  no_date_parts v = true -> get_prop v "date-parts" = None.
Proof. destruct v; try reflexivity. apply no_date_parts_get. Qed.

Lemma no_date_parts_obj_get (o : obj) (k : string) (v : json) :
  no_date_parts (JObj o) = true -> obj_get k o = Some v -> no_date_parts v = true.
Proof.
  intros Ho Hget. exact (proj2 (no_date_parts_value o _ Ho (obj_get_In _ _ _ Hget))).
Qed.

(** Where no [date-parts] is left, the step finds nothing to convert. *)
Lemma date_step_nothing_left (o : obj) : no_date_parts (JObj o) = true -> date_step o = o.
Proof.
  intros Ho. unfold date_step.
  assert (Hown : convert_own_date_parts o = o).
  { unfold convert_own_date_parts. now rewrite (no_date_parts_get o Ho). }
  assert (Hfields : forall fields, fold_left convert_date_field fields o = o).
  { induction fields as [|f fs IH]; [reflexivity|].
    cbn [fold_left]. replace (convert_date_field o f) with o; [exact IH|].
    unfold convert_date_field.
    destruct (obj_get f o) as [fv|] eqn:Hf; [|reflexivity].
    rewrite (no_date_parts_get_prop fv (no_date_parts_obj_get o f fv Ho Hf)).
    now destruct (truthy fv && is_object_like fv). }
  rewrite Hown, Hfields. unfold convert_licenses.
  destruct (obj_get "license" o) as [[| | | |licenses|]|] eqn:Hl; try reflexivity.
  pose proof (no_date_parts_obj_get o "license" _ Ho Hl) as Hls.
  rewrite map_fixed.
  - now apply obj_set_same_value.
  - intros x Hx. pose proof (no_date_parts_element licenses x Hls Hx) as Hx'.
    unfold convert_license_start.
    destruct x as [| | | | |lo]; try reflexivity.
    destruct (obj_get "start" lo) as [start|] eqn:Hs; [|reflexivity].
    rewrite (no_date_parts_get_prop start (no_date_parts_obj_get lo "start" start Hx' Hs)).
    now destruct (truthy start).
Qed.

Lemma processDateFields_no_date_parts (v : json) :
  no_date_parts (processDateFields v) = true.
Proof.
  unfold processDateFields.
  apply (visit_invariant date_step date_step_depth (fun r => no_date_parts r = true)).
  - intros x Hx. destruct x; try reflexivity; discriminate.
  - intros l Hl. cbn [no_date_parts]. apply forallb_forall.
    now rewrite Forall_forall in Hl.
  - intros o. generalize (date_step_key o). generalize (date_step o) as o1.
    intros o1 Hkey Hvis. cbn [no_date_parts]. apply forallb_forall.
    intros kv Hkv. unfold map_values in Hkv.
    apply in_map_iff in Hkv. destruct Hkv as [kv0 [<- Hin]]. cbn [fst snd].
    rewrite Forall_forall in Hvis. rewrite (Hvis kv0 Hin), andb_true_r.
    apply negb_true_iff. destruct (String.eqb (fst kv0) "date-parts") eqn:E; [|reflexivity].
    apply String.eqb_eq in E. exfalso. apply Hkey. rewrite <- E.
    unfold keys. now apply in_map.
Qed.

Lemma processDateFields_nothing_left (v : json) :
  no_date_parts v = true -> processDateFields v = v.
Proof.
  apply (visit_fixed date_step date_step_depth (fun x => no_date_parts x = true)).
  - intros l x. apply no_date_parts_element.
  - intros o kv Ho Hin. exact (proj2 (no_date_parts_value o kv Ho Hin)).
  - apply date_step_nothing_left.
Qed.

(** Cleaning rebuilds every object by assignment, so its result has
    distinct keys whatever the argument. *)
Lemma wf_cleaned (v : json) : wf (cleanNullValues v).
Proof.
  induction v as [| | | |l IH|o IH] using json_nested_ind; try reflexivity.
  - rewrite cleanNullValues_arr. apply wf_arr, Forall_forall. intros z Hz.
    apply in_map_iff in Hz. destruct Hz as [y [<- Hy]]. apply filter_In in Hy.
    destruct Hy as [Hy _]. rewrite Forall_forall in IH. now apply IH.
  - cbn [cleanNullValues]. apply wf_built. apply fold_assign; [|constructor|constructor].
    intros acc [key value] Hin. rewrite Forall_forall in IH.
    pose proof (IH _ Hin) as Hv. cbn [snd] in Hv.
    destruct value; cbn [clean_property]; try (assigned; exact Hv).
    destruct (cannot_be_null key); [|now left].
    assigned. reflexivity.
Qed.

End DatePartsRemoved.


(** X9.  Each of the four passes that follow the flattening does nothing
    when applied to its own result: the two that change a value in place
    whatever the value, the null-cleaning pass on a value without a key
    [__proto__], the renaming pass on a value without a key that is or is
    renamed to [__proto__]. *)
Theorem later_passes_are_idempotent (v : json) :
  processDateFields (processDateFields v) = processDateFields v /\
  fixBigQueryIssues (fixBigQueryIssues v) = fixBigQueryIssues v /\
  (own_proto_free v = true ->
   cleanNullValues (cleanNullValues v) = cleanNullValues v) /\
  (proto_free v = true ->
   replaceKeyDashes (replaceKeyDashes v) = replaceKeyDashes v).
Proof.
  repeat split.
  - apply processDateFields_nothing_left, processDateFields_no_date_parts.
  - apply fixBigQueryIssues_fixed, fixBigQueryIssues_year_never_string.
  - intros Hown. apply cleanNullValues_fixed;
      [apply wf_cleaned | now apply no_key_cleanNullValues | apply cleanNullValues_null_free].
  - intros _.
    apply replaceKeyDashes_fixed; [apply wf_replaceKeyDashes | apply hyphen_free_replaceKeyDashes].
Qed.

(** A record with a null and with hyphens in its keys. *)
Lemma later_passes_are_idempotent_witness :
  let v := JObj [("a-b", JNull); ("c-d", JArr [JNull; JNum 1])] in
  cleanNullValues (cleanNullValues v) = cleanNullValues v /\
  replaceKeyDashes (replaceKeyDashes v) = replaceKeyDashes v.
Proof.
  cbv zeta.
  destruct (later_passes_are_idempotent
              (JObj [("a-b", JNull); ("c-d", JArr [JNull; JNum 1])])) as [_ [_ [Hc Hr]]].
  split; [exact (Hc eq_refl) | exact (Hr eq_refl)].
Defined.

(** ** Renaming without collisions *)

Section Renaming.

Lemma rename_fold_fresh (o acc : obj) :
  NoDup (keys acc ++ map replace_dashes (keys o)) ->
  fold_left (rename_property replaceKeyDashes) o acc = acc ++ map renamed o.
Proof.
  revert acc. induction o as [|[key value] r IH]; intros acc Hnd; cbn [fold_left map].
  - now rewrite app_nil_r.
  - cbn [keys map fst] in Hnd. cbn [rename_property].
    assert (Hfresh : ~ In (replace_dashes key) (keys acc)).
    { apply NoDup_remove_2 in Hnd. intros H. apply Hnd. apply in_or_app. now left. }
    rewrite (obj_set_fresh _ _ _ Hfresh), IH.
    + now rewrite <- app_assoc.
    + unfold keys at 1. rewrite map_app, <- app_assoc. exact Hnd.
Qed.

Lemma rename_fold_keys (o acc : obj) :
  incl (keys (fold_left (rename_property replaceKeyDashes) o acc))
       (keys acc ++ map replace_dashes (keys o)).
Proof.
  revert acc. induction o as [|[key value] r IH]; intros acc; cbn [fold_left].
  - cbn [keys map]. rewrite app_nil_r. apply incl_refl.
  - intros k Hk. apply IH in Hk. cbn [rename_property] in Hk.
    apply in_app_or in Hk. cbn [keys map fst]. apply in_or_app.
    destruct Hk as [Hk|Hk].
    + apply In_keys_obj_set in Hk. destruct Hk as [->|Hk]; [right; now left | now left].
    + right. now right.
Qed.

End Renaming.

(** X10.  In an object without a key that is or is renamed to
    [__proto__], renaming loses a field only by a collision: when the
    renamed keys of the object are pairwise distinct, the result has
    every property of the object, renamed, in the same order; and the
    result has as many properties as the object exactly in that case. *)
Theorem replaceKeyDashes_keeps_fields_unless_keys_collide (o : obj)
    (Hproto : proto_free (JObj o) = true) :
  (NoDup (map replace_dashes (keys o)) ->
   replaceKeyDashes (JObj o) = JObj (map renamed o)) /\
  (forall r, replaceKeyDashes (JObj o) = JObj r ->
             (List.length r = List.length o <-> NoDup (map replace_dashes (keys o)))).
Proof.
  split.
  - intros Hnd. cbn [replaceKeyDashes]. f_equal. now apply (rename_fold_fresh o []).
  - intros r Hr. split.
    + intros Hlen.
      pose proof (wf_replaceKeyDashes (JObj o)) as Hwf. rewrite Hr in Hwf.
      apply wf_obj in Hwf. destruct Hwf as [Hnd _].
      eapply NoDup_incl_NoDup; [exact Hnd | |].
      * unfold keys. rewrite !length_map. lia.
      * cbn [replaceKeyDashes] in Hr. injection Hr as <-.
        exact (rename_fold_keys o []).
    + intros Hnd. cbn [replaceKeyDashes] in Hr. injection Hr as <-.
      rewrite (rename_fold_fresh o [] Hnd). cbn [app]. apply length_map.
Qed.

(** Two keys that stay distinct: both fields are kept, in order. *)
Lemma replaceKeyDashes_keeps_fields_unless_keys_collide_witness :
  replaceKeyDashes (JObj [("a-b", JNum 1); ("c", JNum 2)])
  = JObj [("a_b", JNum 1); ("c", JNum 2)].
Proof.
  refine (proj1 (replaceKeyDashes_keeps_fields_unless_keys_collide
                   [("a-b", JNum 1); ("c", JNum 2)] eq_refl) _).
  apply (proj1 (distinct_NoDup _)). reflexivity.
Defined.

(** ** The names of the outputs and the resume set *)

Section OutputNames.

Lemma split_head_no_separator (c : ascii) (s : string) :
  all_chars (fun a => negb (Ascii.eqb a c)) (split_head c s) = true.
Proof.
  induction s as [|a s IH]; cbn [split_head]; [reflexivity|].
  destruct (Ascii.eqb a c) eqn:E; [reflexivity|]. cbn [all_chars]. now rewrite E, IH.
Qed.

Lemma all_chars_split_head (p : ascii -> bool) (c : ascii) (s : string) :
  all_chars p s = true -> all_chars p (split_head c s) = true.
Proof.
  induction s as [|a s IH]; cbn [split_head all_chars]; [reflexivity|].
  intros H. apply andb_true_iff in H. destruct H as [Ha Hs].
  destruct (Ascii.eqb a c); [reflexivity|]. cbn [all_chars]. now rewrite Ha, IH.
Qed.

Lemma all_chars_both (p q : ascii -> bool) (s : string) :
  all_chars p s = true -> all_chars q s = true ->
  all_chars (fun a => p a && q a) s = true.
Proof.
  induction s as [|a s IH]; cbn [all_chars]; [reflexivity|].
  intros Hp Hq. apply andb_true_iff in Hp, Hq.
  destruct Hp as [-> Hp], Hq as [-> Hq]. now rewrite IH.
Qed.

(** What follows the first separator does not matter. *)
Lemma split_head_before_separator (c : ascii) (a rest : string) :
  split_head c (a ++ String c rest) = split_head c a.
Proof.
  induction a as [|x a IH]; cbn [String.append split_head].
  - now rewrite Ascii.eqb_refl.
  - destruct (Ascii.eqb x c); [reflexivity | now rewrite IH].
Qed.

(** The input name the resume set holds for the output of [file]. *)
Lemma processedFiles_outputName (file : string) :
  processedFiles [outputName file]
  = [(split_head "_"%char (split_head "."%char file) ++ ".jsonl.gz")%string].
Proof.
  unfold processedFiles. cbn [filter]. unfold outputName at 1.
  rewrite (endsWith_append (split_head "."%char file) "_processed.jsonl.gz").
  cbn [map]. unfold outputName.
  now rewrite (split_head_before_separator "_"%char (split_head "."%char file)
                 "processed.jsonl.gz").
Qed.

Lemma plain_stem_split (stem : string) :
  plain_stem stem = true ->
  split_head "."%char (stem ++ ".jsonl.gz") = stem /\ split_head "_"%char stem = stem.
Proof.
  intros Hp. unfold plain_stem in Hp. split.
  - apply (split_head_append "."%char stem "jsonl.gz").
    eapply all_chars_impl; [|exact Hp]. intros a Ha. cbv beta in Ha.
    apply andb_true_iff in Ha. tauto.
  - rewrite <- (string_append_nil_r stem) at 1.
    assert (Hu : all_chars (fun a => negb (Ascii.eqb a "_"%char)) stem = true).
    { eapply all_chars_impl; [|exact Hp]. intros a Ha. cbv beta in Ha.
      apply andb_true_iff in Ha. tauto. }
    clear Hp. induction stem as [|x stem IH]; [reflexivity|].
    cbn [all_chars] in Hu. apply andb_true_iff in Hu. destruct Hu as [Hx Hs].
    apply negb_true_iff in Hx. cbn [String.append split_head]. rewrite Hx.
    f_equal. now apply IH.
Qed.

End OutputNames.

(** X11.  The output [processFile] writes for an input and the resume
    set.  An input named by a stem without dot or underscore followed by
    [.jsonl.gz] is skipped in resume mode once its output is in the output
    directory.  No other input is recognised by its own output: with
    only that output in place, resume mode returns the input again. *)
Theorem resume_recognises_plain_names_only
    (file : string) (inputDir outputDir : list string) :
  (forall stem, plain_stem stem = true -> file = (stem ++ ".jsonl.gz")%string ->
     In (outputName file) outputDir ->
     ~ In file (getFilesToProcess None true inputDir outputDir)) /\
  ((forall stem, plain_stem stem = true -> file <> (stem ++ ".jsonl.gz")%string) ->
   In file inputDir -> endsWith file ".jsonl.gz" = true ->
   In file (getFilesToProcess None true inputDir [outputName file])).
Proof.
  split.
  - intros stem Hp -> Hout. rewrite In_getFilesToProcess. intros [_ [_ Hn]]. apply Hn.
    destruct (plain_stem_split stem Hp) as [Hdot Hus].
    unfold processedFiles. apply in_map_iff.
    exists (outputName (stem ++ ".jsonl.gz")). split.
    + unfold outputName. rewrite Hdot.
      rewrite (split_head_before_separator "_"%char stem "processed.jsonl.gz").
      now rewrite Hus.
    + apply filter_In. split; [exact Hout|]. unfold outputName.
      apply endsWith_append.
  - intros Hother Hin Hends. rewrite In_getFilesToProcess.
    split; [exact Hin | split; [exact Hends|]].
    rewrite processedFiles_outputName. intros [Heq|[]].
    apply (Hother (split_head "_"%char (split_head "."%char file))); [|now symmetry].
    unfold plain_stem. apply all_chars_both.
    + apply all_chars_split_head, split_head_no_separator.
    + apply split_head_no_separator.
Qed.

(** The input [3.jsonl.gz] is skipped once its own output is there. *)
Lemma resume_recognises_plain_names_only_witness :
  ~ In "3.jsonl.gz"
      (getFilesToProcess None true ["3.jsonl.gz"; "4.jsonl.gz"] [outputName "3.jsonl.gz"]).
Proof.
  refine (proj1 (resume_recognises_plain_names_only "3.jsonl.gz"
                   ["3.jsonl.gz"; "4.jsonl.gz"] [outputName "3.jsonl.gz"])
                "3" eq_refl eq_refl _).
  left. reflexivity.
Defined.

(** An input with an underscore in its name is processed again on every
    resumed run. *)
Example resume_repeats_underscored_input :
  getFilesToProcess None true ["part_1.jsonl.gz"] [outputName "part_1.jsonl.gz"]
  = ["part_1.jsonl.gz"].
Proof. reflexivity. Qed.

(** ** The workers of processFiles *)

Section Dispatch.

(** The indices of a worker: the start and its strides below [n]. *)
Lemma In_worker_indices (fuel jobs n index k : nat) :
  In k (worker_indices fuel jobs n index) <->
  exists t, (t < fuel)%nat /\ k = (index + t * jobs)%nat /\ (k < n)%nat.
Proof.
  revert index. induction fuel as [|fuel IH]; intros index; cbn [worker_indices].
  - split; [intros [] | intros [t [Ht _]]; lia].
  - destruct (n <=? index)%nat eqn:E.
    + apply Nat.leb_le in E. split; [intros []|]. intros [t [_ [-> Hk]]]. lia.
    + apply Nat.leb_gt in E. cbn [In]. rewrite IH. split.
      * intros [<-|[t [Ht [-> Hk]]]].
        -- exists 0%nat. lia.
        -- exists (S t). cbn [Nat.mul]. lia.
      * intros [[|t] [Ht [-> Hk]]]; [left; lia | right; exists t; cbn [Nat.mul] in *; lia].
Qed.

Lemma NoDup_worker_indices (fuel jobs n index : nat) :
  (1 <= jobs)%nat -> NoDup (worker_indices fuel jobs n index).
Proof.
  intros Hj. revert index. induction fuel as [|fuel IH]; intros index;
    cbn [worker_indices]; [constructor|].
  destruct (n <=? index)%nat; constructor; [|apply IH].
  intros Hin. apply In_worker_indices in Hin. destruct Hin as [t [_ [Hk _]]]. lia.
Qed.

Lemma NoDup_concat_map {A : Type} (f : nat -> list A) (l : list nat) :
  NoDup l ->
  (forall i, In i l -> NoDup (f i)) ->
  (forall i j a, In i l -> In j l -> In a (f i) -> In a (f j) -> i = j) ->
  NoDup (List.concat (map f l)).
Proof.
  induction 1 as [|x l Hx Hl IH]; intros Hf Hdisj; cbn [map List.concat]; [constructor|].
  apply NoDup_app.
  - apply Hf. now left.
  - apply IH.
    + intros i Hi. apply Hf. now right.
    + intros i j a Hi Hj. apply Hdisj; now right.
  - intros a Ha Hin. apply in_concat in Hin. destruct Hin as [y [Hy Hay]].
    apply in_map_iff in Hy. destruct Hy as [j [<- Hj]].
    apply Hx. rewrite (Hdisj x j a); [exact Hj | now left | now right | exact Ha | exact Hay].
Qed.

(** The workers share out the indices below [n]. *)
Lemma worker_indices_cover (jobs n : nat) :
  (1 <= jobs)%nat ->
  Permutation (List.concat (map (worker_indices n jobs n) (seq 0 (Nat.min jobs n)))) (seq 0 n).
Proof.
  intros Hj. apply NoDup_Permutation.
  - apply NoDup_concat_map.
    + apply seq_NoDup.
    + intros i _. now apply NoDup_worker_indices.
    + intros i j a Hi Hj' Hai Haj. apply in_seq in Hi, Hj'.
      apply In_worker_indices in Hai, Haj.
      destruct Hai as [t [_ [Ha _]]], Haj as [t' [_ [Ha' _]]].
      assert (Hmi : (a mod jobs = i)%nat)
        by (rewrite Ha, Nat.Div0.mod_add; apply Nat.mod_small; lia).
      assert (Hmj : (a mod jobs = j)%nat)
        by (rewrite Ha', Nat.Div0.mod_add; apply Nat.mod_small; lia).
      congruence.
  - apply seq_NoDup.
  - intros k. rewrite in_seq, in_concat. split.
    + intros [w [Hw Hk]]. apply in_map_iff in Hw. destruct Hw as [i [<- _]].
      apply In_worker_indices in Hk. destruct Hk as [t [_ [_ Hk]]]. lia.
    + intros [_ Hk]. exists (worker_indices n jobs n (k mod jobs)). split.
      * apply in_map, in_seq.
        pose proof (Nat.mod_upper_bound k jobs). pose proof (Nat.Div0.mod_le k jobs). lia.
      * apply In_worker_indices. exists (k / jobs)%nat.
        pose proof (Nat.div_mod_eq k jobs) as Hdm.
        assert (Hq : (k / jobs <= k)%nat) by (apply Nat.Div0.div_le_upper_bound; nia).
        repeat split; lia.
Qed.

Lemma concat_flat_map {A B : Type} (g : A -> list B) (L : list (list A)) :
  List.concat (map (flat_map g) L) = flat_map g (List.concat L).
Proof.
  induction L as [|l L IH]; cbn [map List.concat]; [reflexivity|].
  now rewrite flat_map_app, IH.
Qed.

Lemma flat_map_shift {B : Type} (f : nat -> list B) (l : list nat) :
  flat_map f (map S l) = flat_map (fun j => f (S j)) l.
Proof. induction l as [|x l IH]; cbn [map flat_map]; [reflexivity | now rewrite IH]. Qed.

(** Reading a list index by index gives the list. *)
Lemma flat_map_nth_error (files : list string) :
  flat_map (fun j => match nth_error files j with Some f => [f] | None => [] end)
           (seq 0 (List.length files)) = files.
Proof.
  induction files as [|x files IH]; [reflexivity|].
  cbn [List.length seq flat_map nth_error app]. f_equal.
  rewrite <- seq_shift, flat_map_shift. exact IH.
Qed.

End Dispatch.

(** X12.  Whatever [CONCURRENT_JOBS] and the list of files, the workers of
    [processFiles] together are given every file of the list exactly
    once, and there are never more workers than [CONCURRENT_JOBS] (one,
    when the setting is zero). *)
Theorem every_file_is_dispatched_once (CONCURRENT_JOBS : nat) (files : list string) :
  Permutation (List.concat (dispatched CONCURRENT_JOBS files)) files /\
  (List.length (dispatched CONCURRENT_JOBS files) <= Nat.max 1 CONCURRENT_JOBS)%nat.
Proof.
  unfold dispatched.
  destruct (List.length files =? 0)%nat eqn:Hn.
  - apply Nat.eqb_eq in Hn. destruct files; [|discriminate Hn].
    split; [constructor | cbn [List.length]; lia].
  - destruct (CONCURRENT_JOBS <=? 1)%nat eqn:Hj; cbn [orb].
    + split; [cbn [List.concat]; rewrite app_nil_r; apply Permutation_refl
             | cbn [List.length]; lia].
    + apply Nat.leb_gt in Hj.
      destruct (List.length files =? 1)%nat.
      * split; [cbn [List.concat]; rewrite app_nil_r; apply Permutation_refl
               | cbn [List.length]; lia].
      * split; [|rewrite length_map, length_seq; lia].
        rewrite <- (map_map (worker_indices (List.length files) CONCURRENT_JOBS
                               (List.length files))
                            (flat_map (fun j => match nth_error files j with
                                                | Some f => [f]
                                                | None => []
                                                end))).
        rewrite concat_flat_map.
        rewrite <- (flat_map_nth_error files) at 4.
        apply Permutation_flat_map, worker_indices_cover. lia.
Qed.

(** ** The statistics of a run *)

Section Statistics.

Lemma list_sum_cons (x : nat) (l : list nat) : list_sum (x :: l) = (x + list_sum l)%nat.
Proof. reflexivity. Qed.

Lemma length_filter_sum {A : Type} (p : A -> bool) (l : list A) :
  List.length (filter p l) = list_sum (map (fun x => one_if (p x)) l).
Proof.
  induction l as [|x l IH]; [reflexivity|]. cbn [filter map]. rewrite list_sum_cons.
  destruct (p x); cbn [List.length one_if]; lia.
Qed.

Lemma list_sum_perm (l l' : list nat) : Permutation l l' -> list_sum l = list_sum l'.
Proof. induction 1; rewrite ?list_sum_cons; lia. Qed.

Lemma list_sum_concat_map {A B : Type} (f : B -> nat) (g : A -> list B) (l : list A) :
  list_sum (map f (List.concat (map g l)))
  = list_sum (map (fun x => list_sum (map f (g x))) l).
Proof.
  induction l as [|x l IH]; [reflexivity|].
  cbn [map List.concat]. now rewrite map_app, list_sum_app, list_sum_cons, IH.
Qed.

(** An interleaving has the events of its sequences, each once. *)
Lemma interleaved_perm {A : Type} (ls : list (list A)) (evs : list A) :
  interleaved ls evs -> Permutation evs (List.concat ls).
Proof.
  induction 1 as [ls Hall|pre post x l evs _ IH].
  - induction Hall as [|l ls -> _ IH]; [constructor | exact IH].
  - rewrite concat_app in IH |- *. cbn [List.concat] in IH |- *.
    rewrite <- app_comm_cons. apply Permutation_cons_app. exact IH.
Qed.

Lemma interleaved_behind {A : Type} (ls : list (list A)) (evs : list A) :
  interleaved ls evs -> interleaved ([] :: ls) evs.
Proof.
  induction 1 as [ls Hall|pre post x l evs _ IH].
  - constructor. constructor; [reflexivity | exact Hall].
  - exact (interleaved_next ([] :: pre) post x l evs IH).
Qed.

(** The sequences one after the other are an interleaving. *)
Lemma interleaved_in_order {A : Type} (ls : list (list A)) :
  interleaved ls (List.concat ls).
Proof.
  induction ls as [|l ls IH]; [constructor; constructor|].
  cbn [List.concat]. induction l as [|x l IHl]; cbn [app].
  - now apply interleaved_behind.
  - exact (interleaved_next [] ls x l _ IHl).
Qed.

Lemma sequential_fold (jobs : list job) :
  forall (k : nat) (bar : ProgressBar.t),
  ProgressBar.stats
    (fold_left sequential_turn (combine (seq k (List.length jobs)) jobs) bar)
  = ProgressBar.mk_stats
      (ProgressBar.successful (ProgressBar.stats bar) + List.length (filter is_valid jobs))
      (ProgressBar.failed (ProgressBar.stats bar)
       + List.length (filter (fun j => negb (is_valid j)) jobs))
      (ProgressBar.totalRecords (ProgressBar.stats bar) + list_sum (map reported_records jobs))
      (ProgressBar.totalErrors (ProgressBar.stats bar) + list_sum (map reported_errors jobs)).
Proof.
  induction jobs as [|j jobs IH]; intros k [cur [s f r e]].
  - cbn. f_equal; lia.
  - cbn [List.length seq combine fold_left]. rewrite IH. unfold list_sum.
    destruct j as [|p c|p c]; cbn; f_equal; lia.
Qed.

Lemma concurrent_fold (evs : list job_event) :
  forall (tracker : CompletionTracker.t) (bar : ProgressBar.t),
  ProgressBar.successful (ProgressBar.stats bar) = CompletionTracker.successful tracker ->
  ProgressBar.failed (ProgressBar.stats bar) = CompletionTracker.failed tracker ->
  fst (fold_left concurrent_turn evs (tracker, bar))
  = CompletionTracker.mk
      (CompletionTracker.completed tracker + list_sum (map (returned (fun _ => 1)) evs))
      (CompletionTracker.successful tracker
       + list_sum (map (returned (fun r => one_if (success r))) evs))
      (CompletionTracker.failed tracker
       + list_sum (map (returned (fun r => one_if (negb (success r)))) evs))
      (CompletionTracker.totalRecords tracker + list_sum (map (returned records) evs))
      (CompletionTracker.totalErrors tracker + list_sum (map (returned errors) evs)) /\
  ProgressBar.stats (snd (fold_left concurrent_turn evs (tracker, bar)))
  = ProgressBar.mk_stats
      (CompletionTracker.successful tracker
       + list_sum (map (returned (fun r => one_if (success r))) evs))
      (CompletionTracker.failed tracker
       + list_sum (map (returned (fun r => one_if (negb (success r)))) evs))
      (ProgressBar.totalRecords (ProgressBar.stats bar)
       + list_sum (map (reported (fun p _ => p)) evs))
      (ProgressBar.totalErrors (ProgressBar.stats bar)
       + list_sum (map (reported (fun _ e => e)) evs)).
Proof.
  induction evs as [|ev evs IH]; intros [c s f r e] [cur [bs bf br be]] Hs Hf;
    cbn [ProgressBar.successful ProgressBar.failed ProgressBar.stats
         CompletionTracker.successful CompletionTracker.failed] in Hs, Hf; subst bs bf.
  - split; cbn; f_equal; lia.
  - cbn [fold_left]. destruct ev as [p q|[ok n m]]; cbn [concurrent_turn].
    + match goal with
      | |- context [fold_left concurrent_turn evs (?t, ?b)] =>
          destruct (IH t b eq_refl eq_refl) as [-> ->]
      end.
      unfold list_sum. split; cbn; f_equal; lia.
    + match goal with
      | |- context [fold_left concurrent_turn evs (?t, ?b)] =>
          destruct (IH t b eq_refl eq_refl) as [-> ->]
      end.
      unfold list_sum. destruct ok; split; cbn; f_equal; lia.
Qed.

Lemma job_events_counts (j : job) :
  list_sum (map (returned (fun _ => 1%nat)) (job_events j)) = 1%nat /\
  list_sum (map (returned (fun r => one_if (success r))) (job_events j)) = one_if (is_valid j) /\
  list_sum (map (returned (fun r => one_if (negb (success r)))) (job_events j))
  = one_if (negb (is_valid j)) /\
  list_sum (map (returned records) (job_events j)) = records (job_result_of j) /\
  list_sum (map (returned errors) (job_events j)) = errors (job_result_of j) /\
  list_sum (map (reported (fun p _ => p)) (job_events j)) = reported_records j /\
  list_sum (map (reported (fun _ e => e)) (job_events j)) = reported_errors j.
Proof. destruct j; cbn; repeat split; lia. Qed.

Lemma sum_over_interleaving (f : job_event -> nat) (g : job -> nat)
    (jobs : list job) (evs : list job_event) :
  (forall j, list_sum (map f (job_events j)) = g j) ->
  interleaved (map job_events jobs) evs ->
  list_sum (map f evs) = list_sum (map g jobs).
Proof.
  intros Hfg Hint. apply interleaved_perm in Hint.
  rewrite (list_sum_perm _ _ (Permutation_map f Hint)), list_sum_concat_map.
  f_equal. apply map_ext. exact Hfg.
Qed.

End Statistics.

(** A job is how a call of [processFile] that returns went. *)
Lemma processFile_job (JSON_parse : string -> parse_result)
    (year_matches : string -> list string) (DEBUG_MODE : bool)
    (inputPath : string) (evs : list event) (gz : list gz_event) :
  let st := processJsonlFile JSON_parse year_matches inputPath DEBUG_MODE evs in
  uncaught st = false ->
  option_map fst (processFile JSON_parse year_matches DEBUG_MODE inputPath evs gz)
  = option_map job_result_of (job_of (result st) (validateGzipFile DEBUG_MODE gz)).
Proof.
  cbv zeta. intros Hu. unfold processFile, job_of. rewrite Hu.
  destruct (result _) as [|[p e]|err]; try reflexivity.
  destruct (validateGzipFile DEBUG_MODE gz); reflexivity.
Qed.

(** X13.  The statistics of a run.  Run one after the other or by
    concurrent workers in any interleaving, the jobs leave the same
    statistics in the progress bar: every job counts once, as successful
    or as failed, and the record and error totals are those the
    processing of each file resolved with.  The totals therefore include
    the records of the jobs whose output was then found invalid and
    removed, which the results the jobs returned, and the tracker of the
    concurrent workers that adds them up, leave out. *)
Theorem summary_of_processFiles (jobs : list job) :
  ProgressBar.stats (processFiles_sequential jobs) = summary jobs /\
  (forall evs, interleaved (map job_events jobs) evs ->
     ProgressBar.stats (snd (processFiles_concurrent evs)) = summary jobs /\
     CompletionTracker.completed (fst (processFiles_concurrent evs)) = List.length jobs /\
     CompletionTracker.totalRecords (fst (processFiles_concurrent evs))
     = list_sum (map (fun j => records (job_result_of j)) jobs)) /\
  (ProgressBar.successful (summary jobs) + ProgressBar.failed (summary jobs)
   = List.length jobs)%nat /\
  ProgressBar.totalRecords (summary jobs)
  = (list_sum (map (fun j => records (job_result_of j)) jobs)
     + list_sum (map removed_records jobs))%nat.
Proof.
  split; [|split; [|split]].
  - unfold processFiles_sequential. rewrite sequential_fold. reflexivity.
  - intros evs Hint. unfold processFiles_concurrent.
    destruct (concurrent_fold evs CompletionTracker.create ProgressBar.create
                eq_refl eq_refl) as [-> ->].
    cbn [CompletionTracker.create ProgressBar.create ProgressBar.stats
         CompletionTracker.completed CompletionTracker.successful CompletionTracker.failed
         CompletionTracker.totalRecords CompletionTracker.totalErrors
         ProgressBar.totalRecords ProgressBar.totalErrors Nat.add].
    rewrite (sum_over_interleaving _ (fun _ => 1%nat) jobs evs
               (fun j => proj1 (job_events_counts j)) Hint).
    rewrite (sum_over_interleaving _ (fun j => one_if (is_valid j)) jobs evs
               (fun j => proj1 (proj2 (job_events_counts j))) Hint).
    rewrite (sum_over_interleaving _ (fun j => one_if (negb (is_valid j))) jobs evs
               (fun j => proj1 (proj2 (proj2 (job_events_counts j)))) Hint).
    rewrite (sum_over_interleaving _ (fun j => records (job_result_of j)) jobs evs
               (fun j => proj1 (proj2 (proj2 (proj2 (job_events_counts j))))) Hint).
    rewrite (sum_over_interleaving _ reported_records jobs evs
               (fun j => proj1 (proj2 (proj2 (proj2 (proj2 (proj2
                           (job_events_counts j))))))) Hint).
    rewrite (sum_over_interleaving _ reported_errors jobs evs
               (fun j => proj2 (proj2 (proj2 (proj2 (proj2 (proj2
                           (job_events_counts j))))))) Hint).
    unfold summary. rewrite !length_filter_sum. repeat split.
    clear. induction jobs as [|j jobs IH]; [reflexivity|].
    cbn [map List.length]. rewrite list_sum_cons. lia.
  - unfold summary. cbn [ProgressBar.successful ProgressBar.failed].
    induction jobs as [|j jobs IH]; [reflexivity|].
    cbn [filter]. destruct (is_valid j); cbn [negb List.length]; lia.
  - unfold summary. cbn [ProgressBar.totalRecords].
    induction jobs as [|j jobs IH]; [reflexivity|].
    cbn [map]. rewrite !list_sum_cons, IH. destruct j; cbn; lia.
Qed.

(** Two concurrent jobs, the first of which fails validation after
    reporting five records: the summary counts twelve records, the
    results that were returned seven. *)
Lemma summary_of_processFiles_witness :
  let evs := [ReportsCounts 5 0; ReportsCounts 7 1;
              Returns (mk_job_result true 7 1); Returns (mk_job_result false 0 0)] in
  ProgressBar.stats (snd (processFiles_concurrent evs)) = ProgressBar.mk_stats 1 1 12 1 /\
  CompletionTracker.totalRecords (fst (processFiles_concurrent evs)) = 7%nat.
Proof.
  cbv zeta.
  assert (Hint : interleaved (map job_events [JobInvalid 5 0; JobValid 7 1])
                   [ReportsCounts 5 0; ReportsCounts 7 1;
                    Returns (mk_job_result true 7 1); Returns (mk_job_result false 0 0)]).
  { apply (interleaved_next [] [[ReportsCounts 7 1; Returns (mk_job_result true 7 1)]]
             (ReportsCounts 5 0) [Returns (mk_job_result false 0 0)]).
    apply (interleaved_next [[Returns (mk_job_result false 0 0)]] []
             (ReportsCounts 7 1) [Returns (mk_job_result true 7 1)]).
    apply (interleaved_next [[Returns (mk_job_result false 0 0)]] []
             (Returns (mk_job_result true 7 1)) []).
    apply (interleaved_next [] [[]] (Returns (mk_job_result false 0 0)) []).
    apply interleaved_done. repeat constructor. }
  destruct (proj1 (proj2 (summary_of_processFiles [JobInvalid 5 0; JobValid 7 1])) _ Hint)
    as [Hbar [_ Htracker]].
  split; [exact Hbar | exact Htracker].
Defined.

(** ** generate-schema.js: lines across chunks *)

Section GunzipChunks.

Variable parse : string -> parse_result.

Lemma split_lines_nonempty (s : string) : split_lines s <> [].
Proof.
  destruct s as [|a s]; cbn [split_lines]; [discriminate|].
  destruct (nat_of_ascii a =? 10)%nat; [discriminate|].
  destruct (split_lines s); discriminate.
Qed.

(** Splitting a text given in two parts: the last line of the first part
    is continued by the second. *)
Lemma split_lines_app (a b : string) :
  split_lines (a ++ b)
  = removelast (split_lines a) ++ split_lines (last (split_lines a) "" ++ b).
Proof.
  induction a as [|c a IH]; [reflexivity|].
  cbn [String.append split_lines].
  pose proof (split_lines_nonempty a) as Hne.
  destruct (nat_of_ascii c =? 10)%nat eqn:Hc.
  - rewrite IH. destruct (split_lines a) as [|h t]; [contradiction|]. reflexivity.
  - rewrite IH. destruct (split_lines a) as [|h t]; [contradiction|].
    destruct t as [|h' t].
    + cbn [removelast last push_char app String.append split_lines]. now rewrite Hc.
    + reflexivity.
Qed.

Lemma fold_write_line (lines : list string) (st : gunzip_state) :
  fold_left (write_line parse) lines st
  = mk_gunzip_state (buffer st)
      (outputWritten st ++ terminated (valid_lines parse lines))
      (linesProcessed st + List.length (valid_lines parse lines)).
Proof.
  revert st. induction lines as [|line lines IH]; intros [b o n].
  - cbn. now rewrite string_append_nil_r, Nat.add_0_r.
  - cbn [fold_left valid_lines filter]. rewrite IH. unfold write_line.
    destruct (processLine parse line) as [processedLine|] eqn:Hp.
    + assert (processedLine = line) as ->.
      { unfold processLine in Hp. destruct (negb (String.eqb (trim line) "")); [|discriminate].
        destruct (parse line); [now injection Hp | discriminate]. }
      cbn [buffer outputWritten linesProcessed terminated fold_right List.length].
      fold (valid_lines parse lines). fold (terminated (valid_lines parse lines)).
      rewrite !string_append_assoc. f_equal. lia.
    + reflexivity.
Qed.

Lemma valid_lines_app (l1 l2 : list string) :
  valid_lines parse (l1 ++ l2) = valid_lines parse l1 ++ valid_lines parse l2.
Proof. apply filter_app. Qed.

Lemma terminated_app (l1 l2 : list string) :
  terminated (l1 ++ l2) = (terminated l1 ++ terminated l2)%string.
Proof.
  induction l1 as [|x l1 IH]; [reflexivity|].
  cbn [app terminated fold_right]. fold (terminated (l1 ++ l2)). fold (terminated l1).
  now rewrite IH, !string_append_assoc.
Qed.

Lemma last_app_nonempty (l1 l2 : list string) :
  l2 <> [] -> last (l1 ++ l2) "" = last l2 "".
Proof.
  intros Hne. induction l1 as [|x l1 IH]; [reflexivity|].
  cbn [app]. destruct (l1 ++ l2) eqn:E; [|exact IH].
  apply app_eq_nil in E. destruct E as [_ E]. contradiction.
Qed.

Lemma on_data_closed (st : gunzip_state) (data : string) :
  on_data parse st data
  = mk_gunzip_state (last (split_lines (buffer st ++ data)) "")
      (outputWritten st
       ++ terminated (valid_lines parse (removelast (split_lines (buffer st ++ data)))))
      (linesProcessed st
       + List.length (valid_lines parse (removelast (split_lines (buffer st ++ data))))).
Proof. unfold on_data. now rewrite fold_write_line. Qed.

(** Two chunks one after the other are handled as the one chunk they
    make together. *)
Lemma on_data_app (st : gunzip_state) (data1 data2 : string) :
  on_data parse (on_data parse st data1) data2 = on_data parse st (data1 ++ data2).
Proof.
  rewrite (on_data_closed st data1), on_data_closed, (on_data_closed st (data1 ++ data2)).
  cbn [buffer outputWritten linesProcessed].
  rewrite <- (string_append_assoc (buffer st) data1 data2).
  rewrite (split_lines_app (buffer st ++ data1) data2).
  set (L1 := split_lines (buffer st ++ data1)).
  set (L2 := split_lines (last L1 "" ++ data2)).
  assert (Hne : L2 <> []) by apply split_lines_nonempty.
  rewrite (last_app_nonempty _ _ Hne), (removelast_app _ Hne).
  rewrite valid_lines_app, terminated_app, length_app, string_append_assoc.
  f_equal. lia.
Qed.

Lemma fold_on_data (chunks : list string) (st : gunzip_state) (data : string) :
  fold_left (on_data parse) chunks (on_data parse st data)
  = on_data parse st (data ++ fold_right String.append "" chunks).
Proof.
  revert data. induction chunks as [|c chunks IH]; intros data; cbn [fold_left fold_right].
  - now rewrite string_append_nil_r.
  - now rewrite on_data_app, IH, string_append_assoc.
Qed.

Lemma processLine_empty : processLine parse "" = None.
Proof. reflexivity. Qed.

(** The [end] listener treats the buffer as one more line. *)
Lemma on_end_closed (st : gunzip_state) : on_end parse st = write_line parse st (buffer st).
Proof.
  unfold on_end. destruct (String.eqb (buffer st) "") eqn:E; [|reflexivity].
  apply String.eqb_eq in E. rewrite E. cbn [negb]. unfold write_line.
  now rewrite processLine_empty.
Qed.

Lemma processGzipFile_closed (chunks : list string) :
  processGzipFile parse chunks
  = (terminated (valid_lines parse (split_lines (fold_right String.append "" chunks))),
     List.length (valid_lines parse (split_lines (fold_right String.append "" chunks)))).
Proof.
  unfold processGzipFile.
  change (mk_gunzip_state "" "" 0) with (on_data parse (mk_gunzip_state "" "" 0) "").
  rewrite fold_on_data. cbn [String.append].
  set (text := fold_right String.append "" chunks).
  rewrite on_end_closed, on_data_closed. cbn [buffer outputWritten linesProcessed String.append].
  pose proof (app_removelast_last "" (split_lines_nonempty text)) as Hsplit.
  revert Hsplit. generalize (removelast (split_lines text)) as L.
  generalize (last (split_lines text) "") as b. intros b L ->.
  rewrite valid_lines_app, terminated_app, length_app.
  unfold write_line. cbn [buffer outputWritten linesProcessed valid_lines filter String.append
                          Nat.add].
  destruct (processLine parse b) as [x|] eqn:Hb.
  - assert (x = b) as ->.
    { unfold processLine in Hb. destruct (negb (String.eqb (trim b) "")); [|discriminate].
      destruct (parse b); [now injection Hb | discriminate]. }
    cbn [terminated fold_right List.length outputWritten linesProcessed].
    reflexivity.
  - cbn [terminated fold_right List.length outputWritten linesProcessed].
    now rewrite string_append_nil_r, Nat.add_0_r.
Qed.

End GunzipChunks.

(** X14.  [processGzipFile] does not depend on how the decompressor cuts
    the text into chunks.  Whatever the chunks, the lines written are, in
    order, the lines of the whole text (its pieces between line feeds)
    that are not blank and that [JSON.parse] accepts, each as it was and
    followed by a line feed, and the promise resolves with their number;
    so the result is that of the whole text given as one chunk. *)
Theorem processGzipFile_ignores_chunk_boundaries
    (JSON_parse : string -> parse_result) (chunks : list string) :
  let text := fold_right String.append "" chunks in
  let lines := valid_lines JSON_parse (split_lines text) in
  processGzipFile JSON_parse chunks = (terminated lines, List.length lines) /\
  processGzipFile JSON_parse chunks = processGzipFile JSON_parse [text].
Proof.
  cbv zeta. split; [apply processGzipFile_closed|].
  rewrite !processGzipFile_closed. cbn [fold_right]. now rewrite string_append_nil_r.
Qed.

(** ** generate-schema.js: the final report *)

Section FinalReport.

Lemma combine_seq_snoc (pre : list file_turn) (x : file_turn) (k : nat) :
  combine (seq k (List.length (pre ++ [x]))) (pre ++ [x])
  = combine (seq k (List.length pre)) pre ++ [((k + List.length pre)%nat, x)].
Proof.
  revert k. induction pre as [|y pre IH]; intros k; cbn [app List.length seq combine].
  - now rewrite Nat.add_0_r.
  - now rewrite IH, Nat.add_succ_comm.
Qed.

(** The last file that wrote the schema decides. *)
Lemma main_loop_snoc (pre : list file_turn) (x : file_turn) :
  lastSuccessfulFile (main_loop (pre ++ [x]))
  = if updates_schema x then Z.of_nat (List.length pre)
    else lastSuccessfulFile (main_loop pre).
Proof.
  unfold main_loop. rewrite combine_seq_snoc, fold_left_app. cbn [fold_left Nat.add].
  unfold main_turn at 1, updates_schema.
  destruct (gunzipped x) as [n|]; [|reflexivity].
  destruct (n <? 10)%nat; [reflexivity|]. cbn [negb andb].
  destruct (schemaWritten x); reflexivity.
Qed.

Lemma main_loop_bounds (turns : list file_turn) :
  (Z.of_nat (List.length (filter updates_schema turns)) - 1
   <= lastSuccessfulFile (main_loop turns) < Z.of_nat (List.length turns))%Z.
Proof.
  induction turns as [|x pre IH] using rev_ind; [cbn; lia|].
  rewrite main_loop_snoc, filter_app, !length_app. cbn [filter].
  pose proof (filter_length_le updates_schema pre) as Hle.
  destruct (updates_schema x); cbn [List.length]; lia.
Qed.

End FinalReport.

(** X15.  The count in the final report of [generate-schema.js] is the
    position of the last file that wrote the schema, not the number of
    files that did.  It is never less than that number and never more
    than the number of files; and whenever the last file writes the
    schema the report says that all the files were processed and prints
    no warning, whatever happened to the files before it. *)
Theorem report_counts_up_to_last_success (turns : list file_turn) :
  (Z.of_nat (List.length (filter updates_schema turns)) <= reported_files turns
   <= Z.of_nat (List.length turns))%Z /\
  (forall pre last, turns = pre ++ [last] -> updates_schema last = true ->
     reported_files turns = Z.of_nat (List.length turns) /\
     warns_of_skipped turns = false) /\
  (forall pre last, turns = pre ++ [last] -> updates_schema last = false ->
     warns_of_skipped turns = true).
Proof.
  unfold reported_files, warns_of_skipped. split; [|split].
  - pose proof (main_loop_bounds turns). lia.
  - intros pre last -> Hlast. rewrite main_loop_snoc, Hlast, length_app.
    cbn [List.length]. split; [lia | apply Z.ltb_ge; lia].
  - intros pre last -> Hlast. rewrite main_loop_snoc, Hlast, length_app.
    cbn [List.length]. pose proof (main_loop_bounds pre). apply Z.ltb_lt. lia.
Qed.

(** A first file that cannot be read and a second that writes the
    schema: the report says two of two, without a warning. *)
Lemma report_counts_up_to_last_success_witness :
  let turns := [mk_file_turn None false; mk_file_turn (Some 20%nat) true] in
  List.length (filter updates_schema turns) = 1%nat /\
  reported_files turns = 2%Z /\ warns_of_skipped turns = false.
Proof.
  cbv zeta. split; [reflexivity|].
  exact (proj1 (proj2 (report_counts_up_to_last_success
                         [mk_file_turn None false; mk_file_turn (Some 20%nat) true]))
               [mk_file_turn None false] (mk_file_turn (Some 20%nat) true) eq_refl eq_refl).
Defined.

(** ** Debug mode and the transform stream *)

Section DebugMode.

Variable parse : string -> parse_result.
Variable ym : string -> list string.

(** Two states of the stream that differ in the debug log only. *)
Lemma transform_debug (st1 st2 : tstate) (line : string) :
  processedCount st1 = processedCount st2 -> errorCount st1 = errorCount st2 ->
  pushed st1 = pushed st2 -> debugLog st2 = [] ->
  let debug := transform parse ym true st1 line in
  let quiet := transform parse ym false st2 line in
  processedCount debug = processedCount quiet /\ errorCount debug = errorCount quiet /\
  pushed debug = pushed quiet /\ debugLog quiet = [].
Proof.
  destruct st1 as [p1 e1 c1 l1], st2 as [p2 e2 c2 l2].
  cbn [processedCount errorCount pushed debugLog]. intros -> -> -> ->. cbv zeta.
  unfold transform. cbn [processedCount errorCount pushed debugLog].
  destruct (String.eqb (trim line) ""); [now repeat split|].
  destruct (parse (trim line)) as [obj|message]; [|now repeat split].
  destruct (includes (JSON_stringify (standardize obj)) "[["); now repeat split.
Qed.

Lemma run_lines_debug (lines : list string) (st1 st2 : tstate) :
  processedCount st1 = processedCount st2 -> errorCount st1 = errorCount st2 ->
  pushed st1 = pushed st2 -> debugLog st2 = [] ->
  let debug := run_lines parse ym true st1 lines in
  let quiet := run_lines parse ym false st2 lines in
  processedCount debug = processedCount quiet /\ errorCount debug = errorCount quiet /\
  pushed debug = pushed quiet /\ debugLog quiet = [].
Proof.
  cbv zeta. unfold run_lines. revert st1 st2.
  induction lines as [|line lines IH]; intros st1 st2 Hp He Hc Hl; [now repeat split|].
  cbn [fold_left].
  destruct (transform_debug st1 st2 line Hp He Hc Hl) as [Hp' [He' [Hc' Hl']]].
  now apply IH.
Qed.

End DebugMode.

(** X16.  In the transform stream, debug mode is observation only: for
    every file, the chunks handed to the compressor and the two counters
    are the same with and without it, nothing is written to the debug
    log without it, and [processJsonlFile] resolves with the same
    counts. *)
Theorem debug_mode_only_writes_the_log
    (JSON_parse : string -> parse_result) (year_matches : string -> list string)
    (inputPath : string) (lines : list string) :
  let debug := run_lines JSON_parse year_matches true (initial_tstate inputPath true) lines in
  let quiet := run_lines JSON_parse year_matches false (initial_tstate inputPath false) lines in
  pushed debug = pushed quiet /\
  processedCount debug = processedCount quiet /\
  errorCount debug = errorCount quiet /\
  debugLog quiet = [] /\
  result (processJsonlFile JSON_parse year_matches inputPath true
            (map Line lines ++ [Close; Finish]))
  = result (processJsonlFile JSON_parse year_matches inputPath false
              (map Line lines ++ [Close; Finish])).
Proof.
  cbv zeta.
  destruct (run_lines_debug JSON_parse year_matches lines
              (initial_tstate inputPath true) (initial_tstate inputPath false)
              eq_refl eq_refl eq_refl eq_refl) as [Hp [He [Hc Hl]]].
  repeat split; try assumption.
  rewrite !processJsonlFile_resolves. cbv zeta. now rewrite Hp, He.
Qed.

(** ** What the flattening keeps *)

Section Leaves.







End Leaves.



(** ** Debug mode and the outcome of a job *)

Section DebugOutcome.

Variable parse : string -> parse_result.
Variable ym : string -> list string.
Variable inputPath : string.





End DebugOutcome.


